(** * File organizer: classification, destination resolution, moves and undo

    A shallow embedding of [file_organizer.py] and of the undo tool
    [undo_organizer.py].

    - Python strings are byte strings ([string]); [str.lower],
      [str.capitalize] and [str.strip] act on the ASCII range.
    - Values that come out of [json.loads] / [json.load] are kept
      dynamically typed ([json]); operations that Python would reject
      raise the corresponding exception ([result]).
    - A [pathlib.Path] is its tuple of [parts].
    - The file system is a tree of named entries, threaded explicitly
      through every operation that touches it. *)

From Stdlib Require Import String Ascii List Arith Bool Lia.
From Stdlib Require Import DecimalString DecimalNat FinFun Sorted Permutation.
From Stdlib Require OrderedTypeEx.
Import ListNotations.
Local Open Scope list_scope.
Local Open Scope string_scope.

Set Implicit Arguments.
Set Warnings "-register-all".

(* ===================================================================== *)
(** ** Python exceptions and the error monad *)
(* ===================================================================== *)

Inductive exn : Type :=
| KeyError (key : string)
| TypeError (msg : string)
| AttributeError (msg : string)
| JSONDecodeError
| FileNotFoundError (p : string)
| FileExistsError (p : string)
| NotADirectoryError (p : string)
| ShutilError (msg : string).

Inductive result (A : Type) : Type :=
| Ok (a : A)
| Raise (e : exn).
Arguments Ok {A} a.
Arguments Raise {A} e.

Definition bind {A B} (m : result A) (k : A -> result B) : result B :=
  match m with
  | Ok a => k a
  | Raise e => Raise e
  end.

Declare Scope py_scope.
Delimit Scope py_scope with py.
Notation "x <- m ;; k" := (bind m (fun x => k))
  (at level 100, m at next level, right associativity) : py_scope.
Local Open Scope py_scope.

Definition is_ok {A} (r : result A) : bool :=
  match r with Ok _ => true | Raise _ => false end.

(** [str(e)] for the messages that embed an exception. *)
Definition str_exn (e : exn) : string :=
  match e with
  | KeyError k => "'" ++ k ++ "'"
  | TypeError m | AttributeError m | ShutilError m => m
  | JSONDecodeError => "Expecting value"
  | FileNotFoundError p => "[Errno 2] No such file or directory: '" ++ p ++ "'"
  | FileExistsError p => "[Errno 17] File exists: '" ++ p ++ "'"
  | NotADirectoryError p => "[Errno 20] Not a directory: '" ++ p ++ "'"
  end.

(* ===================================================================== *)
(** ** Strings *)
(* ===================================================================== *)

Module Str.

Definition is_upper (c : ascii) : bool :=
  let n := nat_of_ascii c in ((65 <=? n) && (n <=? 90))%nat.

Definition is_lower (c : ascii) : bool :=
  let n := nat_of_ascii c in ((97 <=? n) && (n <=? 122))%nat.

Definition lower_char (c : ascii) : ascii :=
  if is_upper c then ascii_of_nat (nat_of_ascii c + 32) else c.

Definition upper_char (c : ascii) : ascii :=
  if is_lower c then ascii_of_nat (nat_of_ascii c - 32) else c.

(** [s.lower()] *)
Fixpoint lower (s : string) : string :=
  match s with
  | EmptyString => EmptyString
  | String c r => String (lower_char c) (lower r)
  end.

(** [s.capitalize()] *)
Definition capitalize (s : string) : string :=
  match s with
  | EmptyString => EmptyString
  | String c r => String (upper_char c) (lower r)
  end.

(** [s.startswith(p)] *)
Definition startswith (p s : string) : bool := String.prefix p s.

(** [sub in s] for two strings *)
Fixpoint contains (sub s : string) : bool :=
  String.prefix sub s ||
  match s with
  | EmptyString => false
  | String _ r => contains sub r
  end.

Definition is_space (c : ascii) : bool :=
  let n := nat_of_ascii c in
  (((9 <=? n) && (n <=? 13)) || ((28 <=? n) && (n <=? 32)))%nat.

Fixpoint lstrip (s : string) : string :=
  match s with
  | EmptyString => EmptyString
  | String c r => if is_space c then lstrip r else s
  end.

Fixpoint rstrip (s : string) : string :=
  match s with
  | EmptyString => EmptyString
  | String c r =>
      match rstrip r with
      | EmptyString => if is_space c then EmptyString else String c EmptyString
      | r' => String c r'
      end
  end.

(** [s.strip()] *)
Definition strip (s : string) : string := rstrip (lstrip s).

(** [s.replace('%%', '%')] *)
Fixpoint unescape_percent (s : string) : string :=
  match s with
  | EmptyString => EmptyString
  | String c r =>
      match r with
      | String c' r' =>
          if (Ascii.eqb c "%" && Ascii.eqb c' "%")%bool
          then String "%" (unescape_percent r')
          else String c (unescape_percent r)
      | EmptyString => s
      end
  end.

(** [s.rfind('.')] *)
Fixpoint rfind_dot (s : string) : option nat :=
  match s with
  | EmptyString => None
  | String c r =>
      match rfind_dot r with
      | Some i => Some (S i)
      | None => if Ascii.eqb c "." then Some 0 else None
      end
  end.

(** [s[i:]] *)
Fixpoint drop (i : nat) (s : string) : string :=
  match i, s with
  | 0, _ => s
  | S j, String _ r => drop j r
  | S _, EmptyString => EmptyString
  end.

(** [s[:i]] *)
Fixpoint take (i : nat) (s : string) : string :=
  match i, s with
  | 0, _ => EmptyString
  | S j, String c r => String c (take j r)
  | S _, EmptyString => EmptyString
  end.

(** [str(n)] for a non-negative integer *)
Definition of_nat (n : nat) : string :=
  NilEmpty.string_of_uint (Nat.to_uint n).

(** [%02d] *)
Definition of_nat2 (n : nat) : string :=
  if (n <? 10)%nat then "0" ++ of_nat n else of_nat n.

Fixpoint has_char (c : ascii) (s : string) : bool :=
  match s with
  | EmptyString => false
  | String d r => Ascii.eqb c d || has_char c r
  end.

End Str.

(* ===================================================================== *)
(** ** JSON values and [json.loads] *)
(* ===================================================================== *)

(** What [json.loads] returns: [None], [bool], a number (kept as its
    lexeme), [str], [list], or [dict] (insertion ordered). *)
Inductive json : Type :=
| JNull
| JBool (b : bool)
| JNum (lexeme : string)
| JStr (s : string)
| JArr (items : list json)
| JObj (fields : list (string * json)).

Module Dict.
Section Dict.
Variable V : Type.

(** [k in d] *)
Fixpoint mem (k : string) (d : list (string * V)) : bool :=
  match d with
  | [] => false
  | (k', _) :: r => String.eqb k k' || mem k r
  end.

(** [d.get(k)] *)
Fixpoint get (k : string) (d : list (string * V)) : option V :=
  match d with
  | [] => None
  | (k', v) :: r => if String.eqb k k' then Some v else get k r
  end.

(** [d[k] = v]: an existing key keeps its position. *)
Fixpoint set (k : string) (v : V) (d : list (string * V)) : list (string * V) :=
  match d with
  | [] => [(k, v)]
  | (k', v') :: r =>
      if String.eqb k k' then (k, v) :: r else (k', v') :: set k v r
  end.

(** [dict(pairs)] *)
Definition of_pairs (ps : list (string * V)) : list (string * V) :=
  fold_left (fun d kv => set (fst kv) (snd kv) d) ps [].

End Dict.
End Dict.

Module Json.

Inductive token : Type :=
| TLBrace | TRBrace | TLBracket | TRBracket | TColon | TComma
| TString (s : string) | TNumber (s : string) | TTrue | TFalse | TNull.

Definition dquote : ascii := ascii_of_nat 34.

Definition unescape (c : ascii) : option ascii :=
  if Ascii.eqb c dquote then Some dquote
  else if Ascii.eqb c "\" then Some "\"%char
  else if Ascii.eqb c "/" then Some "/"%char
  else if Ascii.eqb c "b" then Some (ascii_of_nat 8)
  else if Ascii.eqb c "f" then Some (ascii_of_nat 12)
  else if Ascii.eqb c "n" then Some (ascii_of_nat 10)
  else if Ascii.eqb c "r" then Some (ascii_of_nat 13)
  else if Ascii.eqb c "t" then Some (ascii_of_nat 9)
  else None.

(** Body of a string literal, after the opening quote.  The [\uXXXX]
    escape is outside the byte-string fragment and is rejected. *)
Fixpoint lex_string (s : string) : option (string * string) :=
  match s with
  | EmptyString => None
  | String c r =>
      if Ascii.eqb c dquote then Some (EmptyString, r)
      else if Ascii.eqb c "\" then
        match r with
        | String e r' =>
            match unescape e, lex_string r' with
            | Some d, Some (body, rest) => Some (String d body, rest)
            | _, _ => None
            end
        | EmptyString => None
        end
      else if (nat_of_ascii c <? 32)%nat then None
      else
        match lex_string r with
        | Some (body, rest) => Some (String c body, rest)
        | None => None
        end
  end.

Definition is_digit (c : ascii) : bool :=
  let n := nat_of_ascii c in ((48 <=? n) && (n <=? 57))%nat.

Fixpoint span_digits (s : string) : string * string :=
  match s with
  | String c r =>
      if is_digit c
      then let (d, rest) := span_digits r in (String c d, rest)
      else (EmptyString, s)
  | EmptyString => (EmptyString, EmptyString)
  end.

(** A JSON number: optional minus, integer part without leading zero,
    optional fraction, optional exponent; longest match. *)
Definition lex_number (s : string) : option (string * string) :=
  let (sign, s1) :=
    match s with
    | String "-" r => ("-", r)
    | _ => (EmptyString, s)
    end in
  let (int, s2) := span_digits s1 in
  let int_ok :=
    match int with
    | EmptyString => false
    | String "0" (String _ _) => false
    | _ => true
    end in
  if negb int_ok then None else
  let (frac, s3) :=
    match s2 with
    | String "." r =>
        let (d, rest) := span_digits r in
        match d with
        | EmptyString => (EmptyString, s2)
        | _ => ("." ++ d, rest)
        end
    | _ => (EmptyString, s2)
    end in
  let (exp, s4) :=
    match s3 with
    | String e r =>
        if (Ascii.eqb e "e" || Ascii.eqb e "E")%bool then
          let (sg, r1) :=
            match r with
            | String "+" r' => ("+", r')
            | String "-" r' => ("-", r')
            | _ => (EmptyString, r)
            end in
          let (d, rest) := span_digits r1 in
          match d with
          | EmptyString => (EmptyString, s3)
          | _ => (String e (sg ++ d), rest)
          end
        else (EmptyString, s3)
    | EmptyString => (EmptyString, s3)
    end in
  Some (sign ++ int ++ frac ++ exp, s4).

Definition is_ws (c : ascii) : bool :=
  let n := nat_of_ascii c in
  ((n =? 32) || (n =? 9) || (n =? 10) || (n =? 13))%nat.

Definition keywords : list (string * token) :=
  [("true", TTrue); ("false", TFalse); ("null", TNull);
   ("NaN", TNumber "NaN"); ("Infinity", TNumber "Infinity");
   ("-Infinity", TNumber "-Infinity")].

Fixpoint lex_keyword (ks : list (string * token)) (s : string)
  : option (token * string) :=
  match ks with
  | [] => None
  | (k, t) :: r =>
      if String.prefix k s then Some (t, Str.drop (String.length k) s)
      else lex_keyword r s
  end.

Fixpoint lex (fuel : nat) (s : string) : option (list token) :=
  match fuel with
  | 0 => match s with EmptyString => Some [] | _ => None end
  | S f =>
      match s with
      | EmptyString => Some []
      | String c r =>
          let punct t := option_map (cons t) (lex f r) in
          if is_ws c then lex f r
          else if Ascii.eqb c "{" then punct TLBrace
          else if Ascii.eqb c "}" then punct TRBrace
          else if Ascii.eqb c "[" then punct TLBracket
          else if Ascii.eqb c "]" then punct TRBracket
          else if Ascii.eqb c ":" then punct TColon
          else if Ascii.eqb c "," then punct TComma
          else if Ascii.eqb c dquote then
            match lex_string r with
            | Some (body, rest) => option_map (cons (TString body)) (lex f rest)
            | None => None
            end
          else
            match lex_keyword keywords s with
            | Some (t, rest) => option_map (cons t) (lex f rest)
            | None =>
                match lex_number s with
                | Some (n, rest) => option_map (cons (TNumber n)) (lex f rest)
                | None => None
                end
            end
      end
  end.

Fixpoint parse_value (fuel : nat) (ts : list token) : option (json * list token) :=
  match fuel with
  | 0 => None
  | S f =>
      match ts with
      | TNull :: r => Some (JNull, r)
      | TTrue :: r => Some (JBool true, r)
      | TFalse :: r => Some (JBool false, r)
      | TNumber n :: r => Some (JNum n, r)
      | TString s :: r => Some (JStr s, r)
      | TLBracket :: TRBracket :: r => Some (JArr [], r)
      | TLBracket :: r =>
          match parse_items f r with
          | Some (vs, r') => Some (JArr vs, r')
          | None => None
          end
      | TLBrace :: TRBrace :: r => Some (JObj [], r)
      | TLBrace :: r =>
          match parse_members f r with
          | Some (kvs, r') => Some (JObj (Dict.of_pairs kvs), r')
          | None => None
          end
      | _ => None
      end
  end
with parse_items (fuel : nat) (ts : list token) : option (list json * list token) :=
  match fuel with
  | 0 => None
  | S f =>
      match parse_value f ts with
      | Some (v, TComma :: r) =>
          match parse_items f r with
          | Some (vs, r') => Some (v :: vs, r')
          | None => None
          end
      | Some (v, TRBracket :: r) => Some ([v], r)
      | _ => None
      end
  end
with parse_members (fuel : nat) (ts : list token)
  : option (list (string * json) * list token) :=
  match fuel with
  | 0 => None
  | S f =>
      match ts with
      | TString k :: TColon :: r =>
          match parse_value f r with
          | Some (v, TComma :: r') =>
              match parse_members f r' with
              | Some (kvs, r'') => Some ((k, v) :: kvs, r'')
              | None => None
              end
          | Some (v, TRBrace :: r') => Some ([(k, v)], r')
          | _ => None
          end
      | _ => None
      end
  end.

(** [json.loads(s)] *)
Definition loads (s : string) : result json :=
  match lex (String.length s) s with
  | Some ts =>
      match parse_value (S (List.length ts)) ts with
      | Some (v, []) => Ok v
      | _ => Raise JSONDecodeError
      end
  | None => Raise JSONDecodeError
  end.

End Json.

(** *** Python operators on dynamically typed values *)

Module Py.

Definition is_zero_lexeme (n : string) : bool :=
  let mantissa_end c := (Ascii.eqb c "e" || Ascii.eqb c "E")%bool in
  (fix go (s : string) : bool :=
     match s with
     | EmptyString => true
     | String c r =>
         if mantissa_end c then true
         else if Json.is_digit c then Ascii.eqb c "0" && go r
         else if (Ascii.eqb c "-" || Ascii.eqb c ".")%bool then go r
         else false
     end) n.

(** [bool(v)] *)
Definition truthy (v : json) : bool :=
  match v with
  | JNull => false
  | JBool b => b
  | JNum n => negb (is_zero_lexeme n)
  | JStr s => negb (String.eqb s EmptyString)
  | JArr l => match l with [] => false | _ => true end
  | JObj d => match d with [] => false | _ => true end
  end.

Definition is_str (s : string) (v : json) : bool :=
  match v with
  | JStr s' => String.eqb s s'
  | _ => false
  end.

(** [s in v] for a string [s] *)
Definition contains (v : json) (s : string) : result bool :=
  match v with
  | JArr l => Ok (existsb (is_str s) l)
  | JObj d => Ok (Dict.mem s d)
  | JStr t => Ok (Str.contains s t)
  | _ => Raise (TypeError "argument is not iterable")
  end.

(** [v[k]] for a string key [k] *)
Definition getitem (v : json) (k : string) : result json :=
  match v with
  | JObj d =>
      match Dict.get k d with
      | Some x => Ok x
      | None => Raise (KeyError k)
      end
  | JArr _ => Raise (TypeError "list indices must be integers or slices, not str")
  | JStr _ => Raise (TypeError "string indices must be integers, not 'str'")
  | _ => Raise (TypeError "object is not subscriptable")
  end.

(** [v.get(k, default)] *)
Definition get (v : json) (k : string) (default : json) : result json :=
  match v with
  | JObj d =>
      match Dict.get k d with
      | Some x => Ok x
      | None => Ok default
      end
  | _ => Raise (AttributeError "object has no attribute 'get'")
  end.

(** [v.items()] *)
Definition items (v : json) : result (list (string * json)) :=
  match v with
  | JObj d => Ok d
  | _ => Raise (AttributeError "object has no attribute 'items'")
  end.

(** [str(v)], as an f-string renders a value; containers are rendered
    by their brackets only. *)
Definition str (v : json) : string :=
  match v with
  | JNull => "None"
  | JBool true => "True"
  | JBool false => "False"
  | JNum n => n
  | JStr s => s
  | JArr _ => "[...]"
  | JObj _ => "{...}"
  end.

(** [v] used where a [str] is required *)
Definition as_str (v : json) : result string :=
  match v with
  | JStr s => Ok s
  | _ => Raise (TypeError "expected str")
  end.

End Py.

(* ===================================================================== *)
(** ** [pathlib.Path] *)
(* ===================================================================== *)

(** A path is its [parts]: the anchor ["/"] first when the path is
    absolute, then one string per component.  The empty tuple is [Path('.')]. *)
Definition path : Type := list string.

Module Path.

(** [s.split('/')] *)
Fixpoint split (s : string) : list string :=
  match s with
  | EmptyString => [EmptyString]
  | String c r =>
      if Ascii.eqb c "/" then EmptyString :: split r
      else
        match split r with
        | h :: t => String c h :: t
        | [] => [String c EmptyString]
        end
  end.

Definition is_component (c : string) : bool :=
  negb (String.eqb c EmptyString || String.eqb c ".").

(** [Path(s)]: empty and ["."] components are dropped, all leading
    slashes collapse into the one anchor. *)
Definition of_string (s : string) : path :=
  let comps := filter is_component (split s) in
  if Str.startswith "/" s then "/" :: comps else comps.

Definition is_absolute (p : path) : bool :=
  match p with
  | c :: _ => String.eqb c "/"
  | [] => false
  end.

Definition components (p : path) : list string :=
  if is_absolute p then tl p else p.

(** [str(p)] *)
Definition str (p : path) : string :=
  match p with
  | [] => "."
  | c :: r => if String.eqb c "/" then "/" ++ String.concat "/" r
              else String.concat "/" p
  end.

(** [p / s] *)
Definition join (p : path) (s : string) : path :=
  let q := of_string s in
  if is_absolute q then q else (p ++ q)%list.

(** [p.name] *)
Definition name (p : path) : string := last (components p) EmptyString.

(** [p.parent] *)
Definition parent (p : path) : path :=
  match components p with
  | [] => p
  | _ => removelast p
  end.

Definition dot_index (n : string) : option nat :=
  match Str.rfind_dot n with
  | Some i => if ((0 <? i) && (i <? String.length n - 1))%nat then Some i else None
  | None => None
  end.

(** [p.suffix] *)
Definition suffix (p : path) : string :=
  match dot_index (name p) with
  | Some i => Str.drop i (name p)
  | None => EmptyString
  end.

(** [p.stem] *)
Definition stem (p : path) : string :=
  match dot_index (name p) with
  | Some i => Str.take i (name p)
  | None => name p
  end.

(** What the operating system accepts as an entry name. *)
Definition valid_name (c : string) : bool :=
  is_component c && negb (Str.has_char "/" c).

Definition wf (p : path) : Prop :=
  Forall (fun c => valid_name c = true) (components p).

End Path.

(* ===================================================================== *)
(** ** Timestamps and [strftime] *)
(* ===================================================================== *)

(** A [datetime], as [datetime.fromtimestamp] and [datetime.now] build it. *)
Record datetime : Type := mkDate {
  year : nat; month : nat; day : nat;
  hour : nat; minute : nat; second : nat
}.

(** [d.strftime(fmt)] for the numeric directives [%Y %m %d %H %M %S] and
    [%%]; any other directive is copied unchanged. *)
Fixpoint strftime (d : datetime) (fmt : string) : string :=
  match fmt with
  | EmptyString => EmptyString
  | String c r =>
      if Ascii.eqb c "%" then
        match r with
        | String k r' =>
            let field :=
              if Ascii.eqb k "Y" then Some (Str.of_nat (year d))
              else if Ascii.eqb k "m" then Some (Str.of_nat2 (month d))
              else if Ascii.eqb k "d" then Some (Str.of_nat2 (day d))
              else if Ascii.eqb k "H" then Some (Str.of_nat2 (hour d))
              else if Ascii.eqb k "M" then Some (Str.of_nat2 (minute d))
              else if Ascii.eqb k "S" then Some (Str.of_nat2 (second d))
              else if Ascii.eqb k "%" then Some "%"
              else None in
            match field with
            | Some f => f ++ strftime d r'
            | None => String c (String k (strftime d r'))
            end
        | EmptyString => fmt
        end
      else String c (strftime d r)
  end.

(* ===================================================================== *)
(** ** The file system *)
(* ===================================================================== *)

(** A file carries the time [os.stat] reports for it ([st_birthtime]
    where the platform has it, [st_mtime] otherwise) and its bytes.  A
    directory lists its entries in [os.scandir] order.  There are no
    symbolic links, and [..] is not resolved. *)
Inductive node : Type :=
| File (mtime : datetime) (data : string)
| Dir (entries : list (string * node)).

Module FS.

(** [d.pop(k, None)] on a directory listing *)
Fixpoint unlink (k : string) (d : list (string * node)) : list (string * node) :=
  match d with
  | [] => []
  | (k', v) :: r =>
      if String.eqb k k' then unlink k r else (k', v) :: unlink k r
  end.

(** A location: the names from the file-system root down to an entry. *)
Definition loc : Type := list string.

Fixpoint lookup (l : loc) (n : node) : option node :=
  match l with
  | [] => Some n
  | c :: r =>
      match n with
      | Dir es =>
          match Dict.get c es with
          | Some ch => lookup r ch
          | None => None
          end
      | File _ _ => None
      end
  end.

Definition exists_ (l : loc) (fs : node) : bool :=
  match lookup l fs with Some _ => true | None => false end.

Definition is_dir (l : loc) (fs : node) : bool :=
  match lookup l fs with Some (Dir _) => true | _ => false end.

(** Detach the entry at [l]; nothing happens when there is none. *)
Fixpoint remove (l : loc) (n : node) : node :=
  match l, n with
  | [], _ => n
  | _, File _ _ => n
  | [c], Dir es => Dir (unlink c es)
  | c :: r, Dir es =>
      match Dict.get c es with
      | Some ch => Dir (Dict.set c (remove r ch) es)
      | None => n
      end
  end.

(** Attach [x] at [l], replacing what is there; the parent must be a
    directory, otherwise nothing happens. *)
Fixpoint put (l : loc) (x : node) (n : node) : node :=
  match l, n with
  | [], _ => x
  | _, File _ _ => n
  | [c], Dir es => Dir (Dict.set c x es)
  | c :: r, Dir es =>
      match Dict.get c es with
      | Some ch => Dir (Dict.set c (put r x ch) es)
      | None => n
      end
  end.

(** Rewrite the entry at [l] in place; nothing happens when there is none. *)
Fixpoint alter (f : node -> node) (l : loc) (n : node) : node :=
  match l, n with
  | [], _ => f n
  | _ :: _, File _ _ => n
  | c :: r, Dir es =>
      match Dict.get c es with
      | Some ch => Dir (Dict.set c (alter f r ch) es)
      | None => n
      end
  end.

Definition loc_str (l : loc) : string := "/" ++ String.concat "/" l.

(** [os.makedirs(l, exist_ok=True)], which is what
    [Path.mkdir(parents=True, exist_ok=True)] amounts to. *)
Fixpoint mkdir_p (l : loc) (n : node) : result node :=
  match l, n with
  | [], Dir _ => Ok n
  | [], File _ _ => Raise (FileExistsError "")
  | _ :: _, File _ _ => Raise (NotADirectoryError "")
  | c :: r, Dir es =>
      let child := match Dict.get c es with Some ch => ch | None => Dir [] end in
      ch' <- mkdir_p r child ;;
      Ok (Dir (Dict.set c ch' es))
  end.

Fixpoint loc_eqb (a b : loc) : bool :=
  match a, b with
  | [], [] => true
  | x :: a', y :: b' => String.eqb x y && loc_eqb a' b'
  | _, _ => false
  end.

Fixpoint is_prefix (a b : loc) : bool :=
  match a, b with
  | [], _ => true
  | x :: a', y :: b' => String.eqb x y && is_prefix a' b'
  | _ :: _, [] => false
  end.

(** [shutil.move(src, dst)].  A directory destination receives the entry
    under its own name; a file destination is replaced by a file; an
    entry never moves below itself. *)
Definition move (src dst : loc) (fs : node) : result node :=
  if is_dir dst fs && loc_eqb src dst then Ok fs
  else
    let real_dst :=
      if is_dir dst fs then (dst ++ [last src EmptyString])%list else dst in
    if is_dir dst fs && exists_ real_dst fs
    then Raise (ShutilError ("Destination path '" ++ loc_str real_dst ++ "' already exists"))
    else
      match lookup src fs with
      | None => Raise (FileNotFoundError (loc_str src))
      | Some x =>
          if loc_eqb src real_dst then Ok fs
          else if is_prefix src real_dst
          then Raise (ShutilError ("Cannot move a directory '" ++ loc_str src
                                   ++ "' into itself '" ++ loc_str dst ++ "'."))
          else
            match x, lookup real_dst fs with
            | Dir _, Some (File _ _) => Raise (FileExistsError (loc_str real_dst))
            | _, _ =>
                if is_dir (removelast real_dst) fs
                then Ok (put real_dst x (remove src fs))
                else Raise (FileNotFoundError (loc_str real_dst))
            end
      end.

End FS.

(* ===================================================================== *)
(** ** [configparser] *)
(* ===================================================================== *)

(** A [ConfigParser] once the file has been read: the [DEFAULT] section
    and the named sections, each with its options in file order and with
    the values as written.  Option names are unique within a section and
    are as [optionxform] left them. *)
Record config : Type := mkConfig {
  defaults : list (string * string);
  sections : list (string * list (string * string))
}.

(** What can leave [get_rules]: the [KeyError] of a section proxy, one
    of the interpolation errors of [configparser], each with the
    arguments it is built from, or what [json.loads] raised. *)
Inductive syntax_fault : Type :=
| NotFollowed
| BadReference.

Inductive load_exn : Type :=
| ProxyKeyError (key : string)
| InterpolationSyntaxError (key section : string) (fault : syntax_fault) (rest : string)
| InterpolationMissingOptionError (key section rawval reference : string)
| InterpolationDepthError (key section rawval : string)
| LoadsError (e : exn).

Inductive loaded (A : Type) : Type :=
| Loaded (a : A)
| LoadRaise (e : load_exn).
Arguments Loaded {A} a.
Arguments LoadRaise {A} e.

Module Config.

Definition MAX_INTERPOLATION_DEPTH : nat := 10.

(** [parser.options(section)]: the options of the section, then those
    of [DEFAULT] that the section does not have itself. *)
Definition options (defaults section : list (string * string)) : list string :=
  (map fst section
   ++ filter (fun k => negb (Dict.mem k section)) (map fst defaults))%list.

(** [parser._unify_values(section, None)[key]]: the section first, then
    [DEFAULT]. *)
Definition unified (defaults section : list (string * string)) (key : string)
  : option string :=
  match Dict.get key section with
  | Some v => Some v
  | None => Dict.get key defaults
  end.

(** Where the loop of [_interpolate_some] stands: in plain text, just
    after a [%], inside the name of a [%(name)s] reference, or after its
    closing bracket.  [rest] is the text from that [%] on, which the
    error messages quote. *)
Inductive scanning : Type :=
| Text
| AfterPercent (rest : string)
| InReference (rest : string) (name : string)
| AfterReference (rest : string) (name : string).

(** [BasicInterpolation._interpolate_some], with the joined [accum] as
    its result; [depth] counts the levels that are left, so that the
    call at Python's [depth = MAX_INTERPOLATION_DEPTH + 1] is the one
    that raises. *)
Fixpoint interpolate_some (depth : nat) (key section rawval : string)
    (map : string -> option string) (rest : string) {struct depth}
  : loaded string :=
  match depth with
  | 0 => LoadRaise (InterpolationDepthError key section rawval)
  | S depth' =>
      (fix scan (state : scanning) (s : string) {struct s} : loaded string :=
         let cons (c : ascii) (m : loaded string) :=
           match m with
           | Loaded t => Loaded (String c t)
           | LoadRaise e => LoadRaise e
           end in
         match s with
         | EmptyString =>
             match state with
             | Text => Loaded EmptyString
             | AfterPercent rest =>
                 LoadRaise (InterpolationSyntaxError key section NotFollowed rest)
             | InReference rest _ | AfterReference rest _ =>
                 LoadRaise (InterpolationSyntaxError key section BadReference rest)
             end
         | String c r =>
             match state with
             | Text =>
                 if Ascii.eqb c "%" then scan (AfterPercent s) r
                 else cons c (scan Text r)
             | AfterPercent rest =>
                 if Ascii.eqb c "%" then cons "%"%char (scan Text r)
                 else if Ascii.eqb c "(" then scan (InReference rest EmptyString) r
                 else LoadRaise (InterpolationSyntaxError key section NotFollowed rest)
             | InReference rest name =>
                 if Ascii.eqb c ")" then
                   if String.eqb name EmptyString
                   then LoadRaise (InterpolationSyntaxError key section BadReference rest)
                   else scan (AfterReference rest name) r
                 else scan (InReference rest (name ++ String c EmptyString)) r
             | AfterReference rest name =>
                 if Ascii.eqb c "s" then
                   let var := Str.lower name in
                   match map var with
                   | None =>
                       LoadRaise (InterpolationMissingOptionError key section rawval var)
                   | Some v =>
                       match (if Str.has_char "%" v
                              then interpolate_some depth' key section rawval map v
                              else Loaded v) with
                       | Loaded expansion =>
                           match scan Text r with
                           | Loaded t => Loaded (expansion ++ t)
                           | LoadRaise e => LoadRaise e
                           end
                       | LoadRaise e => LoadRaise e
                       end
                   end
                 else LoadRaise (InterpolationSyntaxError key section BadReference rest)
             end
         end) Text rest
  end.

(** [parser[section][key]] for a section other than [DEFAULT]: the
    value after [BasicInterpolation.before_get]. *)
Definition getitem (cfg : config) (section key : string) : loaded string :=
  match Dict.get section (sections cfg) with
  | None => LoadRaise (ProxyKeyError section)
  | Some options =>
      let name := Str.lower key in
      match unified (defaults cfg) options name with
      | None => LoadRaise (ProxyKeyError key)
      | Some value =>
          interpolate_some MAX_INTERPOLATION_DEPTH name section value
            (unified (defaults cfg) options) value
      end
  end.

End Config.

(* ===================================================================== *)
(** ** [FileOrganizerConfig] *)
(* ===================================================================== *)

(** The loop of [get_rules] over the option names that iterating
    [self.config['RULES']] yields. *)
Fixpoint get_rules_from (cfg : config) (categories : list string)
    (rules : list (string * json)) : loaded (list (string * json)) :=
  match categories with
  | [] => Loaded rules
  | category :: rest =>
      match Config.getitem cfg "RULES" category with
      | LoadRaise e => LoadRaise e
      | Loaded rule_str =>
          if negb (Str.startswith "{" (Str.strip rule_str))
          then get_rules_from cfg rest rules
          else
            let rule_str := Str.unescape_percent rule_str in
            let category_name := Str.capitalize category in
            match Json.loads rule_str with
            | Raise e => LoadRaise (LoadsError e)
            | Ok rule => get_rules_from cfg rest (Dict.set category_name rule rules)
            end
      end
  end.

Definition get_rules (cfg : config) : loaded (list (string * json)) :=
  match Dict.get "RULES" (sections cfg) with
  | None => LoadRaise (ProxyKeyError "RULES")
  | Some section =>
      get_rules_from cfg (Config.options (defaults cfg) section) []
  end.

(** [config['DEFAULT'].get(key, fallback)] *)
Definition get_setting (settings : list (string * string)) (key : string)
    (fallback : option string) : option string :=
  match Dict.get key settings with
  | Some v => Some v
  | None => fallback
  end.

(* ===================================================================== *)
(** ** [FileOrganizer] *)
(* ===================================================================== *)

(** What a run reads from outside: the working directory, the [DEFAULT]
    settings as [get] returns them (values the organizer uses hold no
    [%], so that interpolation leaves them as they are), the clock, the
    [running] flag as the loop finds it at each poll, and which
    directories the operating system lets [rmdir] remove. *)
Record env : Type := mkEnv {
  cwd : FS.loc;
  settings : list (string * string);
  clock : datetime;
  running : nat -> bool;
  may_rmdir : FS.loc -> bool
}.

(** The mutable part of a [FileOrganizer], together with the disk. *)
Record state : Type := mkState {
  fs : node;
  moved : nat;
  errors : nat;
  undo_log : list json
}.

Definition with_fs (st : state) (d : node) : state :=
  mkState d (moved st) (errors st) (undo_log st).

Definition count_error (st : state) : state :=
  mkState (fs st) (moved st) (S (errors st)) (undo_log st).

Section Organizer.

Variable E : env.
Variable rules : list (string * json).

(** Where a path points on disk. *)
Definition resolve (p : path) : FS.loc :=
  if Path.is_absolute p then tl p else (cwd E ++ p)%list.

Definition path_exists (d : node) (p : path) : bool := FS.exists_ (resolve p) d.
Definition path_is_dir (d : node) (p : path) : bool := FS.is_dir (resolve p) d.

Fixpoint first_category (extension : string) (rs : list (string * json))
  : result string :=
  match rs with
  | [] => Ok "Other"
  | (category, rule) :: rest =>
      exts <- Py.getitem rule "extensions" ;;
      hit <- Py.contains exts extension ;;
      if hit then Ok category else first_category extension rest
  end.

Definition get_file_category (file_path : path) : result string :=
  let extension := Str.lower (Path.suffix file_path) in
  first_category extension rules.

(** [os.stat] succeeds on the files the organizer asks about; for
    anything else the [except] branch answers with the clock. *)
Definition get_file_date (d : node) (file_path : path) : datetime :=
  match FS.lookup (resolve file_path) d with
  | Some (File t _) => t
  | _ => clock E
  end.

Fixpoint first_listing (extension : string) (subs : list (string * json))
  : result (option string) :=
  match subs with
  | [] => Ok None
  | (subfolder, extensions) :: rest =>
      hit <- Py.contains extensions extension ;;
      if hit then Ok (Some subfolder) else first_listing extension rest
  end.

Fixpoint first_catch_all (subs : list (string * json)) : option string :=
  match subs with
  | [] => None
  | (subfolder, extensions) :: rest =>
      if negb (Py.truthy extensions) then Some subfolder
      else first_catch_all rest
  end.

Definition get_subfolder (file_path : path) (subfolders : json)
  : result (option string) :=
  let extension := Str.lower (Path.suffix file_path) in
  subs <- Py.items subfolders ;;
  found <- first_listing extension subs ;;
  match found with
  | Some s => Ok (Some s)
  | None => Ok (first_catch_all subs)
  end.

Definition generate_destination_path (d : node) (file_path : path)
    (destination_base : string) : result path :=
  category <- get_file_category file_path ;;
  let rule :=
    match Dict.get category rules with Some r => r | None => JObj [] end in
  let dest_path := Path.join (Path.of_string destination_base) category in
  has_sub <- Py.contains rule "subfolders" ;;
  dest_path <-
    (if has_sub then
       table <- Py.getitem rule "subfolders" ;;
       subfolder <- get_subfolder file_path table ;;
       match subfolder with
       | Some s => if String.eqb s EmptyString then Ok dest_path
                   else Ok (Path.join dest_path s)
       | None => Ok dest_path
       end
     else Ok dest_path) ;;
  by_date <- Py.get rule "subfolder_by_date" (JBool false) ;;
  if Py.truthy by_date then
    let file_date := get_file_date d file_path in
    date_format <- Py.get rule "date_format" (JStr "%Y/%m") ;;
    fmt <- Py.as_str date_format ;;
    let date_folder := strftime file_date fmt in
    Ok (Path.join dest_path date_folder)
  else Ok dest_path.

(** The [while destination.exists()] loop of [handle_duplicate]; [None]
    when it is still running after [fuel] iterations. *)
Fixpoint probe (fuel : nat) (d : node) (parent : path)
    (base_name extension : string) (destination : path) (counter : nat)
  : option path :=
  if path_exists d destination then
    match fuel with
    | 0 => None
    | S f =>
        let new_name := base_name ++ "_" ++ Str.of_nat counter ++ extension in
        probe f d parent base_name extension (Path.join parent new_name) (S counter)
    end
  else Some destination.

(** [self.config.get_setting(key, fallback) == value] *)
Definition setting_is (key fallback value : string) : bool :=
  match get_setting (settings E) key (Some fallback) with
  | Some v => String.eqb v value
  | None => false
  end.

(** [handle_duplicate]: the outer [option] is the fuel, the inner one is
    Python's [None]. *)
Definition handle_duplicate (fuel : nat) (d : node) (source destination : path)
  : option (option path) :=
  if setting_is "handle_duplicates" "rename" "skip" then Some None
  else if setting_is "handle_duplicates" "rename" "overwrite"
  then Some (Some destination)
  else
    option_map Some
      (probe fuel d (Path.parent destination) (Path.stem destination)
             (Path.suffix destination) destination 1).

(** [datetime.now().isoformat()] *)
Definition isoformat (t : datetime) : string := strftime t "%Y-%m-%dT%H:%M:%S".

Definition log_entry (source_path dest_file : path) : json :=
  JObj [("timestamp", JStr (isoformat (clock E)));
        ("source", JStr (Path.str source_path));
        ("destination", JStr (Path.str dest_file));
        ("action", JStr "move")].

(** The part of [organize_file] after the collision has been settled. *)
Definition move_and_log (st : state) (source_path dest_dir dest_file : path)
  : state * (bool * string) :=
  let failed (d : node) (e : exn) :=
    (count_error (with_fs st d),
     (false, "Error moving " ++ Path.name source_path ++ ": " ++ str_exn e)) in
  match FS.mkdir_p (resolve dest_dir) (fs st) with
  | Raise e => failed (fs st) e
  | Ok d1 =>
      match FS.move (resolve source_path) (resolve dest_file) d1 with
      | Raise e => failed d1 e
      | Ok d2 =>
          let log :=
            if setting_is "create_undo_log" "True" "True"
            then (undo_log st ++ [log_entry source_path dest_file])%list
            else undo_log st in
          (mkState d2 (S (moved st)) (errors st) log,
           (true, "Moved " ++ Path.name source_path ++ " -> " ++ Path.str dest_file))
      end
  end.

(** [organize_file]; [None] when the probe loop outlives [fuel]. *)
Definition organize_file (fuel : nat) (st : state) (source_path : path)
    (destination_base : string) (dry_run : bool)
  : option (state * (bool * string)) :=
  if negb (path_exists (fs st) source_path) || path_is_dir (fs st) source_path
  then Some (st, (false, "File does not exist or is a directory: "
                          ++ Path.str source_path))
  else
    match generate_destination_path (fs st) source_path destination_base with
    | Raise e =>
        Some (count_error st,
              (false, "Error moving " ++ Path.name source_path ++ ": " ++ str_exn e))
    | Ok dest_dir =>
        let dest_file := Path.join dest_dir (Path.name source_path) in
        let settled :=
          if path_exists (fs st) dest_file
          then handle_duplicate fuel (fs st) source_path dest_file
          else Some (Some dest_file) in
        match settled with
        | None => None
        | Some None =>
            Some (st, (false, "File skipped (duplicate): " ++ Path.name source_path))
        | Some (Some dest_file) =>
            if dry_run
            then Some (st, (true, "Would move " ++ Path.str source_path
                                   ++ " -> " ++ Path.str dest_file))
            else Some (move_and_log st source_path dest_dir dest_file)
        end
    end.

Definition hidden (file : string) : bool :=
  Str.startswith "." file || Str.startswith "~" file.

(** The files [os.walk(root)] reports, as [Path(root) / file], hidden
    and temporary names left out: the files of a directory first, then
    each sub-directory in turn. *)
Fixpoint walk_files (root : path) (n : node) {struct n} : list path :=
  match n with
  | File _ _ => []
  | Dir es =>
      let files :=
        flat_map (fun e : string * node =>
                    match snd e with
                    | File _ _ =>
                        if hidden (fst e) then [] else [Path.join root (fst e)]
                    | Dir _ => []
                    end) es in
      let below :=
        (fix go (es : list (string * node)) : list path :=
           match es with
           | [] => []
           | (name, ch) :: r =>
               (match ch with
                | Dir _ => walk_files (Path.join root name) ch
                | File _ _ => []
                end ++ go r)%list
           end) es in
      (files ++ below)%list
  end.

(** The [for i, file_path in enumerate(all_files)] loop. *)
Fixpoint organize_each (fuel : nat) (i : nat) (st : state) (files : list path)
    (destination_folder : string) (dry_run : bool)
  : option (state * list (bool * string)) :=
  match files with
  | [] => Some (st, [])
  | file_path :: rest =>
      if negb (running E i) then Some (st, [])
      else
        match organize_file fuel st file_path destination_folder dry_run with
        | None => None
        | Some (st1, outcome) =>
            match organize_each fuel (S i) st1 rest destination_folder dry_run with
            | None => None
            | Some (st2, results) => Some (st2, outcome :: results)
            end
        end
  end.

(** What [organize_folder] returns: [(False, message)] or [(True, results)]. *)
Inductive folder_return : Type :=
| FolderMissing (message : string)
| FolderDone (results : list (bool * string)).

Definition all_files (d : node) (source_folder : path) : list path :=
  match FS.lookup (resolve source_folder) d with
  | Some n => walk_files source_folder n
  | None => []
  end.

Definition organize_folder (fuel : nat) (st : state) (source_folder : string)
    (destination_folder : string) (dry_run : bool)
  : option (state * folder_return) :=
  let source_folder := Path.of_string source_folder in
  if negb (path_exists (fs st) source_folder)
  then Some (st, FolderMissing ("Source folder does not exist: "
                                ++ Path.str source_folder))
  else
    match organize_each fuel 0 st (all_files (fs st) source_folder)
                        destination_folder dry_run with
    | None => None
    | Some (st', results) => Some (st', FolderDone results)
    end.

(** *** Undo *)

(** One pass of [os.walk(base, topdown=False)] with the loop body of
    [_cleanup_empty_dirs]: a directory is visited after its
    sub-directories, and the body then removes those of its children that
    are empty by now and that [rmdir] accepts. *)
Fixpoint cleanup_tree (root : FS.loc) (n : node) {struct n} : node :=
  match n with
  | File _ _ => n
  | Dir es =>
      let visited :=
        (fix go (es : list (string * node)) : list (string * node) :=
           match es with
           | [] => []
           | (name, ch) :: r => (name, cleanup_tree (root ++ [name])%list ch) :: go r
           end) es in
      Dir (filter (fun e : string * node =>
                     match snd e with
                     | Dir [] => negb (may_rmdir E (root ++ [fst e])%list)
                     | _ => true
                     end) visited)
  end.

(** [cleanup_dir_tree] of [undo_organizer.py]; a base that is missing or
    is a file gives [os.walk] nothing to report.  The method
    [_cleanup_empty_dirs] below runs the same loop. *)
Definition cleanup_dir_tree (base_dir : path) (d : node) : node :=
  FS.alter (cleanup_tree (resolve base_dir)) (resolve base_dir) d.

Definition _cleanup_empty_dirs (d : node) : node :=
  match get_setting (settings E) "destination_folder" None with
  | None => d
  | Some s =>
      let destination_base := Path.of_string s in
      if negb (path_exists d destination_base) then d
      else cleanup_dir_tree destination_base d
  end.

(** The [try] body of one undo iteration: the disk afterwards, and either
    the appended result or the exception that reaches the handler. *)
Definition undo_attempt (d : node) (operation : json)
  : node * result (bool * string) :=
  match Py.contains operation "source" with
  | Raise e => (d, Raise e)
  | Ok has_source =>
      match (if has_source then Py.contains operation "destination" else Ok false) with
      | Raise e => (d, Raise e)
      | Ok false =>
          (d, Ok (false, "Invalid operation entry: missing source or destination"))
      | Ok true =>
          match (sv <- Py.getitem operation "source" ;;
                 s <- Py.as_str sv ;;
                 dv <- Py.getitem operation "destination" ;;
                 t <- Py.as_str dv ;;
                 Ok (Path.of_string s, Path.of_string t)) with
          | Raise e => (d, Raise e)
          | Ok (source, destination) =>
              if negb (path_exists d destination)
              then (d, Ok (false, "File not found in organized location: "
                                  ++ Path.name destination))
              else
                match FS.mkdir_p (resolve (Path.parent source)) d with
                | Raise e => (d, Raise e)
                | Ok d1 =>
                    match FS.move (resolve destination) (resolve source) d1 with
                    | Raise e => (d1, Raise e)
                    | Ok d2 =>
                        (d2, Ok (true, "Restored " ++ Path.name destination
                                       ++ " -> " ++ Path.str source))
                    end
                end
          end
      end
  end.

(** One iteration including the [except Exception] handler; [Raise] is an
    exception that leaves the handler itself. *)
Definition undo_step (d : node) (operation : json)
  : node * result (bool * string) :=
  match undo_attempt d operation with
  | (d', Ok r) => (d', Ok r)
  | (d', Raise e) =>
      (d', shown <- Py.get operation "destination" (JStr "unknown") ;;
           Ok (false, "Failed to restore " ++ Py.str shown ++ ": " ++ str_exn e))
  end.

Record tally : Type := mkTally {
  results : list (bool * string);
  successful_undos : nat;
  failed_undos : nat
}.

Definition record_result (t : tally) (r : bool * string) : tally :=
  if fst r
  then mkTally (results t ++ [r])%list (S (successful_undos t)) (failed_undos t)
  else mkTally (results t ++ [r])%list (successful_undos t) (S (failed_undos t)).

(** The [for i, operation in enumerate(undo_operations)] loop. *)
Fixpoint undo_each (i : nat) (d : node) (t : tally) (ops : list json)
  : node * result tally :=
  match ops with
  | [] => (d, Ok t)
  | operation :: rest =>
      if negb (running E i) then (d, Ok t)
      else
        match undo_step d operation with
        | (d', Ok r) => undo_each (S i) d' (record_result t r) rest
        | (d', Raise e) => (d', Raise e)
        end
  end.

(** What [undo_organization] returns: [(False, message)] or
    [(True, (results, summary))]. *)
Inductive undo_return : Type :=
| UndoRefused (message : string)
| UndoDone (results : list (bool * string)) (summary : string).

(** [undo_organization]; [loaded] is what [open] and [json.load] gave
    for the log file. *)
Definition undo_organization (d : node) (loaded : result json)
  : node * result undo_return :=
  match loaded with
  | Raise e => (d, Ok (UndoRefused ("Could not load undo log: " ++ str_exn e)))
  | Ok undo_operations =>
      if negb (Py.truthy undo_operations)
      then (d, Ok (UndoRefused "Undo log is empty"))
      else
        match undo_operations with
        | JArr ops =>
            match undo_each 0 d (mkTally [] 0 0) (rev ops) with
            | (d', Raise e) => (d', Raise e)
            | (d', Ok t) =>
                let summary :=
                  "Undo completed: " ++ Str.of_nat (successful_undos t)
                  ++ " restored, " ++ Str.of_nat (failed_undos t) ++ " failed" in
                (_cleanup_empty_dirs d', Ok (UndoDone (results t) summary))
            end
        | _ => (d, Raise (AttributeError "object has no attribute 'reverse'"))
        end
  end.

End Organizer.

(* ===================================================================== *)
(** ** The built-in rules and the vocabulary of the specification *)
(* ===================================================================== *)

Definition exts (l : list string) : json := JArr (map JStr l).

(** [default_rules] of [load_default_config]. *)
Definition default_rules : list (string * json) :=
  [("Images",
    JObj [("extensions", exts [".jpg"; ".jpeg"; ".png"; ".gif"; ".bmp"; ".tiff";
                               ".svg"; ".webp"; ".ico"; ".heic"]);
          ("subfolder_by_date", JBool true);
          ("date_format", JStr "%Y/%m")]);
   ("Documents",
    JObj [("extensions", exts [".pdf"; ".doc"; ".docx"; ".txt"; ".rtf"; ".odt"; ".pages"]);
          ("subfolder_by_date", JBool false);
          ("subfolders",
           JObj [("PDFs", exts [".pdf"]);
                 ("Word Documents", exts [".doc"; ".docx"; ".odt"]);
                 ("Text Files", exts [".txt"; ".rtf"]);
                 ("Other Documents", exts [])])]);
   ("Office",
    JObj [("extensions", exts [".xls"; ".xlsx"; ".ppt"; ".pptx"; ".odp"; ".ods";
                               ".csv"; ".numbers"; ".keynote"]);
          ("subfolder_by_date", JBool false);
          ("subfolders",
           JObj [("Spreadsheets", exts [".xls"; ".xlsx"; ".ods"; ".csv"; ".numbers"]);
                 ("Presentations", exts [".ppt"; ".pptx"; ".odp"; ".keynote"])])]);
   ("Audio",
    JObj [("extensions", exts [".mp3"; ".wav"; ".flac"; ".aac"; ".ogg"; ".wma"; ".m4a"]);
          ("subfolder_by_date", JBool false)]);
   ("Video",
    JObj [("extensions", exts [".mp4"; ".avi"; ".mkv"; ".mov"; ".wmv"; ".flv";
                               ".webm"; ".m4v"]);
          ("subfolder_by_date", JBool true);
          ("date_format", JStr "%Y")]);
   ("Archives",
    JObj [("extensions", exts [".zip"; ".rar"; ".7z"; ".tar"; ".gz"; ".bz2"; ".xz"]);
          ("subfolder_by_date", JBool false)]);
   ("Development",
    JObj [("extensions", exts [".py"; ".js"; ".html"; ".css"; ".java"; ".cpp"; ".c";
                               ".php"; ".rb"; ".go"; ".rs"; ".swift"]);
          ("subfolder_by_date", JBool false);
          ("subfolders",
           JObj [("Python", exts [".py"]);
                 ("Web", exts [".html"; ".css"; ".js"]);
                 ("Other Code", exts [])])]);
   ("Software",
    JObj [("extensions", exts [".exe"; ".msi"; ".dmg"; ".pkg"; ".deb"; ".rpm"; ".appimage"]);
          ("subfolder_by_date", JBool false)])].

Module Spec.

(** An extension set, as the data model has it: a list of strings. *)
Definition extension_in (extension : string) (set : json) : bool :=
  match set with
  | JArr l => existsb (Py.is_str extension) l
  | _ => false
  end.

Definition is_array (v : json) : bool :=
  match v with JArr _ => true | _ => false end.

Definition is_object (v : json) : bool :=
  match v with JObj _ => true | _ => false end.


Definition field (k : string) (rule : json) : option json :=
  match rule with
  | JObj fields => Dict.get k fields
  | _ => None
  end.


(** What placement needs of a rule, as the data model describes it: an
    optional table of sub-buckets with an extension set each, and an
    optional date pattern. *)
Definition placement_typed (rule : json) : bool :=
  is_object rule
  && match field "subfolders" rule with
     | None => true
     | Some (JObj table) => forallb (fun e => is_array (snd e)) table
     | Some _ => false
     end
  && match field "date_format" rule with
     | None | Some (JStr _) => true
     | Some _ => false
     end.


(** The sub-bucket of the specification: with a table, the first entry
    that lists the extension, else the first entry with an empty set,
    else none. *)
Definition sub_bucket (rule : json) (extension : string) : option string :=
  match field "subfolders" rule with
  | Some (JObj table) =>
      match find (fun e => extension_in extension (snd e)) table with
      | Some e => Some (fst e)
      | None =>
          match find (fun e => match snd e with JArr [] => true | _ => false end) table with
          | Some e => Some (fst e)
          | None => None
          end
      end
  | _ => None
  end.

(** The date segment of the specification: present when the flag is
    set, the timestamp formatted with the rule's pattern ([%Y/%m] when the
    rule names none). *)
Definition date_segment (rule : json) (t : datetime) : option string :=
  match field "subfolder_by_date" rule with
  | Some flag =>
      if Py.truthy flag then
        Some (strftime t match field "date_format" rule with
                         | Some (JStr s) => s
                         | _ => "%Y/%m"
                         end)
      else None
  | None => None
  end.

Definition join_opt (p : path) (component : option string) : path :=
  match component with
  | Some s => Path.join p s
  | None => p
  end.

(** The names [handle_duplicate] tries in turn. *)
Definition probe_name (destination : path) (k : nat) : string :=
  Path.stem destination ++ "_" ++ Str.of_nat k ++ Path.suffix destination.

Definition candidate (destination : path) (k : nat) : path :=
  Path.join (Path.parent destination) (probe_name destination k).

Fixpoint all_digits (s : string) : bool :=
  match s with
  | EmptyString => true
  | String c r => Json.is_digit c && all_digits r
  end.

(** How many results report success, how many failure. *)
Definition count_restored (results : list (bool * string)) : nat :=
  List.length (filter (fun r => fst r) results).

Definition count_failed (results : list (bool * string)) : nat :=
  List.length (filter (fun r => negb (fst r)) results).

(** [summary] of [undo_organization]. *)
Definition summary (restored failed : nat) : string :=
  "Undo completed: " ++ Str.of_nat restored ++ " restored, "
  ++ Str.of_nat failed ++ " failed".

(** An entry that [get_rules] passes to the JSON parser. *)
Definition looks_like_json (rule_str : string) : bool :=
  Str.startswith "{" (Str.strip rule_str).

End Spec.

(** *** Vocabulary of the rule loader *)

(** The option names that [get_rules] iterates over, each with the value
    that reading it gives. *)
Definition read_as (cfg : config) (keys : list string)
    (entries : list (string * string)) : Prop :=
  Forall2 (fun k e => fst e = k /\ Config.getitem cfg "RULES" k = Loaded (snd e))
          keys entries.

(** What the loop of [get_rules] makes of entries that have been read. *)
Fixpoint rules_of_entries (entries : list (string * string))
    (rules : list (string * json)) : result (list (string * json)) :=
  match entries with
  | [] => Ok rules
  | (category, rule_str) :: rest =>
      if negb (Spec.looks_like_json rule_str)
      then rules_of_entries rest rules
      else
        rule <- Json.loads (Str.unescape_percent rule_str) ;;
        rules_of_entries rest (Dict.set (Str.capitalize category) rule rules)
  end.

(** What a dry run has to report for a file, in the words of the
    specification: every resolution step is carried out on the disk as
    it is, and the report names the place a move would take the file to
    ([name_k.ext] with the first free [k] when the policy renames), or
    says that the file would be skipped or why it cannot be placed. *)
Definition would_be (E : env) (rules : list (string * json)) (d : node)
    (destination_folder : string) (file_path : path) (outcome : bool * string)
  : Prop :=
  let name := Path.name file_path in
  let would (q : path) :=
    (true, "Would move " ++ Path.str file_path ++ " -> " ++ Path.str q) in
  match generate_destination_path E rules d file_path destination_folder with
  | Raise e =>
      exists reason, outcome = (false, "Error moving " ++ name ++ ": " ++ reason)
  | Ok dest_dir =>
      let dest_file := Path.join dest_dir name in
      if negb (path_exists E d dest_file) then outcome = would dest_file
      else if setting_is E "handle_duplicates" "rename" "skip"
      then outcome = (false, "File skipped (duplicate): " ++ name)
      else if setting_is E "handle_duplicates" "rename" "overwrite"
      then outcome = would dest_file
      else
        exists k,
          1 <= k
          /\ (forall j, 1 <= j < k ->
                path_exists E d (Spec.candidate dest_file j) = true)
          /\ path_exists E d (Spec.candidate dest_file k) = false
          /\ outcome = would (Spec.candidate dest_file k)
  end.

(** A file of the tree [n] that a pass has to visit: [p] names a file
    at some depth below [source_folder] whose own name is not hidden. *)
Definition eligible (n : node) (source_folder p : path) : Prop :=
  exists rel nm t x,
    p = (source_folder ++ rel ++ [nm])%list
    /\ FS.lookup (rel ++ [nm])%list n = Some (File t x)
    /\ hidden nm = false.

(** The two halves of one step of [cleanup_tree]: visiting a child, and
    deciding whether it stays. *)
Definition visit (E : env) (root : FS.loc) (e : string * node) : string * node :=
  (fst e, cleanup_tree E (root ++ [fst e])%list (snd e)).

Definition stays (E : env) (root : FS.loc) (e : string * node) : bool :=
  match snd e with
  | Dir [] => negb (may_rmdir E (root ++ [fst e])%list)
  | _ => true
  end.

(** *** Vocabulary of the round trip *)

(** Entry names as an operating system hands them out. *)
Fixpoint names_valid (n : node) : bool :=
  match n with
  | File _ _ => true
  | Dir es =>
      (fix go (es : list (string * node)) : bool :=
         match es with
         | [] => true
         | (k, ch) :: r => Path.valid_name k && names_valid ch && go r
         end) es
  end.

(** A directory lists each name once. *)
Fixpoint keys_distinct {V : Type} (es : list (string * V)) : bool :=
  match es with
  | [] => true
  | (k, _) :: r => negb (Dict.mem k r) && keys_distinct r
  end.

Fixpoint names_distinct (n : node) : bool :=
  match n with
  | File _ _ => true
  | Dir es =>
      keys_distinct es
      && (fix go (es : list (string * node)) : bool :=
            match es with
            | [] => true
            | (_, ch) :: r => names_distinct ch && go r
            end) es
  end.

(** Neither location lies at or below the other. *)
Definition apart (a b : FS.loc) : Prop :=
  FS.is_prefix a b = false /\ FS.is_prefix b a = false.

Definition apartb (a b : FS.loc) : bool :=
  negb (FS.is_prefix a b) && negb (FS.is_prefix b a).

(** Strictly below [S]. *)
Definition under (S l : FS.loc) : Prop :=
  exists rel, rel <> [] /\ l = (S ++ rel)%list.

(** A path that never steps back with [..], which the model would take
    for the name of an entry. *)
Definition no_dotdot (p : path) : bool :=
  forallb (fun c => negb (String.eqb c "..")) p.

(** The source tree has proper entry names, each once in its directory,
    and every destination directory that the rules produce for its files
    lies apart from it: neither inside the source tree nor above it.
    None of the paths steps back with [..]. *)
Definition separated (E : env) (rules : list (string * json)) (d : node)
    (source_folder destination_folder : string) : bool :=
  let source := Path.of_string source_folder in
  let S := resolve E source in
  no_dotdot source
  && match FS.lookup S d with
     | Some n => names_valid n && names_distinct n
     | None => true
     end
  && forallb
       (fun p =>
          no_dotdot p
          && match generate_destination_path E rules d p destination_folder with
             | Ok dest_dir => no_dotdot dest_dir && apartb S (resolve E dest_dir)
             | Raise _ => true
             end)
       (all_files E d source).

(** The disk after a file has moved from [src] to [dst]. *)
Definition after_move (F : node) (src dst : FS.loc) (t : datetime) (x : string)
  : node :=
  FS.put dst (File t x) (FS.remove src F).

(** What one step of a pass or of an undo can do to the disk: nothing;
    or create the folders of [prepared]; or, after that, take the entry
    at [src] to [dst], or into [dst] under a name of its own when [dst]
    is a directory. *)
Definition moved_by (prepared src dst : FS.loc) (G G' : node) : Prop :=
  G' = G
  \/ exists G1,
       FS.mkdir_p prepared G = Ok G1
       /\ (G' = G1
           \/ exists x real,
                FS.lookup src G1 = Some x
                /\ (real = dst \/ exists nm, real = (dst ++ [nm])%list)
                /\ FS.is_dir real G1 = false
                /\ FS.is_dir (removelast real) G1 = true
                /\ G' = FS.put real x (FS.remove src G1)).

(** A file of the source tree [S] as the pass finds it listed: a file
    of the disk [F0] of the start, whose destination directory lies
    apart from the source tree. *)
Definition listed (E : env) (rules : list (string * json)) (F0 : node) (S : FS.loc)
    (destination_folder : string) (p : path) : Prop :=
  Path.wf p /\ Path.components p <> [] /\ under S (resolve E p)
  /\ (exists t x, FS.lookup (resolve E p) F0 = Some (File t x))
  /\ (forall dd, generate_destination_path E rules F0 p destination_folder = Ok dd ->
                 apart S (resolve E dd)).

(** A move as the undo log records it: from a file of the source tree
    to a name in a directory that lies apart from it. *)
Definition logged (E : env) (F0 : node) (S : FS.loc) (m : path * path) : Prop :=
  Path.wf (fst m) /\ Path.components (fst m) <> [] /\ Path.wf (snd m)
  /\ under S (resolve E (fst m))
  /\ (exists t x, FS.lookup (resolve E (fst m)) F0 = Some (File t x))
  /\ (exists dest_dir nm,
        apart S dest_dir /\ resolve E (snd m) = (dest_dir ++ [nm])%list).

Definition entry_of (E : env) (m : path * path) : json :=
  log_entry E (fst m) (snd m).

(** A small disk used for the scenarios of the specification. *)
Module Scenario.

Definition stamp : datetime := mkDate 2023 5 10 9 30 0.

Definition env_with (policy : string) : env :=
  mkEnv ["home"; "user"]
        [("handle_duplicates", policy); ("create_undo_log", "True");
         ("destination_folder", "/D")]
        (mkDate 2024 1 1 12 0 0) (fun _ => true) (fun _ => true).

(** Two files called [photo.jpg] in two folders of the source tree. *)
Definition two_photos : node :=
  Dir [("S", Dir [("a", Dir [("photo.jpg", File stamp "first")]);
                  ("b", Dir [("photo.jpg", File stamp "second")])])].

(** Two files called [x.mp3]; the rule for audio files groups by neither
    sub-bucket nor date, so both resolve to [D/Audio/x.mp3]. *)
Definition two_songs : node :=
  Dir [("S", Dir [("a", Dir [("x.mp3", File stamp "first")]);
                  ("b", Dir [("x.mp3", File stamp "second")])])].

(** A folder called [x.mp3] stands where the song is to go. *)
Definition song_and_folder : node :=
  Dir [("S", Dir [("x.mp3", File stamp "song")]);
       ("D", Dir [("Audio", Dir [("x.mp3", Dir [])])])].

(** A file without extension that is called as a category is, next to a
    file of that category, in a folder that is organized into itself. *)
Definition notes_and_song : node :=
  Dir [("S", Dir [("Audio", File stamp "notes"); ("x.mp3", File stamp "song")])].

(** A song in the source tree, and an older one of the same name that
    is already in place. *)
Definition song_and_older_song : node :=
  Dir [("S", Dir [("a", Dir [("x.mp3", File stamp "new")])]);
       ("D", Dir [("Audio", Dir [("x.mp3", File stamp "old")])])].

Definition fresh (d : node) : state := mkState d 0 0 [].

(** The disk after a pass over [/S] into [/D] followed by the undo of the
    log of that pass, with the outcomes of the pass and of the undo. *)
Definition pass_then_undo_into (destination_folder policy : string) (d : node)
  : option (list (bool * string) * node * result undo_return) :=
  match organize_folder (env_with policy) default_rules 1 (fresh d)
                        "/S" destination_folder false with
  | Some (st, FolderDone results) =>
      let back := undo_organization (env_with policy) (fs st)
                    (Ok (JArr (undo_log st))) in
      Some (results, fst back, snd back)
  | _ => None
  end.

Definition pass_then_undo (policy : string) (d : node)
  : option (list (bool * string) * node * result undo_return) :=
  pass_then_undo_into "/D" policy d.

End Scenario.

(* ===================================================================== *)
(** ** The standalone undo tool, [undo_organizer.py] *)
(* ===================================================================== *)

(** [s.endswith(p)] *)
Fixpoint endswith (p s : string) : bool :=
  String.eqb p s
  || match s with
     | EmptyString => false
     | String _ r => endswith p r
     end.

(** [sorted(l, reverse=True)] on strings, which Python compares code
    point by code point; equal strings are indistinguishable, so the
    stability of the sort does not show. *)
Fixpoint insert_desc (x : string) (l : list string) : list string :=
  match l with
  | [] => [x]
  | y :: r => if String.leb y x then x :: l else y :: insert_desc x r
  end.

Definition sorted_reverse (l : list string) : list string :=
  fold_right insert_desc [] l.

(** Where the kernel arrives for the names [rest], starting from [seen]:
    [..] is the parent of the directory reached so far (the root is its
    own parent), and asking it of anything but a directory fails. *)
Fixpoint realpath (d : node) (seen rest : FS.loc) : option FS.loc :=
  match rest with
  | [] => Some seen
  | c :: r =>
      if String.eqb c ".." then
        if FS.is_dir seen d then realpath d (removelast seen) r else None
      else realpath d (seen ++ [c])%list r
  end.

(** No directory strictly below [n] is empty. *)
Fixpoint no_empty_dir (n : node) : bool :=
  match n with
  | File _ _ => true
  | Dir es =>
      (fix go (es : list (string * node)) : bool :=
         match es with
         | [] => true
         | (_, ch) :: r =>
             match ch with
             | Dir [] => false
             | _ => no_empty_dir ch
             end && go r
         end) es
  end.

(** The results that count towards [stats['errors']]. *)
Definition is_error (r : bool * string) : bool :=
  negb (fst r) && Str.startswith "Error moving " (snd r).

(** The entries of the [RULES] section that give the rule called [name]. *)
Definition names_rule (name : string) (e : string * string) : bool :=
  Spec.looks_like_json (snd e) && String.eqb name (Str.capitalize (fst e)).

(** The undo tool goes ahead: [--yes] was given, or the answer to its
    question is [y] or [yes] once stripped and lower-cased. *)
Definition confirmed (auto_confirm : bool) (answer : string) : bool :=
  auto_confirm
  || String.eqb (Str.lower (Str.strip answer)) "y"
  || String.eqb (Str.lower (Str.strip answer)) "yes".

Module UndoTool.

(** What [undo_organization] returns: [False], or [True] after the loop,
    with the two counters that the summary lines print. *)
Inductive outcome : Type :=
| Refused
| Completed (successful failed : nat).

Definition returned (o : outcome) : bool :=
  match o with
  | Refused => false
  | Completed _ _ => true
  end.

(** [len(v)] *)
Definition len (v : json) : result nat :=
  match v with
  | JStr s => Ok (String.length s)
  | JArr l => Ok (List.length l)
  | JObj d => Ok (List.length d)
  | _ => Raise (TypeError "object has no len()")
  end.

Section UndoTool.

Variable E : env.

(** [Path.home()] *)
Variable home : path.

Definition is_undo_log (file : string) : bool :=
  Str.startswith "undo_log_" file && endswith ".json" file.

(** [find_undo_logs]: the names come from [os.listdir('.')]. *)
Definition find_undo_logs (d : node) : result (list string) :=
  match FS.lookup (cwd E) d with
  | Some (Dir es) => Ok (sorted_reverse (filter is_undo_log (map fst es)))
  | Some (File _ _) => Raise (NotADirectoryError ".")
  | None => Raise (FileNotFoundError ".")
  end.

(** The [try] body of one iteration of the loop: the disk afterwards,
    and whether the entry counts as restored or the exception that
    reaches the handler. *)
Definition undo_attempt (d : node) (operation : json) : node * result bool :=
  match (sv <- Py.getitem operation "source" ;;
         s <- Py.as_str sv ;;
         dv <- Py.getitem operation "destination" ;;
         t <- Py.as_str dv ;;
         Ok (Path.of_string s, Path.of_string t)) with
  | Raise e => (d, Raise e)
  | Ok (source, destination) =>
      if negb (path_exists E d destination) then (d, Ok false)
      else
        match FS.mkdir_p (resolve E (Path.parent source)) d with
        | Raise e => (d, Raise e)
        | Ok d1 =>
            match FS.move (resolve E destination) (resolve E source) d1 with
            | Raise e => (d1, Raise e)
            | Ok d2 => (d2, Ok true)
            end
        end
  end.

(** One iteration with its handler, which formats the entry only for the
    first ten operations; [Raise] is an exception that leaves the handler. *)
Definition undo_step (i : nat) (d : node) (operation : json)
  : node * result bool :=
  match undo_attempt d operation with
  | (d', Ok restored) => (d', Ok restored)
  | (d', Raise e) =>
      (d', if (i <? 10)%nat
           then shown <- Py.get operation "destination" (JStr "unknown") ;; Ok false
           else Ok false)
  end.

(** The [for i, operation in enumerate(operations)] loop. *)
Fixpoint undo_each (i : nat) (d : node) (successful failed : nat)
    (ops : list json) : node * result (nat * nat) :=
  match ops with
  | [] => (d, Ok (successful, failed))
  | operation :: rest =>
      match undo_step i d operation with
      | (d', Ok true) => undo_each (S i) d' (S successful) failed rest
      | (d', Ok false) => undo_each (S i) d' successful (S failed) rest
      | (d', Raise e) => (d', Raise e)
      end
  end.

(** Where a path of the tool points, its [..] components resolved. *)
Definition locate (d : node) (p : path) : option FS.loc :=
  realpath d [] (resolve E p).

Definition located (d : node) (p : path) : bool :=
  match locate d p with
  | Some l => FS.exists_ l d
  | None => false
  end.

(** [cleanup_dir_tree]: the loop of [cleanup_tree] from [base_dir] down. *)
Definition cleanup_dir_tree (base_dir : path) (d : node) : node :=
  match locate d base_dir with
  | Some l => FS.alter (cleanup_tree E l) l d
  | None => d
  end.

Definition possible_dirs : list path :=
  [Path.join home "Organized Files";
   Path.of_string "Organized Files";
   Path.of_string "../Organized Files"].

(** [cleanup_empty_dirs]: the first candidate that exists is cleaned. *)
Definition cleanup_empty_dirs (d : node) : node :=
  match find (located d) possible_dirs with
  | Some base_dir => cleanup_dir_tree base_dir d
  | None => d
  end.

(** [undo_organization(undo_log_file, auto_confirm)]; [loaded] is what
    [open] and [json.load] gave for the log file, [answer] what the user
    types when asked to confirm. *)
Definition undo_organization (auto_confirm : bool) (answer : string)
    (d : node) (loaded : result json) : node * result outcome :=
  match loaded with
  | Raise _ => (d, Ok Refused)
  | Ok operations =>
      if negb (Py.truthy operations) then (d, Ok Refused)
      else
        match len operations with
        | Raise e => (d, Raise e)
        | Ok _ =>
            let confirm := Str.lower (Str.strip answer) in
            if negb auto_confirm
               && negb (String.eqb confirm "y" || String.eqb confirm "yes")
            then (d, Ok Refused)
            else
              match operations with
              | JArr ops =>
                  match undo_each 0 d 0 0 (rev ops) with
                  | (d', Raise e) => (d', Raise e)
                  | (d', Ok (successful, failed)) =>
                      (cleanup_empty_dirs d', Ok (Completed successful failed))
                  end
              | _ => (d, Raise (AttributeError "object has no attribute 'reverse'"))
              end
        end
  end.

End UndoTool.
End UndoTool.

(* ===================================================================== *)
(** ** Saving the undo log *)
(* ===================================================================== *)

(** The name [save_undo_log] gives its file:
    [f"undo_log_{datetime.now().strftime('%Y%m%d_%H%M%S')}.json"]. *)
Definition undo_log_name (t : datetime) : string :=
  "undo_log_" ++ strftime t "%Y%m%d_%H%M%S" ++ ".json".

(** [a < b] on two [datetime]s. *)
Fixpoint lex_lt (a b : list nat) : bool :=
  match a, b with
  | x :: a', y :: b' => (x <? y)%nat || ((x =? y)%nat && lex_lt a' b')
  | _, _ => false
  end.

Definition fields_of (t : datetime) : list nat :=
  [year t; month t; day t; hour t; minute t; second t].

Definition earlier (a b : datetime) : bool := lex_lt (fields_of a) (fields_of b).

(** A [datetime] whose year is written with four digits, as [%Y] writes
    every year from 1000 on, and whose other fields fit the two digits of
    their directives. *)
Definition four_digit_year (t : datetime) : bool :=
  (1000 <=? year t)%nat && (year t <? 100 * 100)%nat
  && forallb (fun n => (n <? 100)%nat) [month t; day t; hour t; minute t; second t].

(** The text of a run of two-digit fields, and the order of two runs. *)
Definition digits2 (l : list nat) : string :=
  fold_right (fun n s => Str.of_nat2 n ++ s) EmptyString l.

Fixpoint lex_cmp (a b : list nat) : comparison :=
  match a, b with
  | x :: a', y :: b' =>
      match Nat.compare x y with
      | Eq => lex_cmp a' b'
      | c => c
      end
  | _, _ => Eq
  end.

Definition comparison_eqb (a b : comparison) : bool :=
  match a, b with
  | Eq, Eq | Lt, Lt | Gt, Gt => true
  | _, _ => false
  end.

(** [json.dumps(v, indent=2)], which is the text [json.dump] writes:
    every item on a line of its own, indented by two more spaces per
    level, a comma after each item but the last, a colon and a space
    after a key.  [None] stands for what this model of values
    does not cover: numbers, which are kept as the lexemes they were
    read from, and the characters Python writes as [\uXXXX] escapes. *)
Module Dump.

Definition newline : ascii := ascii_of_nat 10.

(** One character of a string literal under [ensure_ascii]. *)
Definition escape (c : ascii) : option string :=
  let n := nat_of_ascii c in
  if Ascii.eqb c Json.dquote then Some (String "\" (String Json.dquote EmptyString))
  else if Ascii.eqb c "\" then Some "\\"
  else if (n =? 10)%nat then Some "\n"
  else if (n =? 13)%nat then Some "\r"
  else if (n =? 9)%nat then Some "\t"
  else if (n =? 8)%nat then Some "\b"
  else if (n =? 12)%nat then Some "\f"
  else if ((32 <=? n) && (n <=? 126))%nat then Some (String c EmptyString)
  else None.

Fixpoint body (s : string) : option string :=
  match s with
  | EmptyString => Some EmptyString
  | String c r =>
      match escape c, body r with
      | Some e, Some b => Some (e ++ b)
      | _, _ => None
      end
  end.

Definition quote (s : string) : option string :=
  match body s with
  | Some b => Some (String Json.dquote (b ++ String Json.dquote EmptyString))
  | None => None
  end.

Fixpoint spaces (n : nat) : string :=
  match n with
  | 0 => EmptyString
  | S k => String " " (spaces k)
  end.

Definition newline_indent (level : nat) : string :=
  String newline (spaces (2 * level)).

(** The items after the first: each follows a separator. *)
Fixpoint more {A : Type} (one : A -> option string) (sep : string) (l : list A)
  : option string :=
  match l with
  | [] => Some EmptyString
  | y :: r =>
      match one y, more one sep r with
      | Some a, Some b => Some (sep ++ a ++ b)
      | _, _ => None
      end
  end.

Definition member (key value : option string) : option string :=
  match key, value with
  | Some q, Some a => Some (q ++ ": " ++ a)
  | _, _ => None
  end.

Definition enclose (opening : string) (level : nat) (first rest : option string)
    (closing : string) : option string :=
  match first, rest with
  | Some a, Some b =>
      Some (opening ++ newline_indent (S level) ++ a ++ b
            ++ newline_indent level ++ closing)
  | _, _ => None
  end.

Fixpoint dumps (level : nat) (v : json) {struct v} : option string :=
  match v with
  | JNull => Some "null"
  | JBool true => Some "true"
  | JBool false => Some "false"
  | JNum _ => None
  | JStr s => quote s
  | JArr [] => Some "[]"
  | JArr (x :: r) =>
      enclose "[" level
        (dumps (S level) x)
        (more (dumps (S level)) ("," ++ newline_indent (S level)) r)
        "]"
  | JObj [] => Some "{}"
  | JObj ((k, x) :: r) =>
      enclose "{" level
        (member (quote k) (dumps (S level) x))
        (more (fun kv : string * json =>
                 let (k', y) := kv in member (quote k') (dumps (S level) y))
              ("," ++ newline_indent (S level)) r)
        "}"
  end.

End Dump.

(** What [save_undo_log] does: nothing, when the log is empty; else it
    opens the file in the working directory, which fails when that is no
    directory or the name is taken by one, and writes the log. *)
Inductive saved : Type :=
| NothingToSave
| OpenFailed
| Saved (log_file : string).

(** [save_undo_log]; [None] when the log holds a value that [Dump.dumps]
    does not cover.  The file carries the time of the clock. *)
Definition save_undo_log (E : env) (st : state) : option (state * saved) :=
  match undo_log st with
  | [] => Some (st, NothingToSave)
  | _ :: _ =>
      let log_file := undo_log_name (clock E) in
      let target := (cwd E ++ [log_file])%list in
      if FS.is_dir (cwd E) (fs st) && negb (FS.is_dir target (fs st)) then
        match Dump.dumps 0 (JArr (undo_log st)) with
        | Some text =>
            Some (with_fs st (FS.put target (File (clock E) text) (fs st)),
                  Saved log_file)
        | None => None
        end
      else Some (st, OpenFailed)
  end.

(** A string that [json.dump] writes without a [\uXXXX] escape. *)
Fixpoint plain (s : string) : bool :=
  match s with
  | EmptyString => true
  | String c r =>
      match Dump.escape c with Some _ => true | None => false end && plain r
  end.

(** A record whose values are such strings, under such keys, no key twice. *)
Fixpoint distinct (l : list string) : bool :=
  match l with
  | [] => true
  | k :: r => negb (existsb (String.eqb k) r) && distinct r
  end.

Definition plain_field (kv : string * json) : bool :=
  plain (fst kv) && match snd kv with JStr s => plain s | _ => false end.

Definition plain_record (v : json) : bool :=
  match v with
  | JObj fields => forallb plain_field fields && distinct (map fst fields)
  | _ => false
  end.

(** The tokens of a record and of a list of records. *)
Definition value_token (v : json) : Json.token :=
  match v with
  | JStr s => Json.TString s
  | _ => Json.TNull
  end.

Definition more_member_tokens (fields : list (string * json)) : list Json.token :=
  flat_map (fun kv : string * json =>
              [Json.TComma; Json.TString (fst kv); Json.TColon; value_token (snd kv)])
           fields.

Definition record_tokens (v : json) : list Json.token :=
  match v with
  | JObj ((k, x) :: r) =>
      Json.TLBrace :: Json.TString k :: Json.TColon :: value_token x
      :: (more_member_tokens r ++ [Json.TRBrace])%list
  | _ => [Json.TLBrace; Json.TRBrace]
  end.

Definition more_item_tokens (items : list json) : list Json.token :=
  flat_map (fun x => Json.TComma :: record_tokens x) items.

Definition log_tokens (log : list json) : list Json.token :=
  match log with
  | [] => [Json.TLBracket; Json.TRBracket]
  | x :: r =>
      Json.TLBracket
      :: (record_tokens x ++ more_item_tokens r ++ [Json.TRBracket])%list
  end.

(** [lex] gives [ts] for [text], with any fuel from the length of the text on. *)
Definition lexes (text : string) (ts : list Json.token) : Prop :=
  forall fuel, String.length text <= fuel -> Json.lex fuel text = Some ts.

(* ===================================================================== *)
(** * Properties *)
(* ===================================================================== *)

Unset Implicit Arguments.

(** ** Classification *)






(** ** Destination resolution *)

Lemma dict_mem_get {V} (k : string) (d : list (string * V)) :
  Dict.mem k d = match Dict.get k d with Some _ => true | None => false end.
Proof.
  induction d as [|[k' v] d IH]; simpl; [reflexivity|].
  destruct (String.eqb k k'); simpl; [reflexivity|exact IH].
Qed.

Lemma first_listing_find (extension : string) (table : list (string * json)) :
  forallb (fun e => Spec.is_array (snd e)) table = true ->
  first_listing extension table =
  Ok (option_map fst (find (fun e => Spec.extension_in extension (snd e)) table)).
Proof.
  induction table as [|[name set] rest IH]; intros Hty; [reflexivity|].
  simpl in Hty. apply andb_prop in Hty as [Hset Hrest].
  destruct set; try discriminate. simpl.
  destruct (existsb (Py.is_str extension) items); [reflexivity|].
  now apply IH.
Qed.

Lemma first_catch_all_find (table : list (string * json)) :
  forallb (fun e => Spec.is_array (snd e)) table = true ->
  first_catch_all table =
  option_map fst
    (find (fun e => match snd e with JArr [] => true | _ => false end) table).
Proof.
  induction table as [|[name set] rest IH]; intros Hty; [reflexivity|].
  simpl in Hty. apply andb_prop in Hty as [Hset Hrest].
  destruct set as [| | | |items|]; try discriminate. simpl.
  destruct items; [reflexivity|]. now apply IH.
Qed.

Lemma get_subfolder_sub_bucket (file_path : path) (fields table : list (string * json)) :
  Dict.get "subfolders" fields = Some (JObj table) ->
  forallb (fun e => Spec.is_array (snd e)) table = true ->
  get_subfolder file_path (JObj table) =
  Ok (Spec.sub_bucket (JObj fields) (Str.lower (Path.suffix file_path))).
Proof.
  intros Hget Hty. unfold get_subfolder, Spec.sub_bucket, Spec.field.
  rewrite Hget. simpl.
  rewrite (first_listing_find _ _ Hty). simpl.
  destruct (find _ table) as [e|]; [reflexivity|].
  simpl. rewrite (first_catch_all_find _ Hty).
  now destruct (find _ table).
Qed.

Lemma path_join_empty (p : path) : Path.join p EmptyString = p.
Proof. unfold Path.join. simpl. apply app_nil_r. Qed.

Lemma generate_destination_path_dated (E : env) (rules : list (string * json))
    (d : node) (file_path : path) (destination_base category : string) :
  get_file_category rules file_path = Ok category ->
  let rule := match Dict.get category rules with Some r => r | None => JObj [] end in
  Spec.placement_typed rule = true ->
  generate_destination_path E rules d file_path destination_base =
    Ok (Spec.join_opt
          (Spec.join_opt
             (Path.join (Path.of_string destination_base) category)
             (Spec.sub_bucket rule (Str.lower (Path.suffix file_path))))
          (Spec.date_segment rule (get_file_date E d file_path))).
Proof.
  intros Hcat rule Hty.
  unfold generate_destination_path. rewrite Hcat. simpl. fold rule.
  unfold Spec.placement_typed in Hty.
  apply andb_prop in Hty as [Hty Hfmt]. apply andb_prop in Hty as [Hobj Htab].
  destruct rule as [| | | | |fields] eqn:Hrule; try discriminate.
  unfold Spec.field in Htab, Hfmt. simpl.
  rewrite dict_mem_get.
  assert (Hsub :
    forall p,
      (if match Dict.get "subfolders" fields with Some _ => true | None => false end
       then table <- Py.getitem (JObj fields) "subfolders" ;;
            subfolder <- get_subfolder file_path table ;;
            match subfolder with
            | Some s => if String.eqb s EmptyString then Ok p else Ok (Path.join p s)
            | None => Ok p
            end
       else Ok p)
      = Ok (Spec.join_opt p (Spec.sub_bucket (JObj fields)
                               (Str.lower (Path.suffix file_path))))).
  { intros p. destruct (Dict.get "subfolders" fields) as [v|] eqn:Hget.
    - destruct v as [| | | | |table]; try discriminate.
      simpl. rewrite Hget. simpl.
      rewrite (get_subfolder_sub_bucket file_path fields table Hget Htab). simpl.
      destruct (Spec.sub_bucket _ _) as [s|]; [|reflexivity].
      simpl. destruct (String.eqb_spec s EmptyString) as [->|_]; [|reflexivity].
      now rewrite path_join_empty.
    - unfold Spec.sub_bucket, Spec.field. now rewrite Hget. }
  rewrite Hsub. simpl.
  unfold Spec.date_segment, Spec.field.
  destruct (Dict.get "subfolder_by_date" fields) as [flag|]; simpl; [|reflexivity].
  destruct (Py.truthy flag); [|reflexivity].
  destruct (Dict.get "date_format" fields) as [[| | |s| |]|]; try discriminate;
    reflexivity.
Qed.

(** C3.  For a file stamped [t] that classifies as [category], whose
    rule ([rules.get(category, {})]) is typed as the data model says,
    the destination directory is [Path(destination_base) / category],
    then the sub-bucket when the rule resolves one, then the date
    segment when the rule's flag is set, in that order; the date segment
    is the stamp [t] of that very file formatted with the rule's
    pattern.  (For a path at which [os.stat] finds nothing, the clock
    takes the place of the stamp.)  Under the built-in rules a [.jpg]
    dated 2023-05-10 goes to [D/Images/2023/05] and a [.pdf] to
    [D/Documents/PDFs]. *)
Theorem generate_destination_path_layout
    (E : env) (rules : list (string * json)) (d : node)
    (file_path : path) (destination_base category : string)
    (t : datetime) (data : string) :
  FS.lookup (resolve E file_path) d = Some (File t data) ->
  get_file_category rules file_path = Ok category ->
  let rule := match Dict.get category rules with Some r => r | None => JObj [] end in
  let layout (stamp : datetime) :=
    Spec.join_opt
      (Spec.join_opt
         (Path.join (Path.of_string destination_base) category)
         (Spec.sub_bucket rule (Str.lower (Path.suffix file_path))))
      (Spec.date_segment rule stamp) in
  Spec.placement_typed rule = true ->
  generate_destination_path E rules d file_path destination_base = Ok (layout t)
  /\ (forall d',
        FS.lookup (resolve E file_path) d' = None ->
        generate_destination_path E rules d' file_path destination_base
        = Ok (layout (clock E)))
  /\ (forall D jpg pdf t' data',
        FS.lookup (resolve E jpg) D = Some (File t' data') ->
        Path.suffix jpg = ".jpg" -> Path.suffix pdf = ".pdf" ->
        year t' = 2023 -> month t' = 5 ->
        generate_destination_path E default_rules D jpg "D"
          = Ok ["D"; "Images"; "2023"; "05"]
        /\ generate_destination_path E default_rules D pdf "D"
          = Ok ["D"; "Documents"; "PDFs"]).
Proof.
  intros Hfile Hcat rule layout Hty. split; [|split].
  - rewrite (generate_destination_path_dated E rules d file_path destination_base
               category Hcat Hty).
    unfold get_file_date. now rewrite Hfile.
  - intros d' Hnone.
    rewrite (generate_destination_path_dated E rules d' file_path destination_base
               category Hcat Hty).
    unfold get_file_date. now rewrite Hnone.
  - intros D jpg pdf t' data' Hjpgfile Hjpg Hpdf Hy Hm.
    unfold generate_destination_path, get_file_category, get_file_date.
    rewrite Hjpg, Hpdf, Hjpgfile. simpl.
    unfold get_subfolder. rewrite Hpdf. simpl.
    rewrite Hy, Hm. split; reflexivity.
Qed.

Lemma generate_destination_path_layout_witness :
  let E := mkEnv [] [] (mkDate 2024 1 1 0 0 0) (fun _ => true) (fun _ => true) in
  let D := Dir [("a.jpg", File (mkDate 2023 5 10 9 30 0) "")] in
  FS.lookup (resolve E ["a.jpg"]) D = Some (File (mkDate 2023 5 10 9 30 0) "")
  /\ get_file_category default_rules ["a.jpg"] = Ok "Images"
  /\ generate_destination_path E default_rules D ["a.jpg"] "D"
     = Ok ["D"; "Images"; "2023"; "05"].
Proof.
  intros E D. split; [reflexivity|]. split; [reflexivity|].
  destruct (generate_destination_path_layout E default_rules D ["a.jpg"] "D"
              "Images" (mkDate 2023 5 10 9 30 0) "" eq_refl eq_refl eq_refl)
    as [H _].
  exact H.
Defined.

(** ** Loading the rules *)

Lemma rules_of_entries_skip (before after : list (string * string))
    (k s : string) (acc : list (string * json)) :
  Spec.looks_like_json s = false ->
  rules_of_entries (before ++ (k, s) :: after) acc = rules_of_entries (before ++ after) acc.
Proof.
  intros Hs. revert acc.
  induction before as [|[k' s'] before IH]; intros acc; simpl.
  - now rewrite Hs.
  - destruct (negb (Spec.looks_like_json s')); [apply IH|].
    destruct (Json.loads (Str.unescape_percent s')); simpl; [apply IH|reflexivity].
Qed.

(** Reading the values one by one, as the loop does, gives what the loop
    body makes of the entries, as long as every value can be read. *)
Lemma get_rules_from_read (cfg : config) (keys : list string)
    (entries : list (string * string)) :
  read_as cfg keys entries ->
  forall acc,
    get_rules_from cfg keys acc
    = match rules_of_entries entries acc with
      | Ok rules => Loaded rules
      | Raise e => LoadRaise (LoadsError e)
      end.
Proof.
  induction 1 as [|k [k' v] keys entries [Hk Hv] _ IH]; intros acc; [reflexivity|].
  simpl in Hk, Hv. subst k'. simpl. rewrite Hv. unfold Spec.looks_like_json.
  destruct (negb (Str.startswith "{" (Str.strip v))); [apply IH|].
  destruct (Json.loads (Str.unescape_percent v)); simpl; [apply IH|reflexivity].
Qed.

Lemma get_rules_from_app (cfg : config) (before rest : list string) :
  forall acc,
    get_rules_from cfg (before ++ rest) acc
    = match get_rules_from cfg before acc with
      | Loaded rules => get_rules_from cfg rest rules
      | LoadRaise e => LoadRaise e
      end.
Proof.
  induction before as [|k before IH]; intros acc; [reflexivity|].
  simpl. destruct (Config.getitem cfg "RULES" k) as [v|e]; [|reflexivity].
  destruct (negb (Str.startswith "{" (Str.strip v))); [apply IH|].
  destruct (Json.loads (Str.unescape_percent v)); [apply IH|reflexivity].
Qed.

(** The entries that the loop gets past: the value can be read, and it
    either does not look like JSON or parses. *)
Lemma get_rules_from_total (cfg : config) (keys : list string) :
  Forall (fun k => exists v,
            Config.getitem cfg "RULES" k = Loaded v
            /\ (Spec.looks_like_json v = false
                \/ is_ok (Json.loads (Str.unescape_percent v)) = true)) keys ->
  forall acc, exists rules, get_rules_from cfg keys acc = Loaded rules.
Proof.
  induction 1 as [|k keys (v & Hv & Hok) _ IH]; intros acc; simpl; [eauto|].
  rewrite Hv. unfold Spec.looks_like_json in Hok.
  destruct (Str.startswith "{" (Str.strip v)); simpl; [|apply IH].
  destruct Hok as [Hok|Hok]; [discriminate|].
  destruct (Json.loads (Str.unescape_percent v)); [apply IH|discriminate].
Qed.

(** C7, as the claim states it, fails.  An entry that starts with a
    brace but is not JSON is not skipped: with a sound [documents] entry
    next to it the whole load raises the parser's error.  Nor is an entry
    skipped that is no rule at all but cannot be read: every value goes
    through the interpolation of [configparser] before [get_rules] looks
    at it, and a lone [%] or a reference to an option that does not
    exist raises there, also when the entry is inherited from
    [DEFAULT]. *)
Lemma get_rules_unparsable_entry_is_fatal :
  Json.loads "{}" = Ok (JObj [])
  /\ Json.loads "{bad" = Raise JSONDecodeError
  /\ get_rules (mkConfig [] [("RULES", [("documents", "{}"); ("images", "{bad")])])
     = LoadRaise (LoadsError JSONDecodeError)
  /\ get_rules (mkConfig [("note", "100%")] [("RULES", [("documents", "{}")])])
     = LoadRaise (InterpolationSyntaxError "note" "RULES" NotFollowed "%")
  /\ get_rules (mkConfig [] [("RULES", [("documents", "{}");
                                        ("note", "see %(other)s")])])
     = LoadRaise (InterpolationMissingOptionError "note" "RULES"
                    "see %(other)s" "other").
Proof. repeat split. Qed.

(** C7, amended.  [get_rules] reads the options of the [RULES] section,
    those inherited from [DEFAULT] included, one after the other.  An
    entry whose value can be read and does not start with a brace once
    stripped is skipped: the loop does the same with and without it.
    The load returns a rule set whenever every entry can be read and
    every entry that starts with a brace parses; it raises at the first
    entry that cannot be read, and raises the parser's error at the
    first entry that starts with a brace and does not parse.  A section
    without entries gives the empty rule set, under which every file is
    ["Other"]. *)
Theorem get_rules_skips_non_json_entries
    (cfg : config) (section : list (string * string)) :
  Dict.get "RULES" (sections cfg) = Some section ->
  let keys := Config.options (defaults cfg) section in
  let acceptable (k : string) :=
    exists v,
      Config.getitem cfg "RULES" k = Loaded v
      /\ (Spec.looks_like_json v = false
          \/ is_ok (Json.loads (Str.unescape_percent v)) = true) in
  (Forall acceptable keys -> exists rules, get_rules cfg = Loaded rules)
  /\ (forall before k v after acc,
        Config.getitem cfg "RULES" k = Loaded v ->
        Spec.looks_like_json v = false ->
        get_rules_from cfg (before ++ k :: after) acc
        = get_rules_from cfg (before ++ after) acc)
  /\ (forall before k after e,
        keys = (before ++ k :: after)%list ->
        Forall acceptable before ->
        Config.getitem cfg "RULES" k = LoadRaise e ->
        get_rules cfg = LoadRaise e)
  /\ (forall before k v after e,
        keys = (before ++ k :: after)%list ->
        Forall acceptable before ->
        Config.getitem cfg "RULES" k = Loaded v ->
        Spec.looks_like_json v = true ->
        Json.loads (Str.unescape_percent v) = Raise e ->
        get_rules cfg = LoadRaise (LoadsError e))
  /\ get_rules (mkConfig [("watch_interval", "30")] [("RULES", [("images", "{}")])])
     = Loaded [("Images", JObj [])]
  /\ get_rules (mkConfig [("pattern", "%%Y/%%m")]
                         [("RULES", [("images", "{}"); ("video", "%(pattern)s")])])
     = Loaded [("Images", JObj [])]
  /\ get_rules (mkConfig [] [("RULES", [])]) = Loaded []
  /\ (forall file_path, get_file_category [] file_path = Ok "Other").
Proof.
  intros Hsec keys acceptable. unfold get_rules. rewrite Hsec. fold keys.
  repeat split.
  - intros H. now apply get_rules_from_total.
  - intros before k v after acc Hv Hs. rewrite !get_rules_from_app.
    destruct (get_rules_from cfg before acc) as [rules|e]; [|reflexivity].
    simpl. rewrite Hv. unfold Spec.looks_like_json in Hs. now rewrite Hs.
  - intros before k after e -> Hb He. rewrite get_rules_from_app.
    destruct (get_rules_from_total cfg before Hb []) as [rules ->].
    simpl. now rewrite He.
  - intros before k v after e -> Hb Hv Hs He. rewrite get_rules_from_app.
    destruct (get_rules_from_total cfg before Hb []) as [rules ->].
    simpl. rewrite Hv. unfold Spec.looks_like_json in Hs. rewrite Hs. simpl.
    now rewrite He.
Qed.

Lemma get_rules_skips_non_json_entries_witness :
  let cfg := mkConfig [("handle_duplicates", "rename")]
                      [("RULES", [("images", "{}"); ("broken", "{bad")])] in
  Dict.get "RULES" (sections cfg) = Some [("images", "{}"); ("broken", "{bad")]
  /\ get_rules cfg = LoadRaise (LoadsError JSONDecodeError).
Proof.
  intros cfg. split; [reflexivity|].
  destruct (get_rules_skips_non_json_entries cfg
              [("images", "{}"); ("broken", "{bad")] eq_refl)
    as (_ & _ & _ & Hfatal & _).
  apply (Hfatal ["images"] "broken" "{bad" ["handle_duplicates"] JSONDecodeError).
  - reflexivity.
  - repeat constructor. exists "{}". split; [reflexivity|]. right. reflexivity.
  - reflexivity.
  - reflexivity.
  - reflexivity.
Defined.

(** ** Strings and paths *)

Lemma has_char_app (c : ascii) (a b : string) :
  Str.has_char c (a ++ b) = Str.has_char c a || Str.has_char c b.
Proof.
  induction a as [|x a IH]; simpl; [reflexivity|].
  now rewrite IH, orb_assoc.
Qed.

Lemma has_char_take (c : ascii) (i : nat) (s : string) :
  Str.has_char c s = false -> Str.has_char c (Str.take i s) = false.
Proof.
  revert s. induction i as [|i IH]; intros [|x s]; simpl; try reflexivity.
  intros H. apply orb_false_iff in H as [Hx Hs]. rewrite Hx. now apply IH.
Qed.

Lemma has_char_drop (c : ascii) (i : nat) (s : string) :
  Str.has_char c s = false -> Str.has_char c (Str.drop i s) = false.
Proof.
  revert s. induction i as [|i IH]; intros [|x s]; simpl; try easy.
  intros H. apply orb_false_iff in H as [_ Hs]. now apply IH.
Qed.

Lemma list_ascii_of_string_app (a b : string) :
  list_ascii_of_string (a ++ b) = (list_ascii_of_string a ++ list_ascii_of_string b)%list.
Proof. induction a as [|x a IH]; simpl; [reflexivity|now rewrite IH]. Qed.

Lemma list_ascii_of_string_inj (a b : string) :
  list_ascii_of_string a = list_ascii_of_string b -> a = b.
Proof.
  intros H. rewrite <- (string_of_list_ascii_of_string a),
    <- (string_of_list_ascii_of_string b). now rewrite H.
Qed.

Lemma append_inv_head (a x y : string) : a ++ x = a ++ y -> x = y.
Proof. induction a as [|c a IH]; simpl; [easy|]. intros H. injection H. exact IH. Qed.

Lemma append_inv_tail (e x y : string) : x ++ e = y ++ e -> x = y.
Proof.
  intros H. apply list_ascii_of_string_inj.
  apply (f_equal list_ascii_of_string) in H.
  rewrite !list_ascii_of_string_app in H. now apply app_inv_tail in H.
Qed.

Lemma of_nat_inj (n m : nat) : Str.of_nat n = Str.of_nat m -> n = m.
Proof.
  unfold Str.of_nat. intros H.
  apply DecimalNat.Unsigned.to_uint_inj.
  apply (f_equal NilEmpty.uint_of_string) in H.
  rewrite !NilEmpty.usu in H. now injection H.
Qed.

Lemma has_char_cons (c d : ascii) (r : string) :
  Str.has_char c (String d r) = Ascii.eqb c d || Str.has_char c r.
Proof. reflexivity. Qed.

Lemma string_of_uint_digits (d : Decimal.uint) :
  Spec.all_digits (NilEmpty.string_of_uint d) = true.
Proof. induction d; simpl; auto. Qed.

Lemma digits_no_char (c : ascii) (s : string) :
  Json.is_digit c = false -> Spec.all_digits s = true -> Str.has_char c s = false.
Proof.
  intros Hc. induction s as [|x s IH]; [reflexivity|].
  cbn [Spec.all_digits]. intros H. apply andb_prop in H as [Hx Hs].
  rewrite has_char_cons, (IH Hs), orb_false_r.
  destruct (Ascii.eqb_spec c x) as [->|_]; [congruence|reflexivity].
Qed.

Lemma of_nat_no_slash (n : nat) : Str.has_char "/" (Str.of_nat n) = false.
Proof.
  apply digits_no_char; [reflexivity|apply string_of_uint_digits].
Qed.

Lemma split_no_slash (s : string) :
  Str.has_char "/" s = false -> Path.split s = [s].
Proof.
  induction s as [|c s IH]; [reflexivity|].
  rewrite has_char_cons. intros H. apply orb_false_iff in H as [Hc Hs].
  rewrite Ascii.eqb_sym in Hc. simpl. rewrite Hc, (IH Hs). reflexivity.
Qed.

Lemma of_string_single (s : string) :
  Path.valid_name s = true -> Path.of_string s = [s].
Proof.
  unfold Path.valid_name, Path.of_string. intros H.
  apply andb_prop in H as [Hcomp Hslash]. apply negb_true_iff in Hslash.
  rewrite (split_no_slash _ Hslash). simpl. rewrite Hcomp.
  destruct s as [|c s]; [reflexivity|].
  rewrite has_char_cons in Hslash. apply orb_false_iff in Hslash as [Hc _].
  unfold Str.startswith. cbn [String.prefix].
  destruct (ascii_dec "/" c) as [<-|_]; [|reflexivity].
  now rewrite Ascii.eqb_refl in Hc.
Qed.

Lemma join_single (p : path) (s : string) :
  Path.valid_name s = true -> Path.join p s = (p ++ [s])%list.
Proof.
  intros H. unfold Path.join. rewrite (of_string_single _ H). simpl.
  destruct (String.eqb_spec s "/") as [->|_]; [discriminate|reflexivity].
Qed.

Lemma resolve_snoc (E : env) (p : path) (nm : string) :
  nm <> "/" -> resolve E (p ++ [nm])%list = (resolve E p ++ [nm])%list.
Proof.
  intros Hnm. unfold resolve. destruct p as [|c r]; simpl.
  - apply String.eqb_neq in Hnm. rewrite Hnm. now rewrite app_nil_r.
  - destruct (String.eqb c "/"); simpl; [reflexivity|].
    now rewrite <- app_assoc.
Qed.

Lemma lookup_snoc (l : FS.loc) (nm : string) (d : node) :
  FS.lookup (l ++ [nm])%list d =
  match FS.lookup l d with
  | Some (Dir es) =>
      match Dict.get nm es with Some ch => Some ch | None => None end
  | _ => None
  end.
Proof.
  revert d. induction l as [|c l IH]; intros d; simpl.
  - destruct d as [|es]; [reflexivity|]. now destruct (Dict.get nm es).
  - destruct d as [|es]; [reflexivity|].
    destruct (Dict.get c es); [apply IH|reflexivity].
Qed.

Lemma dict_get_in {V} (k : string) (v : V) (es : list (string * V)) :
  Dict.get k es = Some v -> In k (map fst es).
Proof.
  induction es as [|[k' v'] es IH]; simpl; [discriminate|].
  destruct (String.eqb_spec k k') as [->|_]; [now left|]. intros H. right. now apply IH.
Qed.

Lemma last_Forall {A} (P : A -> Prop) (l : list A) (dflt : A) :
  Forall P l -> P dflt -> P (last l dflt).
Proof.
  intros H Hd. induction H as [|x l Hx _ IH]; [exact Hd|].
  simpl. destruct l; [exact Hx|exact IH].
Qed.

Lemma name_no_slash (p : path) :
  Path.wf p -> Str.has_char "/" (Path.name p) = false.
Proof.
  intros H. unfold Path.name.
  apply (last_Forall (fun c => Str.has_char "/" c = false)); [|reflexivity].
  eapply Forall_impl; [|exact H]. intros c Hc.
  unfold Path.valid_name in Hc. apply andb_prop in Hc as [_ Hc].
  now apply negb_true_iff in Hc.
Qed.

Lemma stem_no_slash (p : path) :
  Path.wf p -> Str.has_char "/" (Path.stem p) = false.
Proof.
  intros H. unfold Path.stem. destruct (Path.dot_index _).
  - apply has_char_take. now apply name_no_slash.
  - now apply name_no_slash.
Qed.

Lemma suffix_no_slash (p : path) :
  Path.wf p -> Str.has_char "/" (Path.suffix p) = false.
Proof.
  intros H. unfold Path.suffix. destruct (Path.dot_index _); [|reflexivity].
  apply has_char_drop. now apply name_no_slash.
Qed.

Lemma probe_name_valid (destination : path) (k : nat) :
  Path.wf destination -> Path.valid_name (Spec.probe_name destination k) = true.
Proof.
  intros H. unfold Path.valid_name, Spec.probe_name. apply andb_true_intro. split.
  - unfold Path.is_component. apply negb_true_iff, orb_false_iff.
    assert (Hu : Str.has_char "_"
                   (Path.stem destination ++ "_" ++ Str.of_nat k
                    ++ Path.suffix destination) = true).
    { rewrite has_char_app. apply orb_true_iff. right. reflexivity. }
    split; apply String.eqb_neq; intros Heq; rewrite Heq in Hu; discriminate.
  - apply negb_true_iff. rewrite !has_char_app.
    rewrite (stem_no_slash _ H), (suffix_no_slash _ H), of_nat_no_slash. reflexivity.
Qed.

Lemma probe_name_inj (destination : path) (j k : nat) :
  Spec.probe_name destination j = Spec.probe_name destination k -> j = k.
Proof.
  unfold Spec.probe_name. intros H.
  apply append_inv_head in H. apply append_inv_head in H.
  apply append_inv_tail in H. now apply of_nat_inj.
Qed.

Lemma candidate_snoc (destination : path) (k : nat) :
  Path.wf destination ->
  Spec.candidate destination k
  = (Path.parent destination ++ [Spec.probe_name destination k])%list.
Proof. intros H. apply join_single. now apply probe_name_valid. Qed.

Lemma valid_name_not_anchor (s : string) : Path.valid_name s = true -> s <> "/".
Proof. intros H ->. discriminate. Qed.

Lemma candidate_exists_in (E : env) (d : node) (destination : path) (k : nat) :
  Path.wf destination ->
  path_exists E d (Spec.candidate destination k) = true ->
  exists es,
    FS.lookup (resolve E (Path.parent destination)) d = Some (Dir es)
    /\ In (Spec.probe_name destination k) (map fst es).
Proof.
  intros Hwf. unfold path_exists, FS.exists_.
  rewrite (candidate_snoc _ k Hwf).
  rewrite resolve_snoc by (apply valid_name_not_anchor; now apply probe_name_valid).
  rewrite lookup_snoc.
  destruct (FS.lookup (resolve E (Path.parent destination)) d) as [[|es]|];
    try discriminate.
  destruct (Dict.get _ es) eqn:Hget; [|discriminate].
  intros _. exists es. split; [reflexivity|]. eapply dict_get_in; eauto.
Qed.

Lemma forallb_false_witness {A} (f : A -> bool) (l : list A) :
  forallb f l = false -> exists x, In x l /\ f x = false.
Proof.
  induction l as [|x l IH]; simpl; [discriminate|].
  destruct (f x) eqn:Hx; simpl.
  - intros H. destruct (IH H) as (y & Hy & Hfy). exists y. split; [now right|exact Hfy].
  - intros _. exists x. split; [now left|exact Hx].
Qed.

(** The probe cannot go on for ever: the directory has finitely many
    entries and the names tried are pairwise different. *)
Lemma some_candidate_missing (E : env) (d : node) (destination : path) :
  Path.wf destination ->
  exists k, 1 <= k /\ path_exists E d (Spec.candidate destination k) = false.
Proof.
  intros Hwf.
  destruct (FS.lookup (resolve E (Path.parent destination)) d) as [[t x|es]|] eqn:Hdir.
  1,3: exists 1; split; [lia|];
       destruct (path_exists E d (Spec.candidate destination 1)) eqn:Hex; [|reflexivity];
       destruct (candidate_exists_in E d _ 1 Hwf Hex) as (es & Hes & _); congruence.
  set (tries := seq 1 (S (List.length es))).
  destruct (forallb (fun k => path_exists E d (Spec.candidate destination k)) tries)
    eqn:Hall.
  - exfalso.
    assert (Hincl : incl (map (Spec.probe_name destination) tries) (map fst es)).
    { intros nm Hnm. apply in_map_iff in Hnm as (k & <- & Hk).
      rewrite forallb_forall in Hall.
      destruct (candidate_exists_in E d _ k Hwf (Hall k Hk)) as (es' & Hes' & Hin).
      congruence. }
    assert (Hnodup : NoDup (map (Spec.probe_name destination) tries)).
    { apply Injective_map_NoDup; [|apply seq_NoDup].
      intros j k. apply probe_name_inj. }
    pose proof (NoDup_incl_length Hnodup Hincl) as Hlen.
    unfold tries in Hlen. rewrite !length_map, length_seq in Hlen. lia.
  - destruct (forallb_false_witness _ _ Hall) as (k & Hk & Hmiss).
    exists k. split; [|exact Hmiss]. apply in_seq in Hk. lia.
Qed.

Lemma first_false (f : nat -> bool) (k : nat) :
  f k = false ->
  exists n, n <= k /\ f n = false /\ forall j, j < n -> f j = true.
Proof.
  revert f. induction k as [|k IH]; intros f Hk.
  - exists 0. split; [lia|]. split; [exact Hk|]. intros j Hj. lia.
  - destruct (f 0) eqn:H0.
    + destruct (IH (fun j => f (S j)) Hk) as (n & Hn & Hfn & Hlt).
      exists (S n). split; [lia|]. split; [exact Hfn|].
      intros [|j] Hj; [exact H0|]. apply Hlt. lia.
    + exists 0. split; [lia|]. split; [exact H0|]. intros j Hj. lia.
Qed.

Lemma probe_unfold (E : env) (fuel : nat) (d : node) (parent : path)
    (base_name extension : string) (destination : path) (counter : nat) :
  probe E fuel d parent base_name extension destination counter =
  if path_exists E d destination then
    match fuel with
    | 0 => None
    | S f =>
        probe E f d parent base_name extension
          (Path.join parent (base_name ++ "_" ++ Str.of_nat counter ++ extension))
          (S counter)
    end
  else Some destination.
Proof. destruct fuel; reflexivity. Qed.

Lemma probe_finds (E : env) (d : node) (destination : path) (n : nat) :
  forall fuel c current,
    (forall j, c <= j < c + n -> path_exists E d (Spec.candidate destination j) = true) ->
    path_exists E d (Spec.candidate destination (c + n)) = false ->
    path_exists E d current = true ->
    n < fuel ->
    probe E fuel d (Path.parent destination) (Path.stem destination)
          (Path.suffix destination) current c
    = Some (Spec.candidate destination (c + n)).
Proof.
  induction n as [|n IH]; intros fuel c current Hbelow Hmiss Hcur Hfuel;
    (destruct fuel as [|f]; [lia|]); rewrite probe_unfold, Hcur;
    fold (Spec.probe_name destination c); fold (Spec.candidate destination c).
  - rewrite Nat.add_0_r in *. rewrite probe_unfold. now rewrite Hmiss.
  - replace (c + S n) with (S c + n) by lia.
    apply IH.
    + intros j Hj. apply Hbelow. lia.
    + now replace (S c + n) with (c + S n) by lia.
    + apply Hbelow. lia.
    + lia.
Qed.

(** *** More fuel never changes an answer *)

Lemma probe_mono (E : env) (d : node) (parent : path) (base_name extension : string) :
  forall fuel fuel' destination counter r,
    probe E fuel d parent base_name extension destination counter = Some r ->
    fuel <= fuel' ->
    probe E fuel' d parent base_name extension destination counter = Some r.
Proof.
  induction fuel as [|f IH]; intros fuel' destination counter r H Hle;
    rewrite probe_unfold in H |- *;
    destruct (path_exists E d destination); try discriminate; try exact H.
  destruct fuel' as [|f']; [lia|]. apply IH; [exact H|lia].
Qed.

Lemma handle_duplicate_mono (E : env) (d : node) (source destination : path)
    (fuel fuel' : nat) (r : option path) :
  handle_duplicate E fuel d source destination = Some r ->
  fuel <= fuel' ->
  handle_duplicate E fuel' d source destination = Some r.
Proof.
  unfold handle_duplicate. intros H Hle.
  destruct (setting_is E "handle_duplicates" "rename" "skip"); [exact H|].
  destruct (setting_is E "handle_duplicates" "rename" "overwrite"); [exact H|].
  destruct (probe E fuel d _ _ _ destination 1) as [p|] eqn:Hp; [|discriminate].
  now rewrite (probe_mono E d _ _ _ fuel fuel' destination 1 p Hp Hle).
Qed.

Lemma organize_file_mono (E : env) (rules : list (string * json)) (st : state)
    (source_path : path) (destination_base : string) (dry_run : bool)
    (fuel fuel' : nat) (r : state * (bool * string)) :
  organize_file E rules fuel st source_path destination_base dry_run = Some r ->
  fuel <= fuel' ->
  organize_file E rules fuel' st source_path destination_base dry_run = Some r.
Proof.
  unfold organize_file. intros H Hle.
  destruct (negb (path_exists E (fs st) source_path) || path_is_dir E (fs st) source_path);
    [exact H|].
  destruct (generate_destination_path E rules (fs st) source_path destination_base)
    as [dest_dir|e]; [|exact H].
  destruct (path_exists E (fs st) (Path.join dest_dir (Path.name source_path)));
    [|exact H].
  destruct (handle_duplicate E fuel (fs st) source_path _) as [settled|] eqn:Hd;
    [|discriminate].
  now rewrite (handle_duplicate_mono E (fs st) source_path _ fuel fuel' settled Hd Hle).
Qed.

Lemma organize_each_mono (E : env) (rules : list (string * json))
    (destination_folder : string) (dry_run : bool) (fuel fuel' : nat) :
  fuel <= fuel' ->
  forall files i st r,
    organize_each E rules fuel i st files destination_folder dry_run = Some r ->
    organize_each E rules fuel' i st files destination_folder dry_run = Some r.
Proof.
  intros Hle. induction files as [|p files IH]; intros i st r H; [exact H|].
  simpl in *. destruct (negb (running E i)); [exact H|].
  destruct (organize_file E rules fuel st p destination_folder dry_run)
    as [[st1 outcome]|] eqn:Hf; [|discriminate].
  rewrite (organize_file_mono E rules st p destination_folder dry_run fuel fuel'
             (st1, outcome) Hf Hle).
  destruct (organize_each E rules fuel (S i) st1 files destination_folder dry_run)
    as [[st2 results]|] eqn:He; [|discriminate].
  now rewrite (IH (S i) st1 (st2, results) He).
Qed.

Lemma organize_folder_mono (E : env) (rules : list (string * json)) (st : state)
    (source_folder destination_folder : string) (dry_run : bool)
    (fuel fuel' : nat) (r : state * folder_return) :
  organize_folder E rules fuel st source_folder destination_folder dry_run = Some r ->
  fuel <= fuel' ->
  organize_folder E rules fuel' st source_folder destination_folder dry_run = Some r.
Proof.
  unfold organize_folder. intros H Hle.
  destruct (negb (path_exists E (fs st) (Path.of_string source_folder))); [exact H|].
  destruct (organize_each E rules fuel 0 st _ destination_folder dry_run)
    as [[st' results]|] eqn:He; [|discriminate].
  now rewrite (organize_each_mono E rules destination_folder dry_run fuel fuel' Hle
                 _ 0 st (st', results) He).
Qed.

(** ** Collisions *)

Lemma probe_first_missing (E : env) (d : node) (destination : path) :
  Path.wf destination ->
  path_exists E d destination = true ->
  exists k,
    1 <= k
    /\ (forall j, 1 <= j < k ->
          path_exists E d (Spec.candidate destination j) = true)
    /\ path_exists E d (Spec.candidate destination k) = false
    /\ forall fuel, k <= fuel ->
         probe E fuel d (Path.parent destination) (Path.stem destination)
               (Path.suffix destination) destination 1
         = Some (Spec.candidate destination k).
Proof.
  intros Hwf Hex.
  destruct (some_candidate_missing E d destination Hwf) as (k0 & Hk0 & Hmiss0).
  destruct (first_false
              (fun n => path_exists E d (Spec.candidate destination (1 + n)))
              (k0 - 1)) as (n & _ & Hmiss & Hbelow).
  { now replace (1 + (k0 - 1)) with k0 by lia. }
  assert (Hlow : forall j, 1 <= j < 1 + n ->
                   path_exists E d (Spec.candidate destination j) = true).
  { intros j Hj. replace j with (1 + (j - 1)) by lia. apply Hbelow. lia. }
  exists (1 + n). split; [lia|]. split; [exact Hlow|]. split; [exact Hmiss|].
  intros fuel Hfuel.
  apply (probe_finds E d destination n fuel 1 destination Hlow Hmiss Hex). lia.
Qed.

(** C4.  Under the rename policy, for a destination that exists,
    [handle_duplicate] returns the first of [name_1.ext], [name_2.ext],
    ... in the same directory that does not exist: every earlier one
    exists, and the loop needs no more iterations than that index.  Two
    files that both resolve to [photo.jpg] end up as [photo.jpg] and
    [photo_1.jpg], each with its own content. *)
Theorem handle_duplicate_rename_probes
    (E : env) (d : node) (source destination : path) :
  setting_is E "handle_duplicates" "rename" "skip" = false ->
  setting_is E "handle_duplicates" "rename" "overwrite" = false ->
  Path.wf destination ->
  path_exists E d destination = true ->
  (exists k,
      1 <= k
      /\ (forall j, 1 <= j < k ->
            path_exists E d (Spec.candidate destination j) = true)
      /\ path_exists E d (Spec.candidate destination k) = false
      /\ Spec.candidate destination k
         = (Path.parent destination ++ [Spec.probe_name destination k])%list
      /\ forall fuel, k <= fuel ->
           handle_duplicate E fuel d source destination
           = Some (Some (Spec.candidate destination k)))
  /\ (forall fuel, 1 <= fuel ->
        exists st results,
          organize_folder (Scenario.env_with "rename") default_rules fuel
            (Scenario.fresh Scenario.two_photos) "/S" "/D" false
          = Some (st, FolderDone results)
          /\ map fst results = [true; true]
          /\ FS.lookup ["D"; "Images"; "2023"; "05"; "photo.jpg"] (fs st)
             = Some (File Scenario.stamp "first")
          /\ FS.lookup ["D"; "Images"; "2023"; "05"; "photo_1.jpg"] (fs st)
             = Some (File Scenario.stamp "second")).
Proof.
  intros Hskip Hover Hwf Hex. split.
  - destruct (probe_first_missing E d destination Hwf Hex)
      as (k & Hk & Hbelow & Hmiss & Hprobe).
    exists k. repeat (split; [assumption|]).
    split; [apply (candidate_snoc destination k Hwf)|].
    intros fuel Hfuel. unfold handle_duplicate.
    now rewrite Hskip, Hover, (Hprobe fuel Hfuel).
  - intros fuel Hfuel. do 2 eexists.
    split; [eapply organize_folder_mono with (fuel := 1); [vm_compute; reflexivity|exact Hfuel]|].
    repeat split.
Qed.

Lemma handle_duplicate_rename_probes_witness :
  let E := Scenario.env_with "rename" in
  let d := Dir [("D", Dir [("photo.jpg", File Scenario.stamp "");
                           ("photo_1.jpg", File Scenario.stamp "")])] in
  path_exists E d ["/"; "D"; "photo.jpg"] = true
  /\ handle_duplicate E 2 d ["/"; "S"; "photo.jpg"] ["/"; "D"; "photo.jpg"]
     = Some (Some ["/"; "D"; "photo_2.jpg"]).
Proof.
  intros E d. split; [reflexivity|].
  destruct (handle_duplicate_rename_probes E d ["/"; "S"; "photo.jpg"]
              ["/"; "D"; "photo.jpg"] eq_refl eq_refl)
    as [(k & Hk & Hbelow & Hmiss & Hname & Hfuel) _].
  - repeat constructor.
  - reflexivity.
  - reflexivity.
Defined.

(** ** Well-formed paths *)

Lemma split_parts_no_slash (s : string) :
  Forall (fun c => Str.has_char "/" c = false) (Path.split s).
Proof.
  induction s as [|c s IH]; simpl; [repeat constructor|].
  destruct (Ascii.eqb_spec c "/") as [->|Hc]; [constructor; [reflexivity|exact IH]|].
  destruct (Path.split s) as [|h t]; [repeat constructor|].
  - rewrite has_char_cons. apply orb_false_iff. split; [|reflexivity].
    apply Ascii.eqb_neq. congruence.
  - inversion IH; subst. constructor; [|assumption].
    rewrite has_char_cons. apply orb_false_iff. split; [|assumption].
    apply Ascii.eqb_neq. congruence.
Qed.

Lemma of_string_parts_valid (s : string) :
  Forall (fun c => Path.valid_name c = true) (filter Path.is_component (Path.split s)).
Proof.
  pose proof (split_parts_no_slash s) as H.
  induction H as [|c l Hc _ IH]; simpl; [constructor|].
  destruct (Path.is_component c) eqn:Hcomp; [|exact IH].
  constructor; [|exact IH]. unfold Path.valid_name. now rewrite Hcomp, Hc.
Qed.

Lemma valid_parts_relative (l : list string) :
  Forall (fun c => Path.valid_name c = true) l -> Path.is_absolute l = false.
Proof.
  intros [|c rest Hc _]; [reflexivity|]. simpl.
  apply String.eqb_neq. now apply valid_name_not_anchor.
Qed.

Lemma of_string_wf (s : string) : Path.wf (Path.of_string s).
Proof.
  unfold Path.wf, Path.of_string, Path.components.
  pose proof (of_string_parts_valid s) as H.
  destruct (Str.startswith "/" s); simpl; [exact H|].
  now rewrite (valid_parts_relative _ H).
Qed.

Lemma join_wf (p : path) (s : string) : Path.wf p -> Path.wf (Path.join p s).
Proof.
  intros Hp. unfold Path.join.
  destruct (Path.is_absolute (Path.of_string s)) eqn:Habs; [apply of_string_wf|].
  pose proof (of_string_wf s) as Hq. unfold Path.wf, Path.components in *.
  rewrite Habs in Hq.
  destruct p as [|c p]; simpl; [now rewrite Habs|].
  simpl in Hp. destruct (String.eqb c "/"); simpl.
  - apply Forall_app. now split.
  - inversion Hp; subst. constructor; [assumption|]. apply Forall_app. now split.
Qed.

Lemma generate_destination_path_wf (E : env) (rules : list (string * json))
    (d : node) (file_path : path) (destination_base : string) (dest_dir : path) :
  generate_destination_path E rules d file_path destination_base = Ok dest_dir ->
  Path.wf dest_dir.
Proof.
  unfold generate_destination_path. intros H.
  destruct (get_file_category rules file_path) as [category|]; [|discriminate].
  simpl in H.
  set (rule := match Dict.get category rules with Some r => r | None => JObj [] end) in *.
  set (base := Path.join (Path.of_string destination_base) category) in *.
  assert (Hbase : Path.wf base) by apply join_wf, of_string_wf.
  destruct (Py.contains rule "subfolders") as [has_sub|]; [|discriminate].
  simpl in H.
  assert (Hmid : forall r p, r = Ok p ->
            (r = Ok base \/ exists s, r = Ok (Path.join base s)) -> Path.wf p).
  { intros r p -> [Heq|[s Heq]]; injection Heq as ->; [exact Hbase|now apply join_wf]. }
  match type of H with
  | bind ?m _ = _ => destruct m as [mid|] eqn:Hm; [|discriminate]
  end.
  assert (Hwfmid : Path.wf mid).
  { apply (Hmid _ _ Hm). destruct has_sub; [|now left].
    destruct (Py.getitem rule "subfolders") as [table|]; [|discriminate].
    simpl in Hm |- *.
    destruct (get_subfolder file_path table) as [[s|]|]; try discriminate;
      simpl in Hm |- *; [|now left].
    destruct (String.eqb s EmptyString); [now left|right; eauto]. }
  simpl in H.
  destruct (Py.get rule "subfolder_by_date" (JBool false)) as [flag|]; [|discriminate].
  simpl in H. destruct (Py.truthy flag).
  - destruct (Py.get rule "date_format" (JStr "%Y/%m")) as [df|]; [|discriminate].
    simpl in H. destruct (Py.as_str df) as [fmt|]; [|discriminate].
    simpl in H. injection H as <-. now apply join_wf.
  - now injection H as <-.
Qed.

(** ** Termination of a pass *)

Lemma handle_duplicate_terminates (E : env) (d : node) (source destination : path) :
  Path.wf destination ->
  path_exists E d destination = true ->
  exists N r, forall fuel, N <= fuel ->
    handle_duplicate E fuel d source destination = Some r.
Proof.
  intros Hwf Hex.
  destruct (setting_is E "handle_duplicates" "rename" "skip") eqn:Hskip.
  { exists 0, None. intros fuel _. unfold handle_duplicate. now rewrite Hskip. }
  destruct (setting_is E "handle_duplicates" "rename" "overwrite") eqn:Hover.
  { exists 0, (Some destination). intros fuel _. unfold handle_duplicate.
    now rewrite Hskip, Hover. }
  destruct (probe_first_missing E d destination Hwf Hex) as (k & _ & _ & _ & Hk).
  exists k, (Some (Spec.candidate destination k)). intros fuel Hfuel.
  unfold handle_duplicate. now rewrite Hskip, Hover, (Hk fuel Hfuel).
Qed.

Lemma organize_file_terminates (E : env) (rules : list (string * json)) (st : state)
    (source_path : path) (destination_base : string) (dry_run : bool) :
  exists N r, forall fuel, N <= fuel ->
    organize_file E rules fuel st source_path destination_base dry_run = Some r.
Proof.
  unfold organize_file.
  destruct (negb (path_exists E (fs st) source_path) || path_is_dir E (fs st) source_path).
  { exists 0. eexists. intros fuel _. reflexivity. }
  destruct (generate_destination_path E rules (fs st) source_path destination_base)
    as [dest_dir|e] eqn:Hgen.
  2: { exists 0. eexists. intros fuel _. reflexivity. }
  destruct (path_exists E (fs st) (Path.join dest_dir (Path.name source_path))) eqn:Hex.
  2: { exists 0. destruct dry_run; eexists; intros fuel _; reflexivity. }
  destruct (handle_duplicate_terminates E (fs st) source_path
              (Path.join dest_dir (Path.name source_path)))
    as (N & settled & HN); [|exact Hex|].
  { apply join_wf. eapply generate_destination_path_wf; eauto. }
  exists N. destruct settled as [dest_file|]; [destruct dry_run|];
    eexists; intros fuel Hfuel; rewrite (HN fuel Hfuel); reflexivity.
Qed.

Lemma organize_each_terminates (E : env) (rules : list (string * json))
    (destination_folder : string) (dry_run : bool) (files : list path) :
  forall i st, exists N r, forall fuel, N <= fuel ->
    organize_each E rules fuel i st files destination_folder dry_run = Some r.
Proof.
  induction files as [|p files IH]; intros i st.
  { exists 0. eexists. intros fuel _. reflexivity. }
  destruct (running E i) eqn:Hrun.
  2: { exists 0. eexists. intros fuel _. simpl. rewrite Hrun. reflexivity. }
  destruct (organize_file_terminates E rules st p destination_folder dry_run)
    as (N1 & [st1 outcome] & H1).
  destruct (IH (S i) st1) as (N2 & [st2 results] & H2).
  exists (Nat.max N1 N2), (st2, outcome :: results). intros fuel Hfuel.
  simpl. rewrite Hrun. simpl.
  rewrite (H1 fuel) by lia. rewrite (H2 fuel) by lia. reflexivity.
Qed.

(** Every pass comes to an end. *)
Lemma organize_folder_terminates (E : env) (rules : list (string * json)) (st : state)
    (source_folder destination_folder : string) (dry_run : bool) :
  exists N r, forall fuel, N <= fuel ->
    organize_folder E rules fuel st source_folder destination_folder dry_run = Some r.
Proof.
  unfold organize_folder.
  destruct (negb (path_exists E (fs st) (Path.of_string source_folder))).
  { exists 0. eexists. intros fuel _. reflexivity. }
  destruct (organize_each_terminates E rules destination_folder dry_run
              (all_files E (fs st) (Path.of_string source_folder)) 0 st)
    as (N & [st' results] & HN).
  exists N. eexists. intros fuel Hfuel. rewrite (HN fuel Hfuel). reflexivity.
Qed.

(** ** The skip policy *)

Lemma organize_file_skip_report (E : env) (rules : list (string * json))
    (fuel : nat) (st st' : state) (source_path : path) (destination_base : string)
    (dry_run ok : bool) (msg : string) :
  organize_file E rules fuel st source_path destination_base dry_run
    = Some (st', (ok, msg)) ->
  Str.startswith "File skipped (duplicate): " msg = true ->
  st' = st /\ ok = false.
Proof.
  unfold organize_file. intros H Hmsg.
  destruct (negb (path_exists E (fs st) source_path) || path_is_dir E (fs st) source_path).
  { injection H as <- <- <-. discriminate Hmsg. }
  destruct (generate_destination_path E rules (fs st) source_path destination_base)
    as [dest_dir|e].
  2: { injection H as <- <- <-. discriminate Hmsg. }
  match type of H with
  | match ?s with _ => _ end = _ => destruct s as [[dest_file|]|]
  end; try discriminate.
  - destruct dry_run.
    + injection H as <- <- <-. discriminate Hmsg.
    + unfold move_and_log in H.
      destruct (FS.mkdir_p (resolve E dest_dir) (fs st)) as [d1|e].
      2: { injection H as <- <- <-. discriminate Hmsg. }
      destruct (FS.move (resolve E source_path) (resolve E dest_file) d1) as [d2|e];
        injection H as <- <- <-; discriminate Hmsg.
  - injection H as <- <- <-. now split.
Qed.

(** C5.  Under the skip policy a file whose proposed destination exists
    is reported as skipped and nothing else happens: the disk, the undo
    log and both counters are what they were.  Conversely the skip
    report is given in no other case. *)
Theorem organize_file_skip_leaves_everything
    (E : env) (rules : list (string * json)) (fuel : nat) (st : state)
    (source_path : path) (destination_base : string) (dry_run : bool)
    (dest_dir : path) :
  setting_is E "handle_duplicates" "rename" "skip" = true ->
  path_exists E (fs st) source_path = true ->
  path_is_dir E (fs st) source_path = false ->
  generate_destination_path E rules (fs st) source_path destination_base = Ok dest_dir ->
  path_exists E (fs st) (Path.join dest_dir (Path.name source_path)) = true ->
  organize_file E rules fuel st source_path destination_base dry_run
    = Some (st, (false, "File skipped (duplicate): " ++ Path.name source_path))
  /\ (forall fuel' st0 st' p base dry ok msg,
        organize_file E rules fuel' st0 p base dry = Some (st', (ok, msg)) ->
        Str.startswith "File skipped (duplicate): " msg = true ->
        fs st' = fs st0 /\ undo_log st' = undo_log st0
        /\ moved st' = moved st0 /\ errors st' = errors st0 /\ ok = false).
Proof.
  intros Hskip Hex Hdir Hgen Hdest. split.
  - unfold organize_file, handle_duplicate.
    now rewrite Hex, Hdir, Hgen, Hdest, Hskip.
  - intros fuel' st0 st' p base dry ok msg H Hmsg.
    destruct (organize_file_skip_report E rules fuel' st0 st' p base dry ok msg H Hmsg)
      as [-> ->].
    now repeat split.
Qed.

Lemma organize_file_skip_leaves_everything_witness :
  let E := Scenario.env_with "skip" in
  let d := Dir [("S", Dir [("b.pdf", File Scenario.stamp "new")]);
                ("D", Dir [("Documents",
                            Dir [("PDFs", Dir [("b.pdf", File Scenario.stamp "old")])])])] in
  let st := mkState d 3 1 [] in
  path_exists E d ["/"; "D"; "Documents"; "PDFs"; "b.pdf"] = true
  /\ organize_file E default_rules 0 st ["/"; "S"; "b.pdf"] "/D" false
     = Some (st, (false, "File skipped (duplicate): b.pdf")).
Proof.
  intros E d st. split; [reflexivity|].
  apply (organize_file_skip_leaves_everything E default_rules 0 st
           ["/"; "S"; "b.pdf"] "/D" false ["/"; "D"; "Documents"; "PDFs"]);
    reflexivity.
Defined.

(** ** Dry runs *)

Lemma organize_file_dry_run (E : env) (rules : list (string * json))
    (fuel : nat) (st st' : state) (source_path : path) (destination_base : string)
    (outcome : bool * string) :
  organize_file E rules fuel st source_path destination_base true = Some (st', outcome) ->
  fs st' = fs st /\ undo_log st' = undo_log st /\ moved st' = moved st.
Proof.
  unfold organize_file. intros H.
  destruct (negb (path_exists E (fs st) source_path) || path_is_dir E (fs st) source_path).
  { injection H as <- <-. now repeat split. }
  destruct (generate_destination_path E rules (fs st) source_path destination_base)
    as [dest_dir|e].
  2: { injection H as <- <-. now repeat split. }
  match type of H with
  | match ?s with _ => _ end = _ => destruct s as [[dest_file|]|]
  end; try discriminate; injection H as <- <-; now repeat split.
Qed.

Lemma organize_each_dry_run (E : env) (rules : list (string * json))
    (fuel : nat) (destination_folder : string) (files : list path) :
  forall i st st' results,
    organize_each E rules fuel i st files destination_folder true = Some (st', results) ->
    fs st' = fs st /\ undo_log st' = undo_log st /\ moved st' = moved st.
Proof.
  induction files as [|p files IH]; intros i st st' results H; simpl in H.
  { injection H as <- <-. now repeat split. }
  destruct (running E i) eqn:Hrun; simpl in H.
  2: { injection H as <- <-. now repeat split. }
  destruct (organize_file E rules fuel st p destination_folder true)
    as [[st1 outcome]|] eqn:Hf; [|discriminate].
  destruct (organize_each E rules fuel (S i) st1 files destination_folder true)
    as [[st2 rest]|] eqn:He; [|discriminate].
  injection H as <- <-.
  destruct (organize_file_dry_run E rules fuel st st1 p destination_folder outcome Hf)
    as (Hfs & Hlog & Hmoved).
  destruct (IH (S i) st1 st2 rest He) as (Hfs' & Hlog' & Hmoved').
  repeat split; congruence.
Qed.

(** ** Undo: failures are recorded, never fatal *)








(** ** Undo: the success flag *)




(** ** Cleaning up empty directories *)

Lemma node_rect' (P : node -> Prop) :
  (forall t x, P (File t x)) ->
  (forall es, Forall (fun e => P (snd e)) es -> P (Dir es)) ->
  forall n, P n.
Proof.
  intros Hfile Hdir. fix IH 1. intros [t x|es]; [apply Hfile|].
  apply Hdir. induction es as [|[k ch] es IHes]; constructor; [apply IH|exact IHes].
Qed.

Lemma cleanup_tree_dir (E : env) (root : FS.loc) (es : list (string * node)) :
  cleanup_tree E root (Dir es) = Dir (filter (stays E root) (map (visit E root) es)).
Proof.
  simpl. f_equal. unfold stays. f_equal.
  induction es as [|[k ch] es IH]; [reflexivity|]. simpl. now rewrite IH.
Qed.

Lemma filter_idem {A} (f : A -> bool) (l : list A) :
  filter f (filter f l) = filter f l.
Proof.
  induction l as [|x l IH]; simpl; [reflexivity|].
  destruct (f x) eqn:Hx; simpl; [rewrite Hx; now f_equal|exact IH].
Qed.

Lemma cleanup_tree_idem (E : env) (n : node) :
  forall root, cleanup_tree E root (cleanup_tree E root n) = cleanup_tree E root n.
Proof.
  induction n as [t x|es IH] using node_rect'; intros root; [reflexivity|].
  rewrite !cleanup_tree_dir. f_equal.
  assert (Hmap : map (visit E root) (filter (stays E root) (map (visit E root) es))
                 = filter (stays E root) (map (visit E root) es)).
  { induction IH as [|[k ch] es Hch _ IHes]; [reflexivity|]. simpl.
    destruct (stays E root (visit E root (k, ch))) eqn:Hst; [|exact IHes].
    simpl. rewrite IHes. f_equal. unfold visit. simpl. f_equal. apply Hch. }
  rewrite Hmap. apply filter_idem.
Qed.

(** *** Directory listings *)

Lemma get_set_same {V} (k : string) (v : V) (d : list (string * V)) :
  Dict.get k (Dict.set k v d) = Some v.
Proof.
  induction d as [|[k' v'] d IH]; simpl.
  - now rewrite String.eqb_refl.
  - destruct (String.eqb k k') eqn:Hk; simpl; [now rewrite String.eqb_refl|].
    now rewrite Hk.
Qed.

Lemma get_set_other {V} (k k' : string) (v : V) (d : list (string * V)) :
  k <> k' -> Dict.get k' (Dict.set k v d) = Dict.get k' d.
Proof.
  intros Hne. induction d as [|[k0 v0] d IH]; simpl.
  - destruct (String.eqb_spec k' k); [congruence|reflexivity].
  - destruct (String.eqb_spec k k0) as [->|Hk]; simpl.
    + destruct (String.eqb_spec k' k0); [congruence|reflexivity].
    + destruct (String.eqb k' k0); [reflexivity|exact IH].
Qed.

Lemma set_set {V} (k : string) (v1 v2 : V) (d : list (string * V)) :
  Dict.set k v2 (Dict.set k v1 d) = Dict.set k v2 d.
Proof.
  induction d as [|[k' v'] d IH]; simpl.
  - now rewrite String.eqb_refl.
  - destruct (String.eqb k k') eqn:Hk; simpl.
    + now rewrite String.eqb_refl.
    + rewrite Hk. now f_equal.
Qed.

Lemma set_same {V} (k : string) (v : V) (d : list (string * V)) :
  Dict.get k d = Some v -> Dict.set k v d = d.
Proof.
  induction d as [|[k' v'] d IH]; simpl; [discriminate|].
  destruct (String.eqb_spec k k') as [->|Hk].
  - now intros [= ->].
  - intros H. f_equal. now apply IH.
Qed.

Lemma get_unlink_same (k : string) (d : list (string * node)) :
  Dict.get k (FS.unlink k d) = None.
Proof.
  induction d as [|[k' v'] d IH]; simpl; [reflexivity|].
  destruct (String.eqb k k') eqn:Hk; simpl; [exact IH|]. now rewrite Hk.
Qed.

Lemma get_unlink_other (k k' : string) (d : list (string * node)) :
  k <> k' -> Dict.get k' (FS.unlink k d) = Dict.get k' d.
Proof.
  intros Hne. induction d as [|[k0 v0] d IH]; simpl; [reflexivity|].
  destruct (String.eqb_spec k k0) as [->|Hk]; simpl.
  - destruct (String.eqb_spec k' k0); [congruence|exact IH].
  - destruct (String.eqb k' k0); [reflexivity|exact IH].
Qed.

(** *** [FS.alter] *)

Lemma lookup_alter_same (f : node -> node) (l : FS.loc) (d : node) :
  FS.lookup l (FS.alter f l d) = option_map f (FS.lookup l d).
Proof.
  revert d. induction l as [|c l IH]; intros d; [reflexivity|].
  destruct d as [t x|es]; [reflexivity|]. simpl.
  destruct (Dict.get c es) as [ch|] eqn:Hget; simpl.
  - rewrite get_set_same. apply IH.
  - now rewrite Hget.
Qed.

Lemma alter_compose (f g : node -> node) (l : FS.loc) (d : node) :
  FS.alter f l (FS.alter g l d) = FS.alter (fun n => f (g n)) l d.
Proof.
  revert d. induction l as [|c l IH]; intros d; [reflexivity|].
  destruct d as [t x|es]; [reflexivity|]. simpl.
  destruct (Dict.get c es) as [ch|] eqn:Hget; simpl.
  - rewrite get_set_same, set_set. now rewrite IH.
  - now rewrite Hget.
Qed.

Lemma alter_ext (f g : node -> node) (l : FS.loc) (d : node) :
  (forall n, f n = g n) -> FS.alter f l d = FS.alter g l d.
Proof.
  intros Hfg. revert d. induction l as [|c l IH]; intros d; [apply Hfg|].
  destruct d as [t x|es]; [reflexivity|]. simpl.
  destruct (Dict.get c es); [now rewrite IH|reflexivity].
Qed.

Lemma lookup_alter_file (f : node -> node) (base : FS.loc) :
  (forall r n t x, FS.lookup r n = Some (File t x) ->
                   FS.lookup r (f n) = Some (File t x)) ->
  forall l d t x,
    FS.lookup l d = Some (File t x) ->
    FS.lookup l (FS.alter f base d) = Some (File t x).
Proof.
  intros Hf. induction base as [|c base IH]; intros l d t x H; [now apply Hf|].
  destruct d as [t' x'|es]; [exact H|]. simpl.
  destruct (Dict.get c es) as [ch|] eqn:Hget; [|exact H].
  destruct l as [|c' l]; [discriminate|]. simpl in *.
  destruct (String.eqb_spec c c') as [<-|Hne].
  - rewrite get_set_same. rewrite Hget in H. now apply IH.
  - now rewrite (get_set_other c c' _ es Hne).
Qed.

(** *** Files survive the clean-up *)

Lemma get_filter_map (f : string * node -> bool)
    (h : string * node -> string * node)
    (c : string) (ch : node) (es : list (string * node)) :
  (forall e, fst (h e) = fst e) ->
  Dict.get c es = Some ch ->
  f (h (c, ch)) = true ->
  Dict.get c (filter f (map h es)) = Some (snd (h (c, ch))).
Proof.
  intros Hfst Hget Hkeep. induction es as [|[k v] es IH]; [discriminate|].
  simpl in *. destruct (String.eqb_spec c k) as [<-|Hne].
  - injection Hget as ->. rewrite Hkeep. simpl.
    destruct (h (c, ch)) as [k' v'] eqn:Hh.
    pose proof (Hfst (c, ch)) as Hk. rewrite Hh in Hk. simpl in *. subst k'.
    now rewrite String.eqb_refl.
  - destruct (f (h (k, v))); simpl; [|now apply IH].
    destruct (h (k, v)) as [k' v'] eqn:Hh.
    pose proof (Hfst (k, v)) as Hk. rewrite Hh in Hk. simpl in Hk. subst k'.
    destruct (String.eqb_spec c k); [congruence|now apply IH].
Qed.

Lemma cleanup_tree_keeps_files (E : env) (l : FS.loc) :
  forall root n t x,
    FS.lookup l n = Some (File t x) ->
    FS.lookup l (cleanup_tree E root n) = Some (File t x).
Proof.
  induction l as [|c l IH]; intros root n t x H.
  - simpl in H. injection H as ->. reflexivity.
  - destruct n as [t' x'|es]; [discriminate|].
    rewrite cleanup_tree_dir. simpl in *.
    destruct (Dict.get c es) as [ch|] eqn:Hget; [|discriminate].
    pose proof (IH (root ++ [c])%list ch t x H) as Hch.
    rewrite (get_filter_map (stays E root) (visit E root) c ch es
               (fun e => eq_refl) Hget).
    + exact Hch.
    + unfold stays, visit. simpl.
      destruct (cleanup_tree E (root ++ [c])%list ch) as [|[|]]; try reflexivity.
      destruct l; discriminate.
Qed.

Lemma cleanup_tree_child (E : env) (root : FS.loc) (es : list (string * node))
    (name : string) (ch : node) :
  In (name, ch) es ->
  let ch' := cleanup_tree E (root ++ [name])%list ch in
  (exists kept, cleanup_tree E root (Dir es) = Dir kept /\ In (name, ch') kept)
  \/ (ch' = Dir [] /\ may_rmdir E (root ++ [name])%list = true).
Proof.
  intros Hin ch'. rewrite cleanup_tree_dir.
  destruct (stays E root (name, ch')) eqn:Hst.
  - left. eexists. split; [reflexivity|].
    apply filter_In. split; [|exact Hst].
    apply in_map_iff. exists (name, ch). split; [reflexivity|exact Hin].
  - right. unfold stays in Hst. simpl in Hst.
    destruct ch' as [|[|]]; try discriminate.
    split; [reflexivity|]. now apply negb_false_iff in Hst.
Qed.

Lemma cleanup_dir_tree_idem (E : env) (base_dir : path) (d : node) :
  cleanup_dir_tree E base_dir (cleanup_dir_tree E base_dir d)
  = cleanup_dir_tree E base_dir d.
Proof.
  unfold cleanup_dir_tree. rewrite alter_compose.
  apply alter_ext. intros n. apply cleanup_tree_idem.
Qed.

Lemma exists_alter_same (f : node -> node) (l : FS.loc) (d : node) :
  FS.exists_ l (FS.alter f l d) = FS.exists_ l d.
Proof.
  unfold FS.exists_. rewrite lookup_alter_same. now destruct (FS.lookup l d).
Qed.

Lemma cleanup_dir_tree_keeps_files (E : env) (base_dir : path) (d : node)
    (l : FS.loc) (t : datetime) (x : string) :
  FS.lookup l d = Some (File t x) ->
  FS.lookup l (cleanup_dir_tree E base_dir d) = Some (File t x).
Proof.
  intros H. unfold cleanup_dir_tree.
  apply lookup_alter_file; [|exact H].
  intros r n t' x'. apply cleanup_tree_keeps_files.
Qed.

Lemma cleanup_empty_dirs_keeps_files (E : env) (d : node)
    (l : FS.loc) (t : datetime) (x : string) :
  FS.lookup l d = Some (File t x) ->
  FS.lookup l (_cleanup_empty_dirs E d) = Some (File t x).
Proof.
  intros H. unfold _cleanup_empty_dirs.
  destruct (get_setting (settings E) "destination_folder" None) as [s|];
    [|exact H].
  destruct (negb (path_exists E d (Path.of_string s))); [exact H|].
  now apply cleanup_dir_tree_keeps_files.
Qed.

(** C9.  The clean-up pass is a total function of the disk, so it raises
    nothing, and running it twice gives what running it once gives, both
    for the method of [FileOrganizer] and for [cleanup_dir_tree].  It
    loses no file, hence removes no directory that holds one; each child
    of a visited directory either stays or had become empty and was
    accepted by [rmdir], and a directory that [rmdir] refuses stays. *)
Theorem cleanup_empty_dirs_idempotent (E : env) (d : node) :
  _cleanup_empty_dirs E (_cleanup_empty_dirs E d) = _cleanup_empty_dirs E d
  /\ (forall base_dir,
        cleanup_dir_tree E base_dir (cleanup_dir_tree E base_dir d)
        = cleanup_dir_tree E base_dir d)
  /\ (forall l t x,
        FS.lookup l d = Some (File t x) ->
        FS.lookup l (_cleanup_empty_dirs E d) = Some (File t x))
  /\ (forall base_dir l t x,
        FS.lookup l d = Some (File t x) ->
        FS.lookup l (cleanup_dir_tree E base_dir d) = Some (File t x))
  /\ (forall root es name ch,
        In (name, ch) es ->
        let ch' := cleanup_tree E (root ++ [name])%list ch in
        (exists kept, cleanup_tree E root (Dir es) = Dir kept /\ In (name, ch') kept)
        \/ (ch' = Dir [] /\ may_rmdir E (root ++ [name])%list = true)).
Proof.
  split; [|split; [|split; [|split]]].
  - unfold _cleanup_empty_dirs.
    destruct (get_setting (settings E) "destination_folder" None) as [s|];
      [|reflexivity].
    destruct (path_exists E d (Path.of_string s)) eqn:Hex; simpl.
    + unfold path_exists, cleanup_dir_tree in *.
      rewrite exists_alter_same, Hex. simpl. apply cleanup_dir_tree_idem.
    + now rewrite Hex.
  - intros base_dir. apply cleanup_dir_tree_idem.
  - intros l t x. apply cleanup_empty_dirs_keeps_files.
  - intros base_dir l t x. apply cleanup_dir_tree_keeps_files.
  - intros root es name ch Hin. now apply cleanup_tree_child.
Qed.

(** ** The file system: what each operation changes *)

Local Open Scope list_scope.

Lemma is_prefix_spec (a b : FS.loc) :
  FS.is_prefix a b = true <-> exists r, b = (a ++ r)%list.
Proof.
  revert b. induction a as [|x a IH]; intros b; simpl.
  - split; [intros _; now exists b|reflexivity].
  - destruct b as [|y b]; [split; [discriminate|intros [r Hr]; discriminate]|].
    rewrite andb_true_iff, String.eqb_eq, IH. split.
    + intros [-> [r ->]]. now exists r.
    + intros [r Hr]. injection Hr as -> ->. split; [reflexivity|now exists r].
Qed.

Lemma is_prefix_refl (a : FS.loc) : FS.is_prefix a a = true.
Proof. apply is_prefix_spec. exists []. now rewrite app_nil_r. Qed.

Lemma is_prefix_app (a r : FS.loc) : FS.is_prefix a (a ++ r) = true.
Proof. apply is_prefix_spec. now exists r. Qed.

Lemma is_prefix_trans (a b c : FS.loc) :
  FS.is_prefix a b = true -> FS.is_prefix b c = true -> FS.is_prefix a c = true.
Proof.
  rewrite !is_prefix_spec. intros [r ->] [r' ->]. exists (r ++ r')%list.
  now rewrite app_assoc.
Qed.

Lemma loc_eqb_eq (a b : FS.loc) : FS.loc_eqb a b = true <-> a = b.
Proof.
  revert b. induction a as [|x a IH]; intros [|y b]; simpl;
    try (split; [discriminate|discriminate]); [split; reflexivity|].
  rewrite andb_true_iff, String.eqb_eq, IH. split; [intros [-> ->]|intros [= -> ->]]; auto.
Qed.

(** Two prefixes of one location are comparable. *)
Lemma is_prefix_comparable (a b c : FS.loc) :
  FS.is_prefix a c = true -> FS.is_prefix b c = true ->
  FS.is_prefix a b = true \/ FS.is_prefix b a = true.
Proof.
  revert b c. induction a as [|x a IH]; intros b c Ha Hb; [now left|].
  destruct b as [|y b]; [now right|].
  destruct c as [|z c]; [discriminate|]. simpl in *.
  apply andb_prop in Ha as [Hx Ha]. apply andb_prop in Hb as [Hy Hb].
  apply String.eqb_eq in Hx, Hy. subst.
  rewrite String.eqb_refl. simpl. eapply IH; eauto.
Qed.

Lemma is_prefix_snoc (a b : FS.loc) (c : string) :
  FS.is_prefix a (b ++ [c]) = true ->
  a = (b ++ [c])%list \/ FS.is_prefix a b = true.
Proof.
  revert b. induction a as [|x a IH]; intros b H; [now right|].
  destruct b as [|y b]; simpl in *.
  - apply andb_prop in H as [Hx Ha]. apply String.eqb_eq in Hx. subst.
    destruct a; [now left|discriminate].
  - apply andb_prop in H as [Hx Ha]. apply String.eqb_eq in Hx. subst.
    rewrite String.eqb_refl. simpl.
    destruct (IH b Ha) as [->|?]; [now left|now right].
Qed.

Lemma lookup_file_below (a : FS.loc) :
  forall b F t x,
    FS.lookup a F = Some (File t x) ->
    FS.is_prefix a b = true ->
    b = a \/ FS.lookup b F = None.
Proof.
  induction a as [|c a IH]; intros b F t x Ha Hp.
  - simpl in Ha. injection Ha as ->. destruct b; [now left|now right].
  - destruct b as [|c' b]; [discriminate|]. simpl in Hp.
    apply andb_prop in Hp as [Hc Hp]. apply String.eqb_eq in Hc. subst c'.
    destruct F as [|es]; [discriminate|]. simpl in *.
    destruct (Dict.get c es) as [ch|]; [|now right].
    destruct (IH b ch t x Ha Hp) as [->|H]; [now left|now right].
Qed.

Lemma lookup_absent_below (a : FS.loc) :
  forall b F,
    FS.lookup a F = None -> FS.is_prefix a b = true -> FS.lookup b F = None.
Proof.
  induction a as [|c a IH]; intros b F Ha Hp; [discriminate|].
  destruct b as [|c' b]; [discriminate|]. simpl in Hp.
  apply andb_prop in Hp as [Hc Hp]. apply String.eqb_eq in Hc. subst c'.
  destruct F as [|es]; [reflexivity|]. simpl in *.
  destruct (Dict.get c es) as [ch|]; [|reflexivity]. now apply IH.
Qed.

Lemma lookup_parent_is_dir (l : FS.loc) :
  forall F n, l <> [] -> FS.lookup l F = Some n -> FS.is_dir (removelast l) F = true.
Proof.
  unfold FS.is_dir.
  induction l as [|c l IH]; intros F n Hne H; [contradiction|].
  destruct F as [|es]; [discriminate|].
  destruct l as [|c2 l]; [reflexivity|].
  change (removelast (c :: c2 :: l)) with (c :: removelast (c2 :: l)).
  simpl FS.lookup in *. destruct (Dict.get c es) as [ch|]; [|discriminate].
  apply (IH ch n); [discriminate|exact H].
Qed.

(** *** [remove] *)

Lemma remove_cons2 (c c2 : string) (r : FS.loc) (es : list (string * node)) :
  FS.remove (c :: c2 :: r) (Dir es) =
  match Dict.get c es with
  | Some ch => Dir (Dict.set c (FS.remove (c2 :: r) ch) es)
  | None => Dir es
  end.
Proof. reflexivity. Qed.

Lemma lookup_remove_unrelated (s : FS.loc) :
  forall l F,
    FS.is_prefix s l = false -> FS.is_prefix l s = false ->
    FS.lookup l (FS.remove s F) = FS.lookup l F.
Proof.
  induction s as [|c s IH]; intros l F Hsl Hls; [discriminate|].
  destruct F as [|es]; [now destruct s|].
  destruct l as [|c' l]; [discriminate|].
  destruct s as [|c2 s].
  - simpl in *. destruct (String.eqb_spec c c') as [->|Hne]; [discriminate|].
    now rewrite (get_unlink_other c c' es Hne).
  - rewrite remove_cons2. destruct (Dict.get c es) as [ch|] eqn:Hget; [|reflexivity].
    simpl FS.lookup. simpl FS.is_prefix in Hsl, Hls.
    destruct (String.eqb_spec c c') as [<-|Hne].
    + rewrite String.eqb_refl in Hls. simpl in Hsl, Hls.
      rewrite get_set_same, Hget. now apply IH.
    + now rewrite (get_set_other c c' _ es Hne).
Qed.

Lemma lookup_remove_same (s : FS.loc) :
  forall F, s <> [] -> FS.lookup s (FS.remove s F) = None.
Proof.
  induction s as [|c s IH]; intros F Hne; [contradiction|].
  destruct F as [|es]; [now destruct s|].
  destruct s as [|c2 s].
  - simpl. now rewrite get_unlink_same.
  - rewrite remove_cons2. destruct (Dict.get c es) as [ch|] eqn:Hget.
    + simpl FS.lookup. rewrite get_set_same. apply IH. discriminate.
    + simpl FS.lookup. now rewrite Hget.
Qed.

Lemma lookup_remove_none (s : FS.loc) :
  forall l F, FS.lookup l F = None -> FS.lookup l (FS.remove s F) = None.
Proof.
  induction s as [|c s IH]; intros l F H; [exact H|].
  destruct F as [|es]; [now destruct s|].
  destruct l as [|c' l]; [discriminate|].
  destruct s as [|c2 s].
  - simpl in *. destruct (String.eqb_spec c c') as [->|Hne].
    + now rewrite get_unlink_same.
    + now rewrite (get_unlink_other c c' es Hne).
  - rewrite remove_cons2. destruct (Dict.get c es) as [ch|] eqn:Hget; [|exact H].
    simpl FS.lookup in *. destruct (String.eqb_spec c c') as [<-|Hne].
    + rewrite get_set_same. rewrite Hget in H. now apply IH.
    + now rewrite (get_set_other c c' _ es Hne).
Qed.

Lemma is_dir_remove (s : FS.loc) :
  forall l F,
    FS.is_prefix s l = false ->
    FS.is_dir l (FS.remove s F) = FS.is_dir l F.
Proof.
  unfold FS.is_dir.
  induction s as [|c s IH]; intros l F Hsl; [discriminate|].
  destruct F as [|es]; [now destruct s|].
  destruct l as [|c' l]; [destruct s; simpl; [reflexivity|now destruct (Dict.get c es)]|].
  destruct s as [|c2 s].
  - simpl in *. destruct (String.eqb_spec c c') as [->|Hne]; [discriminate|].
    now rewrite (get_unlink_other c c' es Hne).
  - rewrite remove_cons2. destruct (Dict.get c es) as [ch|] eqn:Hget; [|reflexivity].
    simpl FS.lookup. simpl FS.is_prefix in Hsl.
    destruct (String.eqb_spec c c') as [<-|Hne].
    + simpl in Hsl. rewrite get_set_same, Hget. now apply IH.
    + now rewrite (get_set_other c c' _ es Hne).
Qed.

(** *** [put] *)

Lemma put_cons2 (c c2 : string) (r : FS.loc) (x : node) (es : list (string * node)) :
  FS.put (c :: c2 :: r) x (Dir es) =
  match Dict.get c es with
  | Some ch => Dir (Dict.set c (FS.put (c2 :: r) x ch) es)
  | None => Dir es
  end.
Proof. reflexivity. Qed.

Lemma lookup_put_unrelated (s : FS.loc) (x : node) :
  forall l F,
    FS.is_prefix s l = false -> FS.is_prefix l s = false ->
    FS.lookup l (FS.put s x F) = FS.lookup l F.
Proof.
  induction s as [|c s IH]; intros l F Hsl Hls; [discriminate|].
  destruct F as [|es]; [now destruct s|].
  destruct l as [|c' l]; [discriminate|].
  destruct s as [|c2 s].
  - simpl in *. destruct (String.eqb_spec c c') as [->|Hne]; [discriminate|].
    now rewrite (get_set_other c c' _ es Hne).
  - rewrite put_cons2. destruct (Dict.get c es) as [ch|] eqn:Hget; [|reflexivity].
    simpl FS.lookup. simpl FS.is_prefix in Hsl, Hls.
    destruct (String.eqb_spec c c') as [<-|Hne].
    + rewrite String.eqb_refl in Hls. simpl in Hsl, Hls.
      rewrite get_set_same, Hget. now apply IH.
    + now rewrite (get_set_other c c' _ es Hne).
Qed.

Lemma lookup_put_same (s : FS.loc) (x : node) :
  forall F,
    s <> [] -> FS.is_dir (removelast s) F = true ->
    FS.lookup s (FS.put s x F) = Some x.
Proof.
  unfold FS.is_dir.
  induction s as [|c s IH]; intros F Hne Hdir; [contradiction|].
  destruct s as [|c2 s].
  - simpl in Hdir. destruct F as [|es]; [discriminate|].
    simpl. now rewrite get_set_same.
  - change (removelast (c :: c2 :: s)) with (c :: removelast (c2 :: s)) in Hdir.
    destruct F as [|es]; [discriminate|].
    simpl FS.lookup in Hdir. rewrite put_cons2.
    destruct (Dict.get c es) as [ch|] eqn:Hget; [|discriminate].
    simpl FS.lookup. rewrite get_set_same. apply IH; [discriminate|exact Hdir].
Qed.

Lemma is_dir_put (s : FS.loc) (x : node) :
  forall l F,
    FS.is_prefix s l = false ->
    FS.is_dir l (FS.put s x F) = FS.is_dir l F.
Proof.
  unfold FS.is_dir.
  induction s as [|c s IH]; intros l F Hsl; [discriminate|].
  destruct F as [|es]; [now destruct s|].
  destruct l as [|c' l]; [destruct s; simpl; [reflexivity|now destruct (Dict.get c es)]|].
  destruct s as [|c2 s].
  - simpl in *. destruct (String.eqb_spec c c') as [->|Hne]; [discriminate|].
    now rewrite (get_set_other c c' _ es Hne).
  - rewrite put_cons2. destruct (Dict.get c es) as [ch|] eqn:Hget; [|reflexivity].
    simpl FS.lookup. simpl FS.is_prefix in Hsl.
    destruct (String.eqb_spec c c') as [<-|Hne].
    + simpl in Hsl. rewrite get_set_same, Hget. now apply IH.
    + now rewrite (get_set_other c c' _ es Hne).
Qed.

(** *** [mkdir_p] *)

Lemma mkdir_p_cons (c : string) (r : FS.loc) (es : list (string * node)) :
  FS.mkdir_p (c :: r) (Dir es) =
  bind (FS.mkdir_p r match Dict.get c es with Some ch => ch | None => Dir [] end)
       (fun ch' => Ok (Dir (Dict.set c ch' es))).
Proof. reflexivity. Qed.

Lemma mkdir_p_existing (p : FS.loc) :
  forall F, FS.is_dir p F = true -> FS.mkdir_p p F = Ok F.
Proof.
  unfold FS.is_dir.
  induction p as [|c p IH]; intros F H.
  - destruct F; [discriminate|reflexivity].
  - destruct F as [|es]; [discriminate|]. rewrite mkdir_p_cons.
    simpl in H. destruct (Dict.get c es) as [ch|] eqn:Hget; [|discriminate].
    rewrite (IH ch H). simpl. now rewrite (set_same c ch es Hget).
Qed.

Lemma lookup_mkdir_p (p : FS.loc) :
  forall F F' l,
    FS.mkdir_p p F = Ok F' ->
    FS.is_prefix l p = false ->
    FS.lookup l F' = FS.lookup l F.
Proof.
  induction p as [|c p IH]; intros F F' l H Hl.
  - destruct F; [discriminate|]. now injection H as <-.
  - destruct F as [|es]; [discriminate|]. rewrite mkdir_p_cons in H.
    destruct (FS.mkdir_p p _) as [ch'|] eqn:Hch; [|discriminate].
    simpl in H. injection H as <-.
    destruct l as [|c' l]; [discriminate|]. simpl in Hl |- *.
    destruct (String.eqb_spec c' c) as [->|Hne].
    + simpl in Hl. rewrite get_set_same. rewrite (IH _ _ l Hch Hl).
      destruct (Dict.get c es); [reflexivity|].
      destruct l; [discriminate|reflexivity].
    + rewrite get_set_other; [reflexivity|congruence].
Qed.

Lemma is_dir_mkdir_p (p : FS.loc) :
  forall F F' l,
    FS.mkdir_p p F = Ok F' -> FS.is_dir l F = true -> FS.is_dir l F' = true.
Proof.
  unfold FS.is_dir.
  induction p as [|c p IH]; intros F F' l H Hl.
  - destruct F; [discriminate|]. now injection H as <-.
  - destruct F as [|es]; [discriminate|]. rewrite mkdir_p_cons in H.
    destruct (FS.mkdir_p p _) as [ch'|] eqn:Hch; [|discriminate].
    simpl in H. injection H as <-.
    destruct l as [|c' l]; [reflexivity|]. simpl in Hl |- *.
    destruct (String.eqb_spec c' c) as [->|Hne].
    + rewrite get_set_same. destruct (Dict.get c es) as [ch|]; [|discriminate].
      exact (IH _ _ l Hch Hl).
    + rewrite get_set_other; [exact Hl|congruence].
Qed.

Lemma is_dir_mkdir_p_target (p : FS.loc) :
  forall F F', FS.mkdir_p p F = Ok F' -> FS.is_dir p F' = true.
Proof.
  unfold FS.is_dir.
  induction p as [|c p IH]; intros F F' H.
  - destruct F; [discriminate|]. now injection H as <-.
  - destruct F as [|es]; [discriminate|]. rewrite mkdir_p_cons in H.
    destruct (FS.mkdir_p p _) as [ch'|] eqn:Hch; [|discriminate].
    simpl in H. injection H as <-. simpl. rewrite get_set_same.
    exact (IH _ _ Hch).
Qed.

(** *** [move] of a file to a free place *)

Lemma move_file (src dst : FS.loc) (F : node) (t : datetime) (x : string) :
  FS.lookup src F = Some (File t x) ->
  FS.lookup dst F = None ->
  FS.is_dir (removelast dst) F = true ->
  FS.move src dst F = Ok (FS.put dst (File t x) (FS.remove src F)).
Proof.
  intros Hsrc Hdst Hpar. unfold FS.move, FS.is_dir, FS.exists_ in *.
  rewrite Hdst, Hsrc. simpl.
  destruct (FS.loc_eqb src dst) eqn:Heq.
  { apply loc_eqb_eq in Heq. congruence. }
  destruct (FS.is_prefix src dst) eqn:Hpre.
  { destruct (lookup_file_below src dst F t x Hsrc Hpre) as [->|H].
    - rewrite (proj2 (loc_eqb_eq src src) eq_refl) in Heq. discriminate.
    - exfalso. destruct dst as [|c dst] using rev_ind; [discriminate|].
      rewrite removelast_last in Hpar.
      destruct (is_prefix_snoc src dst c Hpre) as [->|Hp].
      + rewrite (proj2 (loc_eqb_eq _ _) eq_refl) in Heq. discriminate.
      + destruct (lookup_file_below src dst F t x Hsrc Hp) as [->|Hnone].
        * now rewrite Hsrc in Hpar.
        * now rewrite Hnone in Hpar. }
  now rewrite Hpar.
Qed.

(** *** Where a path points *)

Lemma resolve_app (E : env) (p : path) (rel : list string) :
  Forall (fun c => Path.valid_name c = true) rel ->
  resolve E (p ++ rel) = resolve E p ++ rel.
Proof.
  intros Hrel. unfold resolve. destruct p as [|c p]; simpl.
  - rewrite (valid_parts_relative rel Hrel). now rewrite app_nil_r.
  - destruct (String.eqb c "/"); simpl; [reflexivity|]. now rewrite <- app_assoc.
Qed.

Lemma components_nonempty_parent (E : env) (p : path) :
  Path.components p <> [] ->
  resolve E (Path.parent p) = removelast (resolve E p).
Proof.
  unfold Path.parent. intros Hne.
  destruct (Path.components p) eqn:Hcomp; [contradiction|]. clear Hne.
  unfold Path.components, resolve in *.
  destruct p as [|c p]; [discriminate|].
  destruct p as [|c2 p].
  - simpl in *. destruct (String.eqb c "/"); [discriminate|].
    rewrite removelast_last. now rewrite app_nil_r.
  - change (removelast (c :: c2 :: p)) with (c :: removelast (c2 :: p)).
    simpl Path.is_absolute. destruct (String.eqb c "/"); [reflexivity|].
    rewrite removelast_app by discriminate. reflexivity.
Qed.

(** *** [str] and [Path] are inverse on well-formed paths *)

Lemma split_app_slash (a b : string) :
  Str.has_char "/" a = false ->
  Path.split (a ++ "/" ++ b)%string = a :: Path.split b.
Proof.
  induction a as [|c a IH]; intros H; [reflexivity|].
  rewrite has_char_cons in H. apply orb_false_iff in H as [Hc Ha].
  rewrite Ascii.eqb_sym in Hc. simpl. rewrite Hc.
  change (Path.split (a ++ String "/" b)%string)
    with (Path.split (a ++ "/" ++ b)%string).
  now rewrite (IH Ha).
Qed.

Lemma valid_name_no_slash (c : string) :
  Path.valid_name c = true -> Str.has_char "/" c = false.
Proof.
  unfold Path.valid_name. intros H. apply andb_prop in H as [_ H].
  now apply negb_true_iff.
Qed.

Lemma split_concat (comps : list string) :
  comps <> [] ->
  Forall (fun c => Path.valid_name c = true) comps ->
  Path.split (String.concat "/" comps) = comps.
Proof.
  intros Hne H. induction H as [|c comps Hc Hrest IH]; [contradiction|].
  destruct comps as [|c2 comps].
  - simpl. apply split_no_slash. now apply valid_name_no_slash.
  - change (String.concat "/" (c :: c2 :: comps))
      with (c ++ "/" ++ String.concat "/" (c2 :: comps))%string.
    rewrite split_app_slash by now apply valid_name_no_slash.
    f_equal. apply IH. discriminate.
Qed.

Lemma filter_components (comps : list string) :
  Forall (fun c => Path.valid_name c = true) comps ->
  filter Path.is_component comps = comps.
Proof.
  induction 1 as [|c comps Hc _ IH]; [reflexivity|]. simpl.
  unfold Path.valid_name in Hc. apply andb_prop in Hc as [Hc _].
  now rewrite Hc, IH.
Qed.

Lemma valid_name_startswith (c : string) (rest : string) :
  Path.valid_name c = true -> Str.startswith "/" (c ++ rest)%string = false.
Proof.
  intros H. pose proof (valid_name_no_slash c H) as Hs.
  destruct c as [|x c]; [discriminate|].
  rewrite has_char_cons in Hs. apply orb_false_iff in Hs as [Hx _].
  unfold Str.startswith. simpl String.append. cbn [String.prefix].
  destruct (ascii_dec "/" x) as [<-|_]; [|reflexivity].
  now rewrite Ascii.eqb_refl in Hx.
Qed.

Lemma concat_head (c : string) (comps : list string) :
  exists rest, String.concat "/" (c :: comps) = (c ++ rest)%string.
Proof.
  destruct comps as [|c2 comps].
  - exists EmptyString. simpl. clear. induction c; simpl; congruence.
  - eexists. reflexivity.
Qed.

Lemma of_string_str (p : path) : Path.wf p -> Path.of_string (Path.str p) = p.
Proof.
  unfold Path.wf, Path.components, Path.str. intros H.
  destruct p as [|c p]; [reflexivity|]. simpl Path.is_absolute in H.
  destruct (String.eqb_spec c "/") as [->|Hc].
  - simpl in H. unfold Path.of_string.
    replace (Str.startswith "/" ("/" ++ String.concat "/" p)%string) with true
      by (unfold Str.startswith; simpl; now destruct (String.concat "/" p)).
    f_equal. change ("/" ++ String.concat "/" p)%string
      with (EmptyString ++ "/" ++ String.concat "/" p)%string.
    rewrite split_app_slash by reflexivity. simpl filter.
    destruct p as [|c2 p]; [reflexivity|].
    rewrite split_concat by (discriminate || exact H).
    now apply filter_components.
  - unfold Path.of_string.
    destruct (concat_head c p) as [rest Hrest].
    rewrite Hrest at 1. inversion H as [|? ? Hvc Hvp]; subst.
    rewrite (valid_name_startswith c rest Hvc).
    rewrite split_concat by (discriminate || exact H).
    now apply filter_components.
Qed.

(** *** The files of a walk *)

Lemma names_valid_dir (es : list (string * node)) :
  names_valid (Dir es)
  = forallb (fun e => Path.valid_name (fst e) && names_valid (snd e)) es.
Proof.
  simpl. induction es as [|[k ch] es IH]; [reflexivity|]. simpl. now rewrite IH.
Qed.

Lemma walk_files_dir (root : path) (es : list (string * node)) :
  walk_files root (Dir es)
  = flat_map (fun e : string * node =>
                match snd e with
                | File _ _ => if hidden (fst e) then [] else [Path.join root (fst e)]
                | Dir _ => []
                end) es
    ++ flat_map (fun e : string * node =>
                   match snd e with
                   | Dir _ => walk_files (Path.join root (fst e)) (snd e)
                   | File _ _ => []
                   end) es.
Proof.
  simpl. f_equal. induction es as [|[k ch] es IH]; [reflexivity|].
  simpl. now rewrite IH.
Qed.

Lemma walk_files_below (n : node) :
  forall root p,
    names_valid n = true ->
    In p (walk_files root n) ->
    exists rel,
      rel <> [] /\ Forall (fun c => Path.valid_name c = true) rel
      /\ p = root ++ rel.
Proof.
  induction n as [t x|es IH] using node_rect'; intros root p Hv Hin; [contradiction|].
  rewrite names_valid_dir in Hv. rewrite forallb_forall in Hv.
  rewrite walk_files_dir in Hin.
  rewrite Forall_forall in IH.
  apply in_app_or in Hin as [Hin|Hin]; apply in_flat_map in Hin as ([k ch] & He & Hp);
    pose proof (Hv _ He) as Hk; simpl in Hk, Hp;
    apply andb_prop in Hk as [Hk Hch].
  - destruct ch; [|contradiction]. destruct (hidden k); [contradiction|].
    destruct Hp as [<-|[]]. exists [k]. split; [discriminate|].
    split; [now repeat constructor|]. now apply join_single.
  - destruct ch as [|es']; [contradiction|].
    destruct (IH _ He (Path.join root k) p Hch Hp) as (rel & Hne & Hrel & ->).
    exists (k :: rel). split; [discriminate|]. split; [now constructor|].
    rewrite (join_single root k Hk). now rewrite <- app_assoc.
Qed.

(** *** Locations that lie apart *)

Lemma apartb_apart (a b : FS.loc) : apartb a b = true -> apart a b.
Proof.
  unfold apartb, apart. intros H. apply andb_prop in H as [Ha Hb].
  now rewrite negb_true_iff in Ha, Hb.
Qed.

Lemma apart_ext (S dd : FS.loc) (r r' : list string) :
  apart S dd -> apart (S ++ r) (dd ++ r').
Proof.
  intros [Hsd Hds]. split.
  - destruct (FS.is_prefix (S ++ r) (dd ++ r')) eqn:H; [|reflexivity].
    pose proof (is_prefix_trans _ _ _ (is_prefix_app S r) H) as HS.
    destruct (is_prefix_comparable S dd (dd ++ r') HS (is_prefix_app dd r'));
      congruence.
  - destruct (FS.is_prefix (dd ++ r') (S ++ r)) eqn:H; [|reflexivity].
    pose proof (is_prefix_trans _ _ _ (is_prefix_app dd r') H) as HS.
    destruct (is_prefix_comparable S dd (S ++ r) (is_prefix_app S r) HS);
      congruence.
Qed.


Lemma is_prefix_longer (a : FS.loc) (c : string) : FS.is_prefix (a ++ [c]) a = false.
Proof.
  destruct (FS.is_prefix (a ++ [c]) a) eqn:H; [|reflexivity].
  apply is_prefix_spec in H as [r Hr].
  apply (f_equal (@List.length string)) in Hr.
  rewrite !length_app in Hr. simpl in Hr. lia.
Qed.


Lemma files_apart (F : node) (a b : FS.loc) (t t' : datetime) (x x' : string) :
  FS.lookup a F = Some (File t x) ->
  FS.lookup b F = Some (File t' x') ->
  a <> b -> apart a b.
Proof.
  intros Ha Hb Hne. split.
  - destruct (FS.is_prefix a b) eqn:H; [|reflexivity].
    destruct (lookup_file_below a b F t x Ha H); congruence.
  - destruct (FS.is_prefix b a) eqn:H; [|reflexivity].
    destruct (lookup_file_below b a F t' x' Hb H); congruence.
Qed.

Lemma file_not_above_dir (F : node) (a l : FS.loc) (t : datetime) (x : string) :
  FS.lookup a F = Some (File t x) ->
  FS.is_dir l F = true ->
  FS.is_prefix a l = false.
Proof.
  intros Ha Hl. destruct (FS.is_prefix a l) eqn:H; [|reflexivity].
  unfold FS.is_dir in Hl.
  destruct (lookup_file_below a l F t x Ha H) as [->|Hn].
  - now rewrite Ha in Hl.
  - now rewrite Hn in Hl.
Qed.

Lemma absent_not_above (F : node) (a l : FS.loc) (n : node) :
  FS.lookup a F = None ->
  FS.lookup l F = Some n ->
  FS.is_prefix a l = false.
Proof.
  intros Ha Hl. destruct (FS.is_prefix a l) eqn:H; [|reflexivity].
  rewrite (lookup_absent_below a l F Ha H) in Hl. discriminate.
Qed.

(** A file never lies above a free place whose parent is a directory. *)
Lemma file_not_above_free (F : node) (a q : FS.loc) (t : datetime) (x : string) :
  FS.lookup a F = Some (File t x) ->
  FS.lookup q F = None ->
  FS.is_dir (removelast q) F = true ->
  FS.is_prefix a q = false.
Proof.
  intros Ha Hq Hpar. destruct (FS.is_prefix a q) eqn:H; [|reflexivity].
  destruct q as [|c q] using rev_ind.
  - destruct a; [|discriminate]. simpl in *. congruence.
  - rewrite removelast_last in Hpar.
    destruct (is_prefix_snoc a q c H) as [->|Hp]; [congruence|].
    now rewrite (file_not_above_dir F a q t x Ha Hpar) in Hp.
Qed.

(** *** A move seen from other places *)


Lemma lookup_mkdir_p_file (p : FS.loc) :
  forall F F' l t x,
    FS.mkdir_p p F = Ok F' ->
    FS.lookup l F = Some (File t x) ->
    FS.lookup l F' = Some (File t x).
Proof.
  induction p as [|c p IH]; intros F F' l t x H Hl.
  - destruct F; [discriminate|]. now injection H as <-.
  - destruct F as [|es]; [discriminate|]. rewrite mkdir_p_cons in H.
    destruct (FS.mkdir_p p _) as [ch'|] eqn:Hch; [|discriminate].
    simpl in H. injection H as <-.
    destruct l as [|c' l]; [discriminate|]. simpl in Hl |- *.
    destruct (String.eqb_spec c' c) as [->|Hne].
    + rewrite get_set_same. destruct (Dict.get c es) as [ch|]; [|discriminate].
      exact (IH _ _ l t x Hch Hl).
    + rewrite get_set_other; [exact Hl|congruence].
Qed.

Lemma move_src_nonempty (F : node) (src dst : FS.loc) (t : datetime) (x : string) :
  FS.lookup src F = Some (File t x) ->
  FS.is_dir (removelast dst) F = true ->
  src <> [].
Proof.
  intros Hsrc Hpar Hnil. rewrite Hnil in Hsrc. simpl in Hsrc. injection Hsrc as HF.
  rewrite HF in Hpar. unfold FS.is_dir in Hpar.
  destruct (removelast dst); discriminate.
Qed.

Lemma after_move_is_dir (F : node) (src dst : FS.loc) (t : datetime) (x : string)
    (l : FS.loc) :
  FS.lookup src F = Some (File t x) ->
  FS.lookup dst F = None ->
  FS.is_dir (removelast dst) F = true ->
  FS.is_dir l F = true -> FS.is_dir l (after_move F src dst t x) = true.
Proof.
  intros Hsrc Hdst Hpar Hl. unfold after_move.
  assert (Hl1 : FS.is_dir l (FS.remove src F) = true).
  { rewrite is_dir_remove; [exact Hl|]. eapply file_not_above_dir; eauto. }
  rewrite is_dir_put; [exact Hl1|].
  unfold FS.is_dir in Hl1.
  destruct (FS.lookup l (FS.remove src F)) as [n|] eqn:Hn; [|discriminate].
  eapply absent_not_above; [|exact Hn]. now apply lookup_remove_none.
Qed.

Lemma after_move_dst (F : node) (src dst : FS.loc) (t : datetime) (x : string) :
  FS.lookup src F = Some (File t x) ->
  FS.lookup dst F = None ->
  FS.is_dir (removelast dst) F = true ->
  FS.lookup dst (after_move F src dst t x) = Some (File t x).
Proof.
  intros Hsrc Hdst Hpar. unfold after_move. apply lookup_put_same.
  - intros Heq. rewrite Heq in Hdst. discriminate.
  - rewrite is_dir_remove; [exact Hpar|]. eapply file_not_above_dir; eauto.
Qed.

Lemma after_move_src (F : node) (src dst : FS.loc) (t : datetime) (x : string) :
  FS.lookup src F = Some (File t x) ->
  FS.lookup dst F = None ->
  FS.is_dir (removelast dst) F = true ->
  FS.lookup src (after_move F src dst t x) = None.
Proof.
  intros Hsrc Hdst Hpar. unfold after_move. rewrite lookup_put_unrelated.
  - apply lookup_remove_same. exact (move_src_nonempty F src dst t x Hsrc Hpar).
  - eapply absent_not_above; eauto.
  - eapply file_not_above_free; eauto.
Qed.


Lemma after_move_absent (F : node) (src dst : FS.loc) (t : datetime) (x : string)
    (l : FS.loc) :
  FS.lookup l F = None -> apart l dst ->
  FS.lookup l (after_move F src dst t x) = None.
Proof.
  intros Hl [Hld Hdl]. unfold after_move.
  rewrite lookup_put_unrelated by assumption. now apply lookup_remove_none.
Qed.


(** ** One pass, move by move *)

Lemma name_valid (p : path) :
  Path.wf p -> Path.components p <> [] -> Path.valid_name (Path.name p) = true.
Proof.
  unfold Path.wf, Path.name. intros H Hne.
  destruct (Path.components p) as [|c l]; [contradiction|].
  clear Hne. revert c H. induction l as [|c' l IH]; intros c H.
  - now inversion H.
  - inversion H; subst. change (last (c :: c' :: l) EmptyString)
      with (last (c' :: l) EmptyString). now apply IH.
Qed.

Lemma snoc_wf (p : path) (nm : string) :
  Path.wf p -> Path.valid_name nm = true -> Path.wf (p ++ [nm]).
Proof. intros Hp Hnm. rewrite <- (join_single p nm Hnm). now apply join_wf. Qed.

Lemma snoc_components (p : path) (nm : string) :
  Path.valid_name nm = true -> Path.components (p ++ [nm]) <> [].
Proof.
  intros Hnm. unfold Path.components. destruct p as [|c p]; simpl.
  - destruct (String.eqb_spec nm "/") as [->|_]; discriminate.
  - destruct (String.eqb c "/"); [destruct p|]; discriminate.
Qed.

Lemma parent_snoc (p : path) (nm : string) :
  Path.valid_name nm = true -> Path.parent (p ++ [nm]) = p.
Proof.
  intros Hnm. unfold Path.parent.
  pose proof (snoc_components p nm Hnm) as Hne.
  destruct (Path.components (p ++ [nm])); [contradiction|].
  apply removelast_last.
Qed.

Lemma probe_result (E : env) (d : node) (parent : path) (base_name extension : string) :
  forall fuel destination counter r,
    probe E fuel d parent base_name extension destination counter = Some r ->
    path_exists E d r = false
    /\ (r = destination
        \/ exists k, r = Path.join parent
                           (base_name ++ "_" ++ Str.of_nat k ++ extension)%string).
Proof.
  induction fuel as [|f IH]; intros destination counter r H;
    rewrite probe_unfold in H;
    destruct (path_exists E d destination) eqn:Hex; try discriminate.
  - injection H as <-. auto.
  - destruct (IH _ _ _ H) as [Hr [->|Hk]]; eauto.
  - injection H as <-. auto.
Qed.

Lemma generate_destination_path_ext (E : env) (rules : list (string * json))
    (d d' : node) (file_path : path) (destination_base : string) :
  FS.lookup (resolve E file_path) d = FS.lookup (resolve E file_path) d' ->
  generate_destination_path E rules d file_path destination_base
  = generate_destination_path E rules d' file_path destination_base.
Proof.
  intros H. unfold generate_destination_path, get_file_date. now rewrite H.
Qed.

Lemma NoDup_snoc {A} (l : list A) (x : A) :
  NoDup l -> ~ In x l -> NoDup (l ++ [x]).
Proof.
  intros Hl Hx. apply NoDup_app; [exact Hl|repeat constructor; intros []|].
  intros a Ha [<-|[]]. contradiction.
Qed.

(** What settling the destination gives when a move is about to happen. *)
Lemma settled_destination (E : env) (fuel : nat) (d : node)
    (source_path dest_dir q : path) :
  setting_is E "handle_duplicates" "rename" "overwrite" = false ->
  Path.wf source_path -> Path.components source_path <> [] ->
  Path.wf dest_dir ->
  (if path_exists E d (Path.join dest_dir (Path.name source_path))
   then handle_duplicate E fuel d source_path
          (Path.join dest_dir (Path.name source_path))
   else Some (Some (Path.join dest_dir (Path.name source_path))))
  = Some (Some q) ->
  path_exists E d q = false
  /\ exists nm, Path.valid_name nm = true /\ q = dest_dir ++ [nm].
Proof.
  intros Hover Hwf Hne Hdd.
  pose proof (name_valid source_path Hwf Hne) as Hnm.
  rewrite (join_single dest_dir _ Hnm).
  set (dest_file := dest_dir ++ [Path.name source_path]).
  assert (Hdf : Path.wf dest_file) by now apply snoc_wf.
  destruct (path_exists E d dest_file) eqn:Hex.
  - unfold handle_duplicate. rewrite Hover.
    destruct (setting_is E "handle_duplicates" "rename" "skip"); [discriminate|].
    destruct (probe E fuel d _ _ _ dest_file 1) as [r|] eqn:Hp; [|discriminate].
    intros [= <-]. destruct (probe_result E d _ _ _ _ _ _ _ Hp) as [Hr [->|[k ->]]].
    + congruence.
    + split; [exact Hr|].
      exists (Spec.probe_name dest_file k). split; [now apply probe_name_valid|].
      fold (Spec.probe_name dest_file k). fold (Spec.candidate dest_file k).
      rewrite (candidate_snoc dest_file k Hdf). unfold dest_file.
      now rewrite (parent_snoc dest_dir _ Hnm).
  - intros [= <-]. split; [exact Hex|]. eauto.
Qed.

(** ** Undoing a pass *)

Lemma undo_attempt_restore (E : env) (G G1 G2 : node)
    (fields : list (string * json)) (s t' : string) :
  Dict.get "source" fields = Some (JStr s) ->
  Dict.get "destination" fields = Some (JStr t') ->
  path_exists E G (Path.of_string t') = true ->
  FS.mkdir_p (resolve E (Path.parent (Path.of_string s))) G = Ok G1 ->
  FS.move (resolve E (Path.of_string t')) (resolve E (Path.of_string s)) G1 = Ok G2 ->
  exists msg, undo_step E G (JObj fields) = (G2, Ok (true, msg)).
Proof.
  intros Hs Ht Hex Hmk Hmv. unfold undo_step, undo_attempt. simpl.
  rewrite !dict_mem_get, Hs, Ht. simpl. rewrite Hex. simpl.
  rewrite Hmk, Hmv. eauto.
Qed.

Lemma undo_step_entry (E : env) (G : node) (p q : path) (t : datetime) (x : string) :
  Path.wf p -> Path.components p <> [] -> Path.wf q ->
  FS.lookup (resolve E q) G = Some (File t x) ->
  FS.lookup (resolve E p) G = None ->
  FS.is_dir (removelast (resolve E p)) G = true ->
  exists msg,
    undo_step E G (log_entry E p q)
    = (after_move G (resolve E q) (resolve E p) t x, Ok (true, msg)).
Proof.
  intros Hp Hpne Hq Hqf Hpf Hpar.
  apply (undo_attempt_restore E G G _ _ (Path.str p) (Path.str q)).
  - reflexivity.
  - reflexivity.
  - rewrite (of_string_str q Hq). unfold path_exists, FS.exists_. now rewrite Hqf.
  - rewrite (of_string_str p Hp), (components_nonempty_parent E p Hpne).
    now apply mkdir_p_existing.
  - rewrite (of_string_str p Hp), (of_string_str q Hq). now apply move_file.
Qed.

Lemma app_wf (root : path) (rel : list string) :
  Path.wf root -> Forall (fun c => Path.valid_name c = true) rel ->
  Path.wf (root ++ rel).
Proof.
  intros Hroot Hrel. revert root Hroot.
  induction Hrel as [|c rel Hc _ IH]; intros root Hroot.
  - now rewrite app_nil_r.
  - change (root ++ c :: rel) with (root ++ [c] ++ rel).
    rewrite app_assoc. apply IH. now apply snoc_wf.
Qed.

Lemma app_components (root : path) (rel : list string) :
  rel <> [] -> Forall (fun c => Path.valid_name c = true) rel ->
  Path.components (root ++ rel) <> [].
Proof.
  intros Hne Hrel. destruct rel as [|c rel] using rev_ind; [contradiction|].
  rewrite app_assoc. apply snoc_components.
  apply Forall_app in Hrel as [_ Hc]. now inversion Hc.
Qed.

(** ** One call of [organize_file], outcome by outcome *)

Lemma startswith_app (p x : string) : Str.startswith p (p ++ x)%string = true.
Proof.
  unfold Str.startswith. induction p as [|c p IH]; simpl.
  - now destruct x.
  - destruct (ascii_dec c c); [exact IH|contradiction].
Qed.

Lemma error_counted (n : nat) (a b : string) :
  S n = (if is_error (false, ("Error moving " ++ a ++ ": " ++ b)%string)
         then S n else n).
Proof.
  unfold is_error. cbn [fst snd negb andb]. now rewrite startswith_app.
Qed.


(** A call that reports failure has moved nothing and logged nothing; at
    most it has created directories, and it counts an error exactly when
    its message says so. *)
Lemma organize_file_failed (E : env) (rules : list (string * json)) (fuel : nat)
    (st st' : state) (p : path) (destination_base : string) (msg : string) :
  organize_file E rules fuel st p destination_base false = Some (st', (false, msg)) ->
  moved st' = moved st /\ undo_log st' = undo_log st
  /\ (fs st' = fs st \/ exists l, FS.mkdir_p l (fs st) = Ok (fs st'))
  /\ errors st' = (if is_error (false, msg) then S (errors st) else errors st).
Proof.
  unfold organize_file. intros H.
  destruct (negb (path_exists E (fs st) p) || path_is_dir E (fs st) p).
  { injection H as <- <-. repeat split; auto. }
  destruct (generate_destination_path E rules (fs st) p destination_base) as [dd|e].
  2: { injection H as <- <-. repeat split; auto.
       exact (error_counted (errors st) (Path.name p) (str_exn e)). }
  cbv zeta in H.
  match type of H with
  | match ?s with _ => _ end = _ => destruct s as [[q|]|]
  end; try discriminate.
  2: { injection H as <- <-. repeat split; auto. }
  unfold move_and_log in H.
  destruct (FS.mkdir_p (resolve E dd) (fs st)) as [d1|e] eqn:Hmk.
  2: { injection H as <- <-. repeat split; auto.
       exact (error_counted (errors st) (Path.name p) (str_exn e)). }
  destruct (FS.move (resolve E p) (resolve E q) d1) as [d2|e]; [discriminate|].
  injection H as <- <-. repeat split; eauto.
  exact (error_counted (errors st) (Path.name p) (str_exn e)).
Qed.








(** ** A whole pass: what it leaves alone, what it counts, where it stops *)





(** *** Counters and the undo log *)

(** What one call adds to the counters and to the log. *)
Lemma organize_file_counted (E : env) (rules : list (string * json)) (fuel : nat)
    (st st' : state) (p : path) (destination_base : string) (r : bool * string) :
  organize_file E rules fuel st p destination_base false = Some (st', r) ->
  moved st' = (if fst r then S (moved st) else moved st)
  /\ errors st' = (if is_error r then S (errors st) else errors st)
  /\ exists q,
       undo_log st'
       = (if fst r && setting_is E "create_undo_log" "True" "True"
          then undo_log st ++ [log_entry E p q]
          else undo_log st).
Proof.
  destruct r as [[|] msg]; intros H.
  - unfold organize_file in H.
    destruct (negb (path_exists E (fs st) p) || path_is_dir E (fs st) p);
      [discriminate|].
    destruct (generate_destination_path E rules (fs st) p destination_base)
      as [dd|e]; [|discriminate].
    cbv zeta in H.
    match type of H with
    | match ?s with _ => _ end = _ => destruct s as [[q|]|]
    end; try discriminate.
    unfold move_and_log in H.
    destruct (FS.mkdir_p (resolve E dd) (fs st)) as [d1|e]; [|discriminate].
    destruct (FS.move (resolve E p) (resolve E q) d1) as [d2|e]; [|discriminate].
    injection H as <- _. cbn [fst andb moved errors undo_log is_error negb].
    split; [reflexivity|]. split; [reflexivity|]. exists q.
    now destruct (setting_is E "create_undo_log" "True" "True").
  - destruct (organize_file_failed E rules fuel st st' p destination_base msg H)
      as (Hm & Hlog & _ & Herr).
    cbn [fst andb]. split; [exact Hm|]. split; [exact Herr|]. now exists p.
Qed.

Lemma organize_each_counted (E : env) (rules : list (string * json)) (fuel : nat)
    (destination_folder : string) :
  forall files i st st' results,
    organize_each E rules fuel i st files destination_folder false
      = Some (st', results) ->
    moved st' = moved st + Spec.count_restored results
    /\ errors st' = errors st + List.length (filter is_error results)
    /\ exists added,
         undo_log st' = undo_log st ++ added
         /\ List.length added
            = (if setting_is E "create_undo_log" "True" "True"
               then Spec.count_restored results else 0)
         /\ Forall (fun e => exists p q, In p files /\ e = log_entry E p q) added.
Proof.
  assert (Hnil : forall st files,
             moved st = moved st + Spec.count_restored []
             /\ errors st = errors st + List.length (filter is_error [])
             /\ exists added,
                  undo_log st = undo_log st ++ added
                  /\ List.length added
                     = (if setting_is E "create_undo_log" "True" "True"
                        then Spec.count_restored [] else 0)
                  /\ Forall (fun e => exists p q, In p files /\ e = log_entry E p q)
                            added).
  { intros st files. unfold Spec.count_restored. simpl. rewrite !Nat.add_0_r.
    split; [reflexivity|]. split; [reflexivity|]. exists [].
    rewrite app_nil_r. split; [reflexivity|]. split; [|constructor].
    now destruct (setting_is E "create_undo_log" "True" "True"). }
  induction files as [|p files IH]; intros i st st' results H; simpl in H.
  { injection H as <- <-. apply Hnil. }
  destruct (running E i); simpl in H; [|injection H as <- <-; apply Hnil].
  destruct (organize_file E rules fuel st p destination_folder false)
    as [[st1 r]|] eqn:Hf; [|discriminate].
  destruct (organize_each E rules fuel (S i) st1 files destination_folder false)
    as [[st2 results']|] eqn:He; [|discriminate].
  injection H as <- <-.
  destruct (organize_file_counted E rules fuel st st1 p destination_folder r Hf)
    as (Hm1 & He1 & q & Hl1).
  destruct (IH (S i) st1 st2 results' He) as (Hm2 & He2 & added & Hl2 & Hlen & Hall).
  unfold Spec.count_restored in *. cbn [filter].
  split; [|split].
  - rewrite Hm2, Hm1. destruct (fst r); simpl; lia.
  - rewrite He2, He1. destruct (is_error r); simpl; lia.
  - exists ((if fst r && setting_is E "create_undo_log" "True" "True"
             then [log_entry E p q] else []) ++ added).
    split; [|split].
    + rewrite Hl2, Hl1.
      destruct (fst r && setting_is E "create_undo_log" "True" "True");
        [now rewrite <- !app_assoc|reflexivity].
    + rewrite length_app, Hlen.
      destruct (fst r), (setting_is E "create_undo_log" "True" "True"); reflexivity.
    + apply Forall_app. split.
      * destruct (fst r && setting_is E "create_undo_log" "True" "True");
          constructor; [|constructor]. exists p, q. split; [now left|reflexivity].
      * eapply Forall_impl; [|exact Hall].
        intros e (p' & q' & Hin & ->). exists p', q'. split; [now right|reflexivity].
Qed.

(** X4.  After a pass that is not a dry run, the [moved] counter has
    grown by the number of results that report success, the [errors]
    counter by the number of results whose message starts with
    [Error moving], and the undo log has been extended, never rewritten:
    by one entry per success when [create_undo_log] is on, each entry
    naming a file of the pass as its source, and by nothing when it is off. *)
Theorem organize_folder_counts_and_logs (E : env) (rules : list (string * json))
    (fuel : nat) (st st' : state) (source_folder destination_folder : string)
    (results : list (bool * string)) :
  organize_folder E rules fuel st source_folder destination_folder false
    = Some (st', FolderDone results) ->
  moved st' = moved st + Spec.count_restored results
  /\ errors st' = errors st + List.length (filter is_error results)
  /\ exists added,
       undo_log st' = undo_log st ++ added
       /\ List.length added
          = (if setting_is E "create_undo_log" "True" "True"
             then Spec.count_restored results else 0)
       /\ Forall (fun e =>
                    exists p q,
                      In p (all_files E (fs st) (Path.of_string source_folder))
                      /\ e = log_entry E p q) added.
Proof.
  unfold organize_folder. intros H.
  destruct (negb (path_exists E (fs st) (Path.of_string source_folder)));
    [discriminate|].
  destruct (organize_each E rules fuel 0 st
              (all_files E (fs st) (Path.of_string source_folder))
              destination_folder false) as [[st1 results1]|] eqn:He; [|discriminate].
  injection H as <- <-.
  exact (organize_each_counted E rules fuel destination_folder _ 0 st st1 results1 He).
Qed.

Lemma organize_folder_counts_and_logs_witness :
  let E := Scenario.env_with "rename" in
  let st := mkState Scenario.two_photos 7 2 [JNull] in
  exists st' results,
    organize_folder E default_rules 1 st "/S" "/D" false
    = Some (st', FolderDone results)
    /\ moved st' = 7 + Spec.count_restored results
    /\ errors st' = 2 + List.length (filter is_error results)
    /\ exists added,
         undo_log st' = [JNull] ++ added
         /\ List.length added = Spec.count_restored results.
Proof.
  intros E st.
  assert (H : exists st' results,
             organize_folder E default_rules 1 st "/S" "/D" false
             = Some (st', FolderDone results)) by (vm_compute; eauto).
  destruct H as (st' & results & H). exists st', results. split; [exact H|].
  destruct (organize_folder_counts_and_logs E default_rules 1 st st' "/S" "/D"
              results H) as (Hm & He & added & Hl & Hlen & _).
  split; [exact Hm|]. split; [exact He|]. exists added. split; [exact Hl|exact Hlen].
Defined.

(** *** Cancelling *)

Lemma organize_each_cancelled (E : env) (rules : list (string * json)) (fuel : nat)
    (destination_folder : string) (dry_run : bool) :
  forall k files i st,
    (forall j, j < k -> running E (i + j) = true) ->
    running E (i + k) = false ->
    organize_each E rules fuel i st files destination_folder dry_run
    = organize_each E rules fuel i st (firstn k files) destination_folder dry_run.
Proof.
  induction k as [|k IH]; intros files i st Hrun Hstop.
  - rewrite Nat.add_0_r in Hstop. destruct files as [|p files]; [reflexivity|].
    simpl. now rewrite Hstop.
  - destruct files as [|p files]; [reflexivity|]. simpl.
    destruct (running E i); simpl; [|reflexivity].
    destruct (organize_file E rules fuel st p destination_folder dry_run)
      as [[st1 outcome]|]; [|reflexivity].
    rewrite (IH files (S i) st1); [reflexivity| |].
    + intros j Hj. replace (S i + j) with (i + S j) by lia. apply Hrun. lia.
    + now replace (S i + k) with (i + S k) by lia.
Qed.

Lemma organize_each_length (E : env) (rules : list (string * json)) (fuel : nat)
    (destination_folder : string) (dry_run : bool) :
  forall files i st st' results,
    (forall j, j < List.length files -> running E (i + j) = true) ->
    organize_each E rules fuel i st files destination_folder dry_run
      = Some (st', results) ->
    List.length results = List.length files.
Proof.
  induction files as [|p files IH]; intros i st st' results Hrun H; simpl in H.
  { now injection H as _ <-. }
  rewrite <- (Nat.add_0_r i) in H at 1. rewrite Hrun in H by (simpl; lia).
  simpl in H.
  destruct (organize_file E rules fuel st p destination_folder dry_run)
    as [[st1 outcome]|]; [|discriminate].
  destruct (organize_each E rules fuel (S i) st1 files destination_folder dry_run)
    as [[st2 results']|] eqn:He; [|discriminate].
  injection H as _ <-. simpl. f_equal. apply (IH (S i) st1 st2 results'); [|exact He].
  intros j Hj. replace (S i + j) with (i + S j) by lia. apply Hrun. simpl. lia.
Qed.

(** X5.  When the [running] flag is found cleared at the poll before the
    file of index [k], and not earlier, [organize_folder] does exactly
    what a pass over the first [k] files of the walk does: it returns
    their results, one per file and in order, and goes no further. *)
Theorem organize_folder_cancelled_stops_at_the_poll (E : env)
    (rules : list (string * json)) (fuel : nat) (st st' : state)
    (source_folder destination_folder : string) (dry_run : bool) (k : nat)
    (results : list (bool * string)) :
  (forall j, j < k -> running E j = true) ->
  running E k = false ->
  organize_folder E rules fuel st source_folder destination_folder dry_run
    = Some (st', FolderDone results) ->
  let files := all_files E (fs st) (Path.of_string source_folder) in
  organize_each E rules fuel 0 st (firstn k files) destination_folder dry_run
    = Some (st', results)
  /\ List.length results = Nat.min k (List.length files).
Proof.
  intros Hrun Hstop H files. unfold organize_folder in H. fold files in H.
  destruct (negb (path_exists E (fs st) (Path.of_string source_folder)));
    [discriminate|].
  rewrite (organize_each_cancelled E rules fuel destination_folder dry_run
             k files 0 st Hrun Hstop) in H.
  destruct (organize_each E rules fuel 0 st (firstn k files) destination_folder
              dry_run) as [[st1 results1]|] eqn:He; [|discriminate].
  injection H as <- <-. split; [reflexivity|].
  rewrite <- length_firstn.
  apply (organize_each_length E rules fuel destination_folder dry_run
           (firstn k files) 0 st st1 results1); [|exact He].
  intros j Hj. apply Hrun. rewrite length_firstn in Hj. simpl. lia.
Qed.

Lemma organize_folder_cancelled_stops_at_the_poll_witness :
  let E := mkEnv ["home"; "user"]
                 [("handle_duplicates", "rename"); ("create_undo_log", "True")]
                 (mkDate 2024 1 1 12 0 0) (fun i => (i <? 1)%nat) (fun _ => true) in
  let st := Scenario.fresh Scenario.two_photos in
  (forall j, j < 1 -> running E j = true)
  /\ running E 1 = false
  /\ exists st' results,
       organize_folder E default_rules 1 st "/S" "/D" false
       = Some (st', FolderDone results)
       /\ List.length results = 1
       /\ FS.lookup ["S"; "b"; "photo.jpg"] (fs st')
          = Some (File Scenario.stamp "second").
Proof.
  intros E st.
  assert (Hrun : forall j, j < 1 -> running E j = true).
  { intros j Hj. simpl. apply Nat.ltb_lt. exact Hj. }
  assert (Hstop : running E 1 = false) by reflexivity.
  assert (H : exists st' results,
             organize_folder E default_rules 1 st "/S" "/D" false
             = Some (st', FolderDone results)
             /\ FS.lookup ["S"; "b"; "photo.jpg"] (fs st')
                = Some (File Scenario.stamp "second"))
    by (vm_compute; eauto).
  destruct H as (st' & results & H & Hkept).
  split; [exact Hrun|]. split; [exact Hstop|].
  exists st', results. split; [exact H|]. split; [|exact Hkept].
  destruct (organize_folder_cancelled_stops_at_the_poll E default_rules 1 st st'
              "/S" "/D" false 1 results Hrun Hstop H) as [_ Hlen].
  rewrite Hlen. reflexivity.
Defined.

(** ** Moving onto an existing file *)

Lemma removelast_is_prefix (l : FS.loc) : FS.is_prefix (removelast l) l = true.
Proof.
  destruct l as [|c l] using rev_ind; [reflexivity|].
  rewrite removelast_last. apply is_prefix_app.
Qed.

Lemma move_file_onto (src dst : FS.loc) (F : node) (t t' : datetime) (x x' : string) :
  FS.lookup src F = Some (File t x) ->
  FS.lookup dst F = Some (File t' x') ->
  src <> dst ->
  FS.move src dst F = Ok (after_move F src dst t x)
  /\ FS.lookup dst (after_move F src dst t x) = Some (File t x)
  /\ FS.lookup src (after_move F src dst t x) = None.
Proof.
  intros Hsrc Hdst Hne.
  destruct (files_apart F src dst t t' x x' Hsrc Hdst Hne) as [Hsd Hds].
  assert (Hdne : dst <> []).
  { intros ->. simpl in Hdst. injection Hdst as ->.
    destruct src; [now apply Hne|discriminate]. }
  assert (Hpar : FS.is_dir (removelast dst) F = true)
    by (eapply lookup_parent_is_dir; eauto).
  pose proof (move_src_nonempty F src dst t x Hsrc Hpar) as Hsne.
  split; [|split].
  - assert (Hnd : FS.is_dir dst F = false) by (unfold FS.is_dir; now rewrite Hdst).
    unfold FS.move. rewrite Hnd. cbn [andb]. rewrite Hsrc.
    destruct (FS.loc_eqb src dst) eqn:Heq; [apply loc_eqb_eq in Heq; contradiction|].
    now rewrite Hsd, Hpar.
  - unfold after_move. apply lookup_put_same; [exact Hdne|].
    rewrite is_dir_remove; [exact Hpar|]. eapply file_not_above_dir; eauto.
  - unfold after_move. rewrite lookup_put_unrelated by assumption.
    now apply lookup_remove_same.
Qed.

Lemma setting_is_exclusive (E : env) (key fallback a b : string) :
  setting_is E key fallback a = true -> a <> b ->
  setting_is E key fallback b = false.
Proof.
  unfold setting_is. destruct (get_setting (settings E) key (Some fallback)) as [v|];
    [|discriminate].
  intros Ha Hne. apply String.eqb_eq in Ha. subst v. now apply String.eqb_neq.
Qed.

(** X6.  Under the [overwrite] policy, [organize_file] replaces a file
    that already sits at the destination: afterwards the destination
    holds the content of the source, the previous content of the
    destination is gone, and the call reports an ordinary move. *)
Theorem organize_file_overwrite_replaces (E : env) (rules : list (string * json))
    (fuel : nat) (st : state) (p dd : path) (destination_base : string)
    (t t' : datetime) (x x' : string) :
  setting_is E "handle_duplicates" "rename" "overwrite" = true ->
  Path.wf p -> Path.components p <> [] ->
  FS.lookup (resolve E p) (fs st) = Some (File t x) ->
  generate_destination_path E rules (fs st) p destination_base = Ok dd ->
  FS.lookup (resolve E (Path.join dd (Path.name p))) (fs st) = Some (File t' x') ->
  resolve E (Path.join dd (Path.name p)) <> resolve E p ->
  exists st',
    organize_file E rules fuel st p destination_base false
    = Some (st', (true, ("Moved " ++ Path.name p ++ " -> "
                         ++ Path.str (Path.join dd (Path.name p)))%string))
    /\ FS.lookup (resolve E (Path.join dd (Path.name p))) (fs st') = Some (File t x)
    /\ FS.lookup (resolve E p) (fs st') = None
    /\ moved st' = S (moved st) /\ errors st' = errors st.
Proof.
  intros Hover Hpwf Hpne Hp Hgen Hq Hne.
  pose proof (name_valid p Hpwf Hpne) as Hnm.
  set (q := Path.join dd (Path.name p)) in *.
  assert (Hrq : resolve E q = resolve E dd ++ [Path.name p]).
  { unfold q. rewrite (join_single dd _ Hnm).
    apply resolve_snoc. now apply valid_name_not_anchor. }
  assert (Hdir : FS.is_dir (resolve E dd) (fs st) = true).
  { rewrite <- (removelast_last (resolve E dd) (Path.name p)), <- Hrq.
    apply (lookup_parent_is_dir _ _ (File t' x')); [|exact Hq].
    rewrite Hrq. intros Hnil. apply app_eq_nil in Hnil as [_ Hnil]. discriminate. }
  destruct (move_file_onto (resolve E p) (resolve E q) (fs st) t t' x x' Hp Hq)
    as (Hmv & Hq' & Hp'); [congruence|].
  unfold organize_file, path_exists, path_is_dir, FS.exists_, FS.is_dir.
  rewrite Hp, Hgen. cbn [negb orb]. cbv zeta. fold q. rewrite Hq.
  unfold handle_duplicate.
  rewrite (setting_is_exclusive E _ _ "overwrite" "skip" Hover) by discriminate.
  rewrite Hover. unfold move_and_log.
  rewrite (mkdir_p_existing _ _ Hdir), Hmv.
  eexists. split; [reflexivity|]. simpl. auto.
Qed.

Lemma organize_file_overwrite_replaces_witness :
  let E := Scenario.env_with "overwrite" in
  let d := Dir [("S", Dir [("x.mp3", File Scenario.stamp "new")]);
                ("D", Dir [("Audio", Dir [("x.mp3", File Scenario.stamp "old")])])] in
  let st := Scenario.fresh d in
  exists st',
    organize_file E default_rules 0 st ["/"; "S"; "x.mp3"] "/D" false
    = Some (st', (true, "Moved x.mp3 -> /D/Audio/x.mp3"))
    /\ FS.lookup ["D"; "Audio"; "x.mp3"] (fs st') = Some (File Scenario.stamp "new")
    /\ FS.lookup ["S"; "x.mp3"] (fs st') = None.
Proof.
  intros E d st.
  destruct (organize_file_overwrite_replaces E default_rules 0 st
              ["/"; "S"; "x.mp3"] ["/"; "D"; "Audio"] "/D"
              Scenario.stamp Scenario.stamp "new" "old")
    as (st' & H & Hq & Hp & _);
    [reflexivity|unfold Path.wf; simpl; repeat constructor|discriminate
    |reflexivity|reflexivity|reflexivity|discriminate|].
  exists st'. split; [exact H|]. split; [exact Hq|exact Hp].
Defined.

(** ** Undo when the original place has changed *)

Lemma mkdir_p_succeeds (l : FS.loc) :
  forall F,
    (forall a t x, FS.is_prefix a l = true -> FS.lookup a F <> Some (File t x)) ->
    exists F', FS.mkdir_p l F = Ok F'.
Proof.
  induction l as [|c l IH]; intros F Hfree.
  - destruct F as [t x|es]; [|now exists (Dir es)].
    exfalso. now apply (Hfree [] t x).
  - destruct F as [t x|es]; [exfalso; now apply (Hfree [] t x)|].
    rewrite mkdir_p_cons.
    destruct (IH match Dict.get c es with Some ch => ch | None => Dir [] end)
      as [ch' Hch].
    + intros a t x Ha Hl. apply (Hfree (c :: a) t x).
      * simpl. now rewrite String.eqb_refl.
      * simpl. destruct (Dict.get c es) as [ch|]; [exact Hl|].
        destruct a; discriminate.
    + rewrite Hch. simpl. eauto.
Qed.

Lemma tool_undo_attempt_restore (E : env) (G G1 G2 : node)
    (fields : list (string * json)) (s t' : string) (i : nat) :
  Dict.get "source" fields = Some (JStr s) ->
  Dict.get "destination" fields = Some (JStr t') ->
  path_exists E G (Path.of_string t') = true ->
  FS.mkdir_p (resolve E (Path.parent (Path.of_string s))) G = Ok G1 ->
  FS.move (resolve E (Path.of_string t')) (resolve E (Path.of_string s)) G1 = Ok G2 ->
  UndoTool.undo_step E i G (JObj fields) = (G2, Ok true).
Proof.
  intros Hs Ht Hex Hmk Hmv. unfold UndoTool.undo_step, UndoTool.undo_attempt. simpl.
  rewrite Hs, Ht. simpl. rewrite Hex. simpl. now rewrite Hmk, Hmv.
Qed.

(** X7.  Undo brings a file back even when the folder it came from has
    been deleted since: provided that the file is still where the log
    says, that its original place is free and that no file stands where
    one of the original folders has to be, one undo step of the method
    and of the standalone tool recreates the folders and puts the file,
    unchanged, at its original place. *)
Theorem undo_recreates_missing_folders (E : env) (G : node) (p q : path)
    (t : datetime) (x : string) (i : nat) :
  Path.wf p -> Path.components p <> [] -> Path.wf q ->
  FS.lookup (resolve E q) G = Some (File t x) ->
  FS.lookup (resolve E p) G = None ->
  (forall a t' x', FS.is_prefix a (resolve E p) = true ->
                   FS.lookup a G <> Some (File t' x')) ->
  exists G' msg,
    undo_step E G (log_entry E p q) = (G', Ok (true, msg))
    /\ UndoTool.undo_step E i G (log_entry E p q) = (G', Ok true)
    /\ FS.lookup (resolve E p) G' = Some (File t x)
    /\ FS.lookup (resolve E q) G' = None
    /\ FS.is_dir (removelast (resolve E p)) G' = true.
Proof.
  intros Hp Hpne Hq Hqf Hpf Hfree.
  set (rp := resolve E p) in *. set (rq := resolve E q) in *.
  assert (Hrpne : rp <> []) by (intros Hnil; rewrite Hnil in Hpf; discriminate).
  destruct (mkdir_p_succeeds (removelast rp) G) as [G1 Hmk].
  { intros a t' x' Ha. apply Hfree.
    exact (is_prefix_trans _ _ _ Ha (removelast_is_prefix rp)). }
  assert (Hq1 : FS.lookup rq G1 = Some (File t x))
    by (eapply lookup_mkdir_p_file; eauto).
  assert (Hp1 : FS.lookup rp G1 = None).
  { rewrite (lookup_mkdir_p _ _ G1 rp Hmk); [exact Hpf|].
    rewrite (app_removelast_last EmptyString Hrpne) at 1. apply is_prefix_longer. }
  assert (Hpar1 : FS.is_dir (removelast rp) G1 = true)
    by (eapply is_dir_mkdir_p_target; eauto).
  exists (after_move G1 rq rp t x).
  assert (Hex : path_exists E G (Path.of_string (Path.str q)) = true).
  { rewrite (of_string_str q Hq). unfold path_exists, FS.exists_. fold rq.
    now rewrite Hqf. }
  assert (Hmk' : FS.mkdir_p (resolve E (Path.parent (Path.of_string (Path.str p)))) G
                 = Ok G1).
  { now rewrite (of_string_str p Hp), (components_nonempty_parent E p Hpne). }
  assert (Hmv : FS.move (resolve E (Path.of_string (Path.str q)))
                        (resolve E (Path.of_string (Path.str p))) G1
                = Ok (after_move G1 rq rp t x)).
  { rewrite (of_string_str p Hp), (of_string_str q Hq). now apply move_file. }
  assert (Hstep : exists msg, undo_step E G (log_entry E p q)
                              = (after_move G1 rq rp t x, Ok (true, msg))).
  { apply (undo_attempt_restore E G G1 _ _ (Path.str p) (Path.str q));
      [reflexivity|reflexivity|exact Hex|exact Hmk'|exact Hmv]. }
  destruct Hstep as [msg Hstep].
  exists msg. split; [exact Hstep|].
  split.
  { apply (tool_undo_attempt_restore E G G1 _ _ (Path.str p) (Path.str q) i);
      [reflexivity|reflexivity|exact Hex|exact Hmk'|exact Hmv]. }
  split; [now apply after_move_dst|]. split; [now apply after_move_src|].
  now apply after_move_is_dir.
Qed.

Lemma undo_recreates_missing_folders_witness :
  let E := Scenario.env_with "rename" in
  let G := Dir [("D", Dir [("a.txt", File Scenario.stamp "text")])] in
  let p := ["/"; "S"; "docs"; "a.txt"] in
  let q := ["/"; "D"; "a.txt"] in
  FS.lookup (resolve E p) G = None
  /\ FS.lookup ["S"] G = None
  /\ exists G' msg,
       undo_step E G (log_entry E p q) = (G', Ok (true, msg))
       /\ FS.lookup (resolve E p) G' = Some (File Scenario.stamp "text").
Proof.
  intros E G p q. split; [reflexivity|]. split; [reflexivity|].
  destruct (undo_recreates_missing_folders E G p q Scenario.stamp "text" 0)
    as (G' & msg & Hstep & _ & Hp & _).
  - unfold Path.wf. simpl. repeat constructor.
  - discriminate.
  - unfold Path.wf. simpl. repeat constructor.
  - reflexivity.
  - reflexivity.
  - intros a t' x' Ha Hl. destruct a as [|c a]; [discriminate Hl|].
    change (resolve E p) with ["S"; "docs"; "a.txt"] in Ha.
    cbn [FS.is_prefix] in Ha. apply andb_prop in Ha as [Hc _].
    apply String.eqb_eq in Hc. subst c. vm_compute in Hl. discriminate Hl.
  - exists G', msg. split; [exact Hstep|exact Hp].
Defined.

(** X8.  Undo does not look at what is at the original place: when
    another file has appeared there in the meantime, one undo step of
    the method and of the standalone tool replaces it by the file that
    comes back, and reports the step as restored. *)
Theorem undo_replaces_a_newer_file (E : env) (G : node) (p q : path)
    (t t' : datetime) (x x' : string) (i : nat) :
  Path.wf p -> Path.components p <> [] -> Path.wf q ->
  FS.lookup (resolve E q) G = Some (File t x) ->
  FS.lookup (resolve E p) G = Some (File t' x') ->
  resolve E q <> resolve E p ->
  exists G' msg,
    undo_step E G (log_entry E p q) = (G', Ok (true, msg))
    /\ UndoTool.undo_step E i G (log_entry E p q) = (G', Ok true)
    /\ FS.lookup (resolve E p) G' = Some (File t x)
    /\ FS.lookup (resolve E q) G' = None.
Proof.
  intros Hp Hpne Hq Hqf Hpf Hne.
  destruct (move_file_onto (resolve E q) (resolve E p) G t t' x x' Hqf Hpf Hne)
    as (Hmv & Hp' & Hq').
  assert (Hpar : FS.is_dir (removelast (resolve E p)) G = true).
  { apply (lookup_parent_is_dir _ _ (File t' x')); [|exact Hpf].
    intros Hnil. rewrite Hnil in Hpf. simpl in Hpf. injection Hpf as ->.
    destruct (resolve E q); [now apply Hne|discriminate]. }
  assert (Hex : path_exists E G (Path.of_string (Path.str q)) = true).
  { rewrite (of_string_str q Hq). unfold path_exists, FS.exists_. now rewrite Hqf. }
  assert (Hmk : FS.mkdir_p (resolve E (Path.parent (Path.of_string (Path.str p)))) G
                = Ok G).
  { rewrite (of_string_str p Hp), (components_nonempty_parent E p Hpne).
    now apply mkdir_p_existing. }
  assert (Hmv' : FS.move (resolve E (Path.of_string (Path.str q)))
                         (resolve E (Path.of_string (Path.str p))) G
                 = Ok (after_move G (resolve E q) (resolve E p) t x)).
  { now rewrite (of_string_str p Hp), (of_string_str q Hq). }
  assert (Hstep : exists msg, undo_step E G (log_entry E p q)
                              = (after_move G (resolve E q) (resolve E p) t x,
                                 Ok (true, msg))).
  { apply (undo_attempt_restore E G G _ _ (Path.str p) (Path.str q));
      [reflexivity|reflexivity|exact Hex|exact Hmk|exact Hmv']. }
  destruct Hstep as [msg Hstep].
  exists (after_move G (resolve E q) (resolve E p) t x), msg.
  split; [exact Hstep|].
  split.
  { apply (tool_undo_attempt_restore E G G _ _ (Path.str p) (Path.str q) i);
      [reflexivity|reflexivity|exact Hex|exact Hmk|exact Hmv']. }
  split; [exact Hp'|exact Hq'].
Qed.

Lemma undo_replaces_a_newer_file_witness :
  let E := Scenario.env_with "rename" in
  let G := Dir [("S", Dir [("a.txt", File Scenario.stamp "newer")]);
                ("D", Dir [("a.txt", File Scenario.stamp "organized")])] in
  let p := ["/"; "S"; "a.txt"] in
  let q := ["/"; "D"; "a.txt"] in
  FS.lookup (resolve E p) G = Some (File Scenario.stamp "newer")
  /\ exists G' msg,
       undo_step E G (log_entry E p q) = (G', Ok (true, msg))
       /\ FS.lookup (resolve E p) G' = Some (File Scenario.stamp "organized").
Proof.
  intros E G p q. split; [reflexivity|].
  destruct (undo_replaces_a_newer_file E G p q Scenario.stamp Scenario.stamp
              "organized" "newer" 0)
    as (G' & msg & Hstep & _ & Hp & _).
  - unfold Path.wf. simpl. repeat constructor.
  - discriminate.
  - unfold Path.wf. simpl. repeat constructor.
  - reflexivity.
  - reflexivity.
  - discriminate.
  - exists G', msg. split; [exact Hstep|exact Hp].
Defined.

(** ** The standalone tool and the method *)

Lemma undo_steps_agree (E : env) (i : nat) (d : node) (fields : list (string * json)) :
  exists d' r,
    undo_step E d (JObj fields) = (d', Ok r)
    /\ UndoTool.undo_step E i d (JObj fields) = (d', Ok (fst r)).
Proof.
  unfold undo_step, undo_attempt, UndoTool.undo_step, UndoTool.undo_attempt.
  cbn [Py.contains Py.getitem Py.get bind]. rewrite !dict_mem_get.
  destruct (Dict.get "source" fields) as [sv|];
    destruct (Dict.get "destination" fields) as [dv|]; cbn [bind].
  - destruct (Py.as_str sv) as [s|e1]; cbn [bind];
      [destruct (Py.as_str dv) as [t|e2]; cbn [bind]|];
      try (destruct (i <? 10)%nat; eexists _, (_, _); split; reflexivity).
    destruct (negb (path_exists E d (Path.of_string t)));
      [eexists _, (_, _); split; reflexivity|].
    destruct (FS.mkdir_p (resolve E (Path.parent (Path.of_string s))) d) as [d1|e3];
      [|destruct (i <? 10)%nat; eexists _, (_, _); split; reflexivity].
    destruct (FS.move (resolve E (Path.of_string t)) (resolve E (Path.of_string s)) d1);
      [|destruct (i <? 10)%nat]; eexists _, (_, _); split; reflexivity.
  - destruct (Py.as_str sv); cbn [bind];
      destruct (i <? 10)%nat; eexists _, (_, _); split; reflexivity.
  - destruct (i <? 10)%nat; eexists _, (_, _); split; reflexivity.
  - destruct (i <? 10)%nat; eexists _, (_, _); split; reflexivity.
Qed.

Lemma undo_loops_agree (E : env) :
  (forall i, running E i = true) ->
  forall ops i d t,
    Forall (fun op => Spec.is_object op = true) ops ->
    exists d' rs,
      undo_each E i d t ops
      = (d', Ok (mkTally (results t ++ rs)
                         (successful_undos t + Spec.count_restored rs)
                         (failed_undos t + Spec.count_failed rs)))
      /\ forall s f,
           UndoTool.undo_each E i d s f ops
           = (d', Ok (s + Spec.count_restored rs, f + Spec.count_failed rs)).
Proof.
  intros Hrun. induction ops as [|op ops IH]; intros i d t Hobj.
  - exists d, []. simpl. rewrite app_nil_r, !Nat.add_0_r.
    split; [now destruct t|]. intros s f. now rewrite !Nat.add_0_r.
  - inversion Hobj as [|? ? Hop Hrest]; subst.
    destruct op as [| | | | |fields]; try discriminate.
    destruct (undo_steps_agree E i d fields) as (d1 & r & Hstep & Htool).
    destruct (IH (S i) d1 (record_result t r) Hrest) as (d2 & rs & Heach & Heach').
    exists d2, (r :: rs). split.
    + simpl. rewrite Hrun, Hstep. simpl. rewrite Heach.
      unfold record_result, Spec.count_restored, Spec.count_failed.
      destruct r as [[|] msg]; simpl; rewrite <- app_assoc; simpl;
        repeat f_equal; lia.
    + intros s f. cbn [UndoTool.undo_each]. rewrite Htool.
      unfold Spec.count_restored, Spec.count_failed in *.
      destruct r as [[|] msg]; cbn [fst filter negb List.length];
        rewrite Heach'; do 3 f_equal; lia.
Qed.

Lemma tool_cleanup_keeps_files (E : env) (home : path) (d : node)
    (l : FS.loc) (t : datetime) (x : string) :
  FS.lookup l d = Some (File t x) ->
  FS.lookup l (UndoTool.cleanup_empty_dirs E home d) = Some (File t x).
Proof.
  intros H. unfold UndoTool.cleanup_empty_dirs.
  destruct (find (UndoTool.located E d) (UndoTool.possible_dirs home)) as [base|];
    [|exact H].
  unfold UndoTool.cleanup_dir_tree.
  destruct (UndoTool.locate E d base) as [b|]; [|exact H].
  apply lookup_alter_file; [|exact H].
  intros r n t' x'. apply cleanup_tree_keeps_files.
Qed.

Lemma confirmed_goes_ahead (auto_confirm : bool) (answer : string) :
  confirmed auto_confirm answer = true ->
  negb auto_confirm
  && negb (String.eqb (Str.lower (Str.strip answer)) "y"
           || String.eqb (Str.lower (Str.strip answer)) "yes") = false.
Proof.
  unfold confirmed. destruct auto_confirm; [reflexivity|]. simpl.
  now intros ->.
Qed.

(** X9.  On a log that is a non-empty list of records, and with no
    cancellation, the standalone tool (confirmed) and the method
    [undo_organization] do the same work: their loops leave the same
    disk, the tool's two counters are the numbers of successful and of
    failed results of the method, and the two runs differ only in the
    tree that is cleaned of empty directories afterwards, which loses no
    file in either. *)
Theorem undo_tool_agrees_with_method (E : env) (home : path)
    (auto_confirm : bool) (answer : string) (d : node) (ops : list json) :
  confirmed auto_confirm answer = true ->
  (forall i, running E i = true) ->
  Forall (fun op => Spec.is_object op = true) ops ->
  ops <> [] ->
  exists d' results summary,
    undo_organization E d (Ok (JArr ops))
    = (_cleanup_empty_dirs E d', Ok (UndoDone results summary))
    /\ UndoTool.undo_organization E home auto_confirm answer d (Ok (JArr ops))
       = (UndoTool.cleanup_empty_dirs E home d',
          Ok (UndoTool.Completed (Spec.count_restored results)
                                 (Spec.count_failed results)))
    /\ forall l t x,
         FS.lookup l d' = Some (File t x) ->
         FS.lookup l (_cleanup_empty_dirs E d') = Some (File t x)
         /\ FS.lookup l (UndoTool.cleanup_empty_dirs E home d') = Some (File t x).
Proof.
  intros Hconf Hrun Hobj Hne.
  destruct (undo_loops_agree E Hrun (rev ops) 0 d (mkTally [] 0 0))
    as (d' & rs & Heach & Htool); [now apply Forall_rev|].
  assert (Htruthy : Py.truthy (JArr ops) = true)
    by (destruct ops; [contradiction|reflexivity]).
  exists d', rs. eexists. split; [|split].
  - unfold undo_organization. rewrite Htruthy. cbn [negb]. rewrite Heach.
    reflexivity.
  - unfold UndoTool.undo_organization. rewrite Htruthy.
    cbn [negb UndoTool.len]. cbv zeta.
    rewrite (confirmed_goes_ahead _ _ Hconf). now rewrite Htool.
  - intros l t x H. split; [now apply cleanup_empty_dirs_keeps_files|].
    now apply tool_cleanup_keeps_files.
Qed.

Lemma undo_tool_agrees_with_method_witness :
  let E := Scenario.env_with "rename" in
  let d := Dir [("D", Dir [("a.txt", File Scenario.stamp "text")]); ("S", Dir [])] in
  let ops := [log_entry E ["/"; "S"; "a.txt"] ["/"; "D"; "a.txt"]] in
  confirmed false " Yes" = true
  /\ (forall i, running E i = true)
  /\ Forall (fun op => Spec.is_object op = true) ops
  /\ exists d' results summary,
       undo_organization E d (Ok (JArr ops))
       = (_cleanup_empty_dirs E d', Ok (UndoDone results summary))
       /\ UndoTool.undo_organization E ["/"; "home"; "user"] false " Yes" d
            (Ok (JArr ops))
          = (UndoTool.cleanup_empty_dirs E ["/"; "home"; "user"] d',
             Ok (UndoTool.Completed (Spec.count_restored results)
                                    (Spec.count_failed results))).
Proof.
  intros E d ops.
  assert (Hrun : forall i, running E i = true) by reflexivity.
  assert (Hobj : Forall (fun op => Spec.is_object op = true) ops)
    by (repeat constructor).
  assert (Hconf : confirmed false " Yes" = true) by reflexivity.
  split; [exact Hconf|]. split; [exact Hrun|]. split; [exact Hobj|].
  destruct (undo_tool_agrees_with_method E ["/"; "home"; "user"] false " Yes" d ops
              Hconf Hrun Hobj)
    as (d' & results & summary & Hm & Ht & _); [discriminate|].
  exists d', results, summary. split; [exact Hm|exact Ht].
Defined.

(** *** The tool never gives up on a bad entry after the tenth *)

Lemma tool_step_total (E : env) (i : nat) (d : node) (op : json) :
  (i < 10 -> Spec.is_object op = true) ->
  exists d' b, UndoTool.undo_step E i d op = (d', Ok b).
Proof.
  intros Hop. unfold UndoTool.undo_step.
  destruct (UndoTool.undo_attempt E d op) as [d' [b|e]]; [eauto|].
  destruct (i <? 10)%nat eqn:Hi; [|eauto].
  apply Nat.ltb_lt in Hi. specialize (Hop Hi).
  destruct op as [| | | | |fields]; try discriminate.
  simpl. destruct (Dict.get "destination" fields); simpl; eauto.
Qed.

Lemma tool_loop_total (E : env) :
  forall ops i d s f,
    Forall (fun op => Spec.is_object op = true) (firstn (10 - i) ops) ->
    exists d' s' f',
      UndoTool.undo_each E i d s f ops = (d', Ok (s', f'))
      /\ s' + f' = s + f + List.length ops.
Proof.
  induction ops as [|op ops IH]; intros i d s f Hobj.
  - exists d, s, f. split; [reflexivity|simpl; lia].
  - destruct (tool_step_total E i d op) as (d1 & b & Hstep).
    { intros Hi. destruct (10 - i) as [|k] eqn:Hk; [lia|].
      simpl in Hobj. now inversion Hobj. }
    assert (Hrest : Forall (fun op => Spec.is_object op = true)
                           (firstn (10 - S i) ops)).
    { destruct (10 - i) as [|k] eqn:Hk.
      - replace (10 - S i) with 0 by lia. constructor.
      - replace (10 - S i) with k by lia. simpl in Hobj. now inversion Hobj. }
    cbn [UndoTool.undo_each]. rewrite Hstep. destruct b.
    + destruct (IH (S i) d1 (S s) f Hrest) as (d' & s' & f' & He & Hsum).
      exists d', s', f'. split; [exact He|simpl; lia].
    + destruct (IH (S i) d1 s (S f) Hrest) as (d' & s' & f' & He & Hsum).
      exists d', s', f'. split; [exact He|simpl; lia].
Qed.

(** X10.  The standalone tool, once confirmed, works through the whole
    of a non-empty log whose last ten entries are records, whatever the
    earlier entries are: it raises nothing, returns [True], and counts
    every entry exactly once, as restored or as failed. *)
Theorem undo_tool_counts_every_entry (E : env) (home : path)
    (auto_confirm : bool) (answer : string) (d : node) (ops : list json) :
  confirmed auto_confirm answer = true ->
  ops <> [] ->
  Forall (fun op => Spec.is_object op = true) (firstn 10 (rev ops)) ->
  exists d' successful failed,
    UndoTool.undo_organization E home auto_confirm answer d (Ok (JArr ops))
    = (d', Ok (UndoTool.Completed successful failed))
    /\ successful + failed = List.length ops.
Proof.
  intros Hconf Hne Hobj.
  destruct (tool_loop_total E (rev ops) 0 d 0 0 Hobj) as (d' & s & f & He & Hsum).
  assert (Htruthy : Py.truthy (JArr ops) = true)
    by (destruct ops; [contradiction|reflexivity]).
  exists (UndoTool.cleanup_empty_dirs E home d'), s, f.
  unfold UndoTool.undo_organization. rewrite Htruthy.
  cbn [negb UndoTool.len]. cbv zeta. rewrite (confirmed_goes_ahead _ _ Hconf), He.
  split; [reflexivity|].
  rewrite length_rev in Hsum. exact Hsum.
Qed.

Lemma undo_tool_counts_every_entry_witness :
  let E := Scenario.env_with "rename" in
  let d := Dir [("D", Dir [("a.txt", File Scenario.stamp "text")]); ("S", Dir [])] in
  let ops := [log_entry E ["/"; "S"; "a.txt"] ["/"; "D"; "a.txt"];
              log_entry E ["/"; "S"; "b.txt"] ["/"; "D"; "b.txt"]] in
  Forall (fun op => Spec.is_object op = true) (firstn 10 (rev ops))
  /\ exists d' successful failed,
       UndoTool.undo_organization E ["/"; "home"; "user"] true "" d (Ok (JArr ops))
       = (d', Ok (UndoTool.Completed successful failed))
       /\ successful + failed = 2.
Proof.
  intros E d ops.
  assert (Hobj : Forall (fun op => Spec.is_object op = true) (firstn 10 (rev ops)))
    by (repeat constructor).
  split; [exact Hobj|].
  apply (undo_tool_counts_every_entry E ["/"; "home"; "user"] true "" d ops);
    [reflexivity|discriminate|exact Hobj].
Defined.

(** ** What the clean-up leaves behind *)

Lemma no_empty_dir_dir (es : list (string * node)) :
  no_empty_dir (Dir es)
  = forallb (fun e : string * node =>
               match snd e with
               | Dir [] => false
               | ch => no_empty_dir ch
               end) es.
Proof.
  induction es as [|[k ch] es IH]; [reflexivity|].
  cbn [forallb snd]. rewrite <- IH. destruct ch as [t x|[|e l]]; reflexivity.
Qed.

Lemma cleanup_tree_no_empty (E : env) :
  (forall l, may_rmdir E l = true) ->
  forall n root, no_empty_dir (cleanup_tree E root n) = true.
Proof.
  intros Hrm. induction n as [t x|es IH] using node_rect'; intros root;
    [reflexivity|].
  rewrite cleanup_tree_dir, no_empty_dir_dir. apply forallb_forall.
  intros [k ch'] Hin. apply filter_In in Hin as [Hin Hst].
  apply in_map_iff in Hin as ([k0 ch] & Heq & Hin). unfold visit in Heq.
  simpl in Heq. injection Heq as <- <-.
  rewrite Forall_forall in IH. pose proof (IH _ Hin (root ++ [k0])) as Hch.
  unfold stays in Hst. cbn [fst snd] in Hst, Hch |- *. rewrite Hrm in Hst.
  revert Hch Hst.
  destruct (cleanup_tree E (root ++ [k0]) ch) as [|[|]]; cbn [negb]; auto.
Qed.

Lemma dict_get_In {V} (k : string) (v : V) (es : list (string * V)) :
  Dict.get k es = Some v -> In (k, v) es.
Proof.
  induction es as [|[k' v'] es IH]; simpl; [discriminate|].
  destruct (String.eqb_spec k k') as [->|_]; [intros [= ->]; now left|].
  intros H. right. now apply IH.
Qed.

Lemma no_empty_dir_lookup (rel : FS.loc) :
  forall n, no_empty_dir n = true -> rel <> [] -> FS.lookup rel n <> Some (Dir []).
Proof.
  induction rel as [|c rel IH]; intros n Hn Hne; [contradiction|].
  destruct n as [t x|es]; [discriminate|].
  rewrite no_empty_dir_dir in Hn. rewrite forallb_forall in Hn. simpl.
  destruct (Dict.get c es) as [ch|] eqn:Hget; [|discriminate].
  pose proof (Hn _ (dict_get_In c ch es Hget)) as Hch. simpl in Hch.
  destruct rel as [|c' rel].
  - simpl. intros [= ->]. discriminate.
  - apply IH; [|discriminate]. destruct ch as [|[|]]; auto.
Qed.

Lemma lookup_alter_below (f : node -> node) (base : FS.loc) :
  forall rel d,
    FS.lookup (base ++ rel) (FS.alter f base d)
    = match FS.lookup base d with
      | Some n => FS.lookup rel (f n)
      | None => None
      end.
Proof.
  induction base as [|c base IH]; intros rel d; [reflexivity|].
  destruct d as [t x|es]; [reflexivity|]. simpl.
  destruct (Dict.get c es) as [ch|] eqn:Hget; simpl.
  - rewrite get_set_same. apply IH.
  - now rewrite Hget.
Qed.

Lemma cleanup_dir_tree_no_empty (E : env) (base_dir : path) (d : node)
    (rel : FS.loc) :
  (forall l, may_rmdir E l = true) ->
  rel <> [] ->
  FS.lookup (resolve E base_dir ++ rel) (cleanup_dir_tree E base_dir d)
  <> Some (Dir []).
Proof.
  intros Hrm Hne. unfold cleanup_dir_tree. rewrite lookup_alter_below.
  destruct (FS.lookup (resolve E base_dir) d) as [n|]; [|discriminate].
  apply no_empty_dir_lookup; [|exact Hne]. now apply cleanup_tree_no_empty.
Qed.

(** X11.  When the operating system refuses no [rmdir], the clean-up
    after an undo leaves no empty directory anywhere below its base
    folder, both for [cleanup_dir_tree] and for the method
    [_cleanup_empty_dirs]; the base folder itself is never removed, even
    when it ends up empty. *)
Theorem cleanup_leaves_no_empty_directory (E : env) (d : node) :
  (forall l, may_rmdir E l = true) ->
  (forall base_dir rel,
      rel <> [] ->
      FS.lookup (resolve E base_dir ++ rel) (cleanup_dir_tree E base_dir d)
      <> Some (Dir []))
  /\ (forall s rel,
        get_setting (settings E) "destination_folder" None = Some s ->
        rel <> [] ->
        FS.lookup (resolve E (Path.of_string s) ++ rel) (_cleanup_empty_dirs E d)
        <> Some (Dir []))
  /\ (forall base_dir,
        path_is_dir E (cleanup_dir_tree E base_dir d) base_dir
        = path_is_dir E d base_dir).
Proof.
  intros Hrm. split; [|split].
  - intros base_dir rel Hne. now apply cleanup_dir_tree_no_empty.
  - intros s rel Hs Hne. unfold _cleanup_empty_dirs. rewrite Hs.
    destruct (path_exists E d (Path.of_string s)) eqn:Hex; simpl.
    + now apply cleanup_dir_tree_no_empty.
    + unfold path_exists, FS.exists_ in Hex.
      destruct (FS.lookup (resolve E (Path.of_string s)) d) eqn:Hl; [discriminate|].
      rewrite (lookup_absent_below _ _ d Hl (is_prefix_app _ rel)). discriminate.
  - intros base_dir. unfold path_is_dir, FS.is_dir, cleanup_dir_tree.
    rewrite lookup_alter_same.
    now destruct (FS.lookup (resolve E base_dir) d) as [[t x|es]|].
Qed.

Lemma cleanup_leaves_no_empty_directory_witness :
  let E := Scenario.env_with "rename" in
  let d := Dir [("D", Dir [("Images", Dir [("2023", Dir [("05", Dir [])])]);
                           ("Audio", Dir [("x.mp3", File Scenario.stamp "song")])])] in
  (forall l, may_rmdir E l = true)
  /\ FS.lookup ["D"; "Images"] (_cleanup_empty_dirs E d) = None
  /\ FS.lookup ["D"; "Audio"; "x.mp3"] (_cleanup_empty_dirs E d)
     = Some (File Scenario.stamp "song")
  /\ forall rel, rel <> [] ->
       FS.lookup (resolve E (Path.of_string "/D") ++ rel) (_cleanup_empty_dirs E d)
       <> Some (Dir []).
Proof.
  intros E d.
  assert (Hrm : forall l, may_rmdir E l = true) by reflexivity.
  split; [exact Hrm|]. split; [reflexivity|]. split; [reflexivity|].
  intros rel Hne.
  exact (proj1 (proj2 (cleanup_leaves_no_empty_directory E d Hrm)) "/D" rel
           eq_refl Hne).
Defined.

(** ** The names of the rules *)

Lemma mem_set {V} (name k : string) (v : V) (d : list (string * V)) :
  Dict.mem name (Dict.set k v d) = String.eqb name k || Dict.mem name d.
Proof.
  induction d as [|[k' v'] d IH]; simpl; [reflexivity|].
  destruct (String.eqb_spec k k') as [->|Hk]; simpl.
  - now destruct (String.eqb name k').
  - rewrite IH. destruct (String.eqb name k), (String.eqb name k'); reflexivity.
Qed.

Lemma rules_of_entries_names (section : list (string * string)) :
  forall acc rules,
    rules_of_entries section acc = Ok rules ->
    (forall name,
        Dict.mem name rules = Dict.mem name acc || existsb (names_rule name) section)
    /\ (forall name r,
          Dict.get name rules = Some r ->
          Dict.get name acc = Some r
          \/ exists k v,
               In (k, v) section /\ Spec.looks_like_json v = true
               /\ name = Str.capitalize k
               /\ Json.loads (Str.unescape_percent v) = Ok r).
Proof.
  induction section as [|[k v] section IH]; intros acc rules H; simpl in H.
  - injection H as <-. split; [intros name; now rewrite orb_false_r|auto].
  - unfold names_rule in *. cbn [existsb fst snd].
    destruct (Spec.looks_like_json v) eqn:Hjson; cbn [negb] in H.
    + destruct (Json.loads (Str.unescape_percent v)) as [rule|e] eqn:Hload;
        [|discriminate].
      cbn [bind] in H. destruct (IH _ _ H) as [Hmem Hget]. split.
      * intros name. rewrite Hmem, mem_set. cbn [andb].
        destruct (String.eqb name (Str.capitalize k)), (Dict.mem name acc); reflexivity.
      * intros name r Hr. destruct (Hget name r Hr) as [Hacc|(k' & v' & Hin & Hrest)].
        -- destruct (String.eqb_spec (Str.capitalize k) name) as [<-|Hne].
           ++ rewrite get_set_same in Hacc. injection Hacc as <-.
              right. exists k, v. split; [now left|]. auto.
           ++ rewrite get_set_other in Hacc by exact Hne. now left.
        -- right. exists k', v'. split; [now right|exact Hrest].
    + destruct (IH _ _ H) as [Hmem Hget]. split.
      * intros name. now rewrite Hmem.
      * intros name r Hr. destruct (Hget name r Hr) as [Hacc|(k' & v' & Hin & Hrest)];
          [now left|].
        right. exists k', v'. split; [now right|exact Hrest].
Qed.

(** When the loop gets through, every value has been read. *)
Lemma get_rules_from_entries (cfg : config) (keys : list string) :
  forall acc rules,
    get_rules_from cfg keys acc = Loaded rules ->
    exists entries, read_as cfg keys entries.
Proof.
  induction keys as [|k keys IH]; intros acc rules H; [exists []; constructor|].
  simpl in H. destruct (Config.getitem cfg "RULES" k) as [v|e] eqn:Hv; [|discriminate].
  assert (Hrest : exists acc', get_rules_from cfg keys acc' = Loaded rules).
  { destruct (negb (Str.startswith "{" (Str.strip v))); [eauto|].
    destruct (Json.loads (Str.unescape_percent v)); [eauto|discriminate]. }
  destruct Hrest as [acc' Hrest]. destruct (IH _ _ Hrest) as [entries Hentries].
  exists ((k, v) :: entries). constructor; [now split|exact Hentries].
Qed.

(** X12.  When [get_rules] returns, every option of the section has
    been read, and the rules it knows are exactly the entries that look
    like JSON, each under its key capitalised: first letter upper case,
    the rest lower case.  Every rule is what [json.loads] gave for such
    an entry. *)
Theorem get_rules_names_are_capitalised_keys (cfg : config)
    (rules : list (string * json)) :
  get_rules cfg = Loaded rules ->
  exists section entries,
    Dict.get "RULES" (sections cfg) = Some section
    /\ read_as cfg (Config.options (defaults cfg) section) entries
    /\ (forall name, Dict.mem name rules = existsb (names_rule name) entries)
    /\ (forall name r,
          Dict.get name rules = Some r ->
          exists k v,
            In (k, v) entries /\ Spec.looks_like_json v = true
            /\ name = Str.capitalize k
            /\ Json.loads (Str.unescape_percent v) = Ok r).
Proof.
  unfold get_rules. intros H.
  destruct (Dict.get "RULES" (sections cfg)) as [section|]; [|discriminate].
  destruct (get_rules_from_entries cfg _ [] rules H) as [entries Hread].
  exists section, entries. split; [reflexivity|]. split; [exact Hread|].
  rewrite (get_rules_from_read cfg _ entries Hread) in H.
  destruct (rules_of_entries entries []) as [rules'|e] eqn:Hrules; [|discriminate].
  injection H as <-.
  destruct (rules_of_entries_names entries [] rules' Hrules) as [Hmem Hget]. split.
  - intros name. now rewrite Hmem.
  - intros name r Hr. destruct (Hget name r Hr) as [Hnil|Hin]; [discriminate|exact Hin].
Qed.

Lemma get_rules_names_are_capitalised_keys_witness :
  let cfg := mkConfig [("source_folders", "/home/user/Downloads")]
                      [("RULES", [("music", "{}"); ("my_stuff", "{}")])] in
  exists rules,
    get_rules cfg = Loaded rules
    /\ Dict.mem "Music" rules = true
    /\ Dict.mem "My_stuff" rules = true
    /\ Dict.mem "music" rules = false
    /\ Dict.mem "Source_folders" rules = false.
Proof.
  intros cfg.
  assert (H : exists rules, get_rules cfg = Loaded rules) by (vm_compute; eauto).
  destruct H as [rules H]. exists rules. split; [exact H|].
  destruct (get_rules_names_are_capitalised_keys cfg rules H)
    as (section & entries & Hsec & Hread & Hmem & _).
  assert (Hentries : entries = [("music", "{}"); ("my_stuff", "{}");
                                ("source_folders", "/home/user/Downloads")]).
  { injection Hsec as <-.
    inversion Hread as [|k1 [k1' v1] ks1 es1 [Hk1 Hv1] H1]; subst.
    inversion H1 as [|k2 [k2' v2] ks2 es2 [Hk2 Hv2] H2]; subst.
    inversion H2 as [|k3 [k3' v3] ks3 es3 [Hk3 Hv3] H3]; subst.
    inversion H3; subst.
    cbn in Hk1, Hk2, Hk3. subst.
    vm_compute in Hv1, Hv2, Hv3.
    injection Hv1 as <-. injection Hv2 as <-. injection Hv3 as <-. reflexivity. }
  rewrite !Hmem, Hentries. repeat split; reflexivity.
Defined.

(** ** The undo logs that the tool offers *)

Lemma leb_trans (a b c : string) :
  String.leb a b = true -> String.leb b c = true -> String.leb a c = true.
Proof.
  unfold String.leb. intros Hab Hbc.
  destruct (String.compare a b) eqn:Eab; try discriminate;
    destruct (String.compare b c) eqn:Ebc; try discriminate.
  - apply String.compare_eq_iff in Eab, Ebc. subst.
    destruct (String.compare c c) eqn:Ecc; try reflexivity.
    assert (Hcc : String.compare c c = Eq)
      by (apply OrderedTypeEx.String_as_OT.cmp_eq; reflexivity).
    congruence.
  - apply String.compare_eq_iff in Eab. subst. now rewrite Ebc.
  - apply String.compare_eq_iff in Ebc. subst. now rewrite Eab.
  - apply OrderedTypeEx.String_as_OT.cmp_lt in Eab, Ebc.
    pose proof (OrderedTypeEx.String_as_OT.lt_trans _ _ _ Eab Ebc) as Hac.
    apply OrderedTypeEx.String_as_OT.cmp_lt in Hac.
    unfold OrderedTypeEx.String_as_OT.cmp in Hac. now rewrite Hac.
Qed.

Lemma insert_desc_perm (x : string) (l : list string) :
  Permutation (insert_desc x l) (x :: l).
Proof.
  induction l as [|y l IH]; simpl; [reflexivity|].
  destruct (String.leb y x); [reflexivity|].
  rewrite IH. apply perm_swap.
Qed.

Lemma sorted_reverse_perm (l : list string) : Permutation (sorted_reverse l) l.
Proof.
  induction l as [|x l IH]; simpl; [constructor|].
  rewrite insert_desc_perm. now constructor.
Qed.

Lemma insert_desc_sorted (x : string) (l : list string) :
  StronglySorted (fun a b => String.leb b a = true) l ->
  StronglySorted (fun a b => String.leb b a = true) (insert_desc x l).
Proof.
  induction 1 as [|y l Hl IH Hy]; simpl; [repeat constructor|].
  destruct (String.leb y x) eqn:Hyx.
  - constructor; [now constructor|]. constructor; [exact Hyx|].
    eapply Forall_impl; [|exact Hy]. intros z Hz. simpl in Hz.
    exact (leb_trans z y x Hz Hyx).
  - constructor; [exact IH|].
    apply (Permutation_Forall (Permutation_sym (insert_desc_perm x l))).
    constructor; [|exact Hy].
    destruct (String.leb_total x y) as [H|H]; [exact H|congruence].
Qed.

Lemma sorted_reverse_sorted (l : list string) :
  StronglySorted (fun a b => String.leb b a = true) (sorted_reverse l).
Proof.
  induction l as [|x l IH]; simpl; [constructor|]. now apply insert_desc_sorted.
Qed.

(** X13.  [find_undo_logs] returns exactly the names of the working
    directory that start with [undo_log_] and end with [.json], each as
    often as it is listed, in descending order: every name is greater
    than or equal to all the names after it. *)
Theorem find_undo_logs_sorted_descending (E : env) (d : node)
    (es : list (string * node)) :
  FS.lookup (cwd E) d = Some (Dir es) ->
  exists logs,
    UndoTool.find_undo_logs E d = Ok logs
    /\ Permutation logs (filter UndoTool.is_undo_log (map fst es))
    /\ StronglySorted (fun a b => String.leb b a = true) logs
    /\ forall file,
         In file logs <->
         In file (map fst es) /\ Str.startswith "undo_log_" file = true
         /\ endswith ".json" file = true.
Proof.
  intros Hcwd. unfold UndoTool.find_undo_logs. rewrite Hcwd.
  eexists. split; [reflexivity|]. split; [apply sorted_reverse_perm|].
  split; [apply sorted_reverse_sorted|].
  intros file. split.
  - intros Hin.
    apply (Permutation_in _ (sorted_reverse_perm _)) in Hin.
    apply filter_In in Hin as [Hin Hlog]. unfold UndoTool.is_undo_log in Hlog.
    apply andb_prop in Hlog. tauto.
  - intros (Hin & Hs & He).
    apply (Permutation_in _ (Permutation_sym (sorted_reverse_perm _))).
    apply filter_In. split; [exact Hin|]. unfold UndoTool.is_undo_log.
    now rewrite Hs, He.
Qed.

Lemma find_undo_logs_sorted_descending_witness :
  let E := Scenario.env_with "rename" in
  let d := Dir [("home",
                 Dir [("user",
                       Dir [("undo_log_20240101_120000.json", File Scenario.stamp "[]");
                            ("notes.json", File Scenario.stamp "{}");
                            ("undo_log_20240305_080000.json", File Scenario.stamp "[]");
                            ("undo_log_20240305.txt", File Scenario.stamp "")])])] in
  UndoTool.find_undo_logs E d
  = Ok ["undo_log_20240305_080000.json"; "undo_log_20240101_120000.json"].
Proof.
  intros E d.
  destruct (find_undo_logs_sorted_descending E d
              [("undo_log_20240101_120000.json", File Scenario.stamp "[]");
               ("notes.json", File Scenario.stamp "{}");
               ("undo_log_20240305_080000.json", File Scenario.stamp "[]");
               ("undo_log_20240305.txt", File Scenario.stamp "")] eq_refl)
    as (logs & H & _).
  rewrite H. vm_compute in H. injection H as <-. reflexivity.
Defined.

(** ** The files of a pass *)

Lemma name_snoc (p : path) (nm : string) :
  Path.valid_name nm = true -> Path.name (p ++ [nm]) = nm.
Proof.
  intros Hnm. unfold Path.name, Path.components.
  destruct p as [|c p].
  - simpl. apply valid_name_not_anchor in Hnm. apply String.eqb_neq in Hnm.
    now rewrite Hnm.
  - change (Path.is_absolute ((c :: p) ++ [nm])) with (String.eqb c "/").
    destruct (String.eqb c "/").
    + change (tl ((c :: p) ++ [nm])) with (p ++ [nm]). apply last_last.
    + apply last_last.
Qed.

Lemma walk_files_names (n : node) :
  forall root p,
    names_valid n = true ->
    In p (walk_files root n) ->
    exists rel nm,
      p = root ++ rel ++ [nm] /\ Path.valid_name nm = true /\ hidden nm = false.
Proof.
  induction n as [t x|es IH] using node_rect'; intros root p Hv Hin; [contradiction|].
  rewrite names_valid_dir in Hv. rewrite forallb_forall in Hv.
  rewrite walk_files_dir in Hin.
  rewrite Forall_forall in IH.
  apply in_app_or in Hin as [Hin|Hin]; apply in_flat_map in Hin as ([k ch] & He & Hp);
    pose proof (Hv _ He) as Hk; simpl in Hk, Hp;
    apply andb_prop in Hk as [Hk Hch].
  - destruct ch; [|contradiction]. destruct (hidden k) eqn:Hh; [contradiction|].
    destruct Hp as [<-|[]]. exists [], k. split; [now apply join_single|]. now split.
  - destruct ch as [|es']; [contradiction|].
    destruct (IH _ He (Path.join root k) p Hch Hp) as (rel & nm & -> & Hnm & Hh).
    exists (k :: rel), nm. split; [|now split].
    rewrite (join_single root k Hk). now rewrite <- app_assoc.
Qed.

Lemma walk_files_complete (rel : list string) :
  forall root n nm t x,
    names_valid n = true ->
    FS.lookup (rel ++ [nm]) n = Some (File t x) ->
    hidden nm = false ->
    In (root ++ rel ++ [nm]) (walk_files root n).
Proof.
  induction rel as [|c rel IH]; intros root n nm t x Hv Hl Hh;
    destruct n as [t' x'|es]; try discriminate;
    rewrite names_valid_dir in Hv; rewrite forallb_forall in Hv;
    rewrite walk_files_dir; apply in_or_app; simpl in Hl.
  - destruct (Dict.get nm es) as [ch|] eqn:Hget; [|discriminate].
    injection Hl as ->. pose proof (dict_get_In nm _ es Hget) as Hin.
    pose proof (Hv _ Hin) as Hk. simpl in Hk. apply andb_prop in Hk as [Hk _].
    left. apply in_flat_map. exists (nm, File t x). split; [exact Hin|].
    simpl. rewrite Hh. left. now apply join_single.
  - destruct (Dict.get c es) as [ch|] eqn:Hget; [|discriminate].
    pose proof (dict_get_In c _ es Hget) as Hin.
    pose proof (Hv _ Hin) as Hk. simpl in Hk. apply andb_prop in Hk as [Hk Hch].
    right. apply in_flat_map. exists (c, ch). split; [exact Hin|]. simpl.
    destruct ch as [t' x'|es']; [now destruct rel|].
    rewrite (join_single root c Hk).
    replace (root ++ c :: rel ++ [nm]) with ((root ++ [c]) ++ rel ++ [nm])
      by (now rewrite <- app_assoc).
    now apply (IH _ _ nm t x).
Qed.

Lemma names_distinct_dir (es : list (string * node)) :
  names_distinct (Dir es)
  = keys_distinct es && forallb (fun e => names_distinct (snd e)) es.
Proof.
  simpl. f_equal. induction es as [|[k ch] es IH]; [reflexivity|].
  simpl. now rewrite IH.
Qed.

Lemma keys_distinct_get {V} (es : list (string * V)) (k : string) (v : V) :
  keys_distinct es = true -> In (k, v) es -> Dict.get k es = Some v.
Proof.
  induction es as [|[k' v'] es IH]; intros Hd Hin; [contradiction|].
  simpl in Hd. apply andb_prop in Hd as [Hk Hd]. apply negb_true_iff in Hk.
  simpl. destruct Hin as [[= -> ->]|Hin]; [now rewrite String.eqb_refl|].
  destruct (String.eqb_spec k k') as [->|_]; [|now apply IH].
  rewrite dict_mem_get, (IH Hd Hin) in Hk. discriminate.
Qed.

(** Every path of the walk is a file of the tree. *)
Lemma walk_files_sound (n : node) :
  forall root p,
    names_valid n = true -> names_distinct n = true ->
    In p (walk_files root n) ->
    exists rel nm t x,
      p = root ++ rel ++ [nm]
      /\ FS.lookup (rel ++ [nm]) n = Some (File t x)
      /\ Path.valid_name nm = true /\ hidden nm = false.
Proof.
  induction n as [t x|es IH] using node_rect'; intros root p Hv Hd Hin; [contradiction|].
  rewrite names_valid_dir in Hv. rewrite forallb_forall in Hv.
  rewrite names_distinct_dir in Hd. apply andb_prop in Hd as [Hkeys Hd].
  rewrite forallb_forall in Hd.
  rewrite walk_files_dir in Hin.
  rewrite Forall_forall in IH.
  apply in_app_or in Hin as [Hin|Hin]; apply in_flat_map in Hin as ([k ch] & He & Hp);
    pose proof (Hv _ He) as Hk; simpl in Hk, Hp;
    apply andb_prop in Hk as [Hk Hch].
  - destruct ch as [t x|]; [|contradiction]. destruct (hidden k) eqn:Hh; [contradiction|].
    destruct Hp as [<-|[]]. exists [], k, t, x.
    split; [now apply join_single|]. split; [|now split].
    simpl. now rewrite (keys_distinct_get es k _ Hkeys He).
  - destruct ch as [|es']; [contradiction|].
    destruct (IH _ He (Path.join root k) p Hch (Hd _ He) Hp)
      as (rel & nm & t & x & -> & Hl & Hnm & Hh).
    exists (k :: rel), nm, t, x. split; [|split; [|now split]].
    + rewrite (join_single root k Hk). now rewrite <- app_assoc.
    + cbn [app FS.lookup]. now rewrite (keys_distinct_get es k _ Hkeys He).
Qed.

(** What one entry of a directory contributes to the walk. *)
Lemma walk_files_entries (root : path) (es : list (string * node)) :
  Permutation
    (walk_files root (Dir es))
    (flat_map (fun e : string * node =>
                 match snd e with
                 | File _ _ => if hidden (fst e) then [] else [Path.join root (fst e)]
                 | Dir _ => walk_files (Path.join root (fst e)) (snd e)
                 end) es).
Proof.
  rewrite walk_files_dir. induction es as [|[k ch] es IH]; [constructor|].
  cbn [flat_map fst snd]. destruct ch as [t x|es'].
  - cbn [app]. rewrite <- app_assoc. now apply Permutation_app_head.
  - cbn [app]. etransitivity; [apply Permutation_app_swap_app|].
    now apply Permutation_app_head.
Qed.

Lemma in_mem {V} (k : string) (v : V) (es : list (string * V)) :
  In (k, v) es -> Dict.mem k es = true.
Proof.
  induction es as [|[k' v'] es IH]; intros Hin; [contradiction|]. simpl.
  destruct Hin as [[= -> ->]|Hin]; [now rewrite String.eqb_refl|].
  rewrite (IH Hin). apply orb_true_r.
Qed.

(** The walk lists no file twice. *)
Lemma walk_files_NoDup (n : node) :
  forall root,
    names_valid n = true -> names_distinct n = true ->
    NoDup (walk_files root n).
Proof.
  induction n as [t x|es IH] using node_rect'; intros root Hv Hd; [constructor|].
  apply (Permutation_NoDup (Permutation_sym (walk_files_entries root es))).
  rewrite names_valid_dir in Hv. rewrite names_distinct_dir in Hd.
  apply andb_prop in Hd as [Hkeys Hd].
  assert (Hfirst : forall k ch p,
             Path.valid_name k = true -> names_valid ch = true ->
             In p match ch with
                  | File _ _ => if hidden k then [] else [Path.join root k]
                  | Dir _ => walk_files (Path.join root k) ch
                  end ->
             exists rest, p = root ++ k :: rest).
  { intros k ch p Hk Hch Hin. destruct ch as [t x|es'].
    - destruct (hidden k); [contradiction|]. destruct Hin as [<-|[]].
      exists []. now apply join_single.
    - destruct (walk_files_below _ _ p Hch Hin) as (rel & _ & _ & ->).
      exists rel. rewrite (join_single root k Hk). now rewrite <- app_assoc. }
  induction es as [|[k ch] es IHes]; [constructor|].
  cbn [flat_map fst snd].
  simpl in Hv, Hkeys, Hd.
  apply andb_prop in Hv as [Hkv Hv]. apply andb_prop in Hkv as [Hk Hch].
  apply andb_prop in Hkeys as [Hfresh Hkeys]. apply negb_true_iff in Hfresh.
  apply andb_prop in Hd as [Hdch Hd].
  inversion IH as [|? ? IHch IHrest]; subst.
  apply NoDup_app.
  - destruct ch as [t x|es'].
    + destruct (hidden k); repeat constructor. intros [].
    + now apply IHch.
  - now apply IHes.
  - intros p Hin1 Hin2.
    destruct (Hfirst k ch p Hk Hch Hin1) as [rest1 Hp1].
    apply in_flat_map in Hin2 as ([k' ch'] & He & Hin2). cbn [fst snd] in Hin2.
    rewrite forallb_forall in Hv. pose proof (Hv _ He) as Hk'. simpl in Hk'.
    apply andb_prop in Hk' as [Hk' Hch'].
    destruct (Hfirst k' ch' p Hk' Hch' Hin2) as [rest2 Hp2].
    rewrite Hp1 in Hp2. apply app_inv_head in Hp2. injection Hp2 as -> _.
    rewrite (in_mem k' ch' es He) in Hfresh. discriminate.
Qed.

Lemma lookup_app (a b : FS.loc) (d n : node) :
  FS.lookup a d = Some n -> FS.lookup (a ++ b) d = FS.lookup b n.
Proof.
  revert d. induction a as [|c a IH]; intros d H; simpl in *.
  - now injection H as ->.
  - destruct d as [|es]; [discriminate|].
    destruct (Dict.get c es); [now apply IH|discriminate].
Qed.

(** X14.  The files a pass visits are the files below the source folder
    whose own name starts with neither [.] nor [~]: every path it lists
    is a file of the tree, at the place on disk that the path names, no
    path is listed twice, and no hidden or temporary file is ever
    listed; every other file is, at any depth, also when one of the
    folders on the way to it has a hidden name. *)
Theorem all_files_skips_hidden_names_only (E : env) (d : node)
    (source_folder : path) (n : node) :
  FS.lookup (resolve E source_folder) d = Some n ->
  names_valid n = true ->
  (names_distinct n = true ->
   NoDup (all_files E d source_folder)
   /\ forall p,
        In p (all_files E d source_folder) ->
        hidden (Path.name p) = false
        /\ exists rel t x,
             p = source_folder ++ rel ++ [Path.name p]
             /\ FS.lookup (rel ++ [Path.name p]) n = Some (File t x)
             /\ FS.lookup (resolve E p) d = Some (File t x))
  /\ (forall p,
        In p (all_files E d source_folder) ->
        hidden (Path.name p) = false
        /\ exists rel, p = source_folder ++ rel ++ [Path.name p])
  /\ (forall rel nm t x,
        FS.lookup (rel ++ [nm]) n = Some (File t x) ->
        hidden nm = false ->
        In (source_folder ++ rel ++ [nm]) (all_files E d source_folder)).
Proof.
  intros Hn Hv. unfold all_files. rewrite Hn. split; [|split].
  - intros Hd. split; [now apply walk_files_NoDup|]. intros p Hin.
    pose proof (walk_files_below n source_folder p Hv Hin) as (rel0 & _ & Hrel0 & Hp0).
    destruct (walk_files_sound n source_folder p Hv Hd Hin)
      as (rel & nm & t & x & -> & Hl & Hnm & Hh).
    rewrite app_assoc, (name_snoc _ nm Hnm). split; [exact Hh|].
    exists rel, t, x. split; [now rewrite app_assoc|]. split; [exact Hl|].
    apply app_inv_head in Hp0. rewrite <- Hp0 in Hrel0.
    rewrite <- app_assoc, (resolve_app E source_folder _ Hrel0).
    now rewrite (lookup_app _ _ d n Hn).
  - intros p Hin.
    destruct (walk_files_names n source_folder p Hv Hin) as (rel & nm & -> & Hnm & Hh).
    rewrite app_assoc, (name_snoc _ nm Hnm). split; [exact Hh|].
    exists rel. now rewrite app_assoc.
  - intros rel nm t x Hl Hh. now apply (walk_files_complete rel _ n nm t x).
Qed.

Lemma all_files_skips_hidden_names_only_witness :
  let E := Scenario.env_with "rename" in
  let n := Dir [(".cache", Dir [("a.txt", File Scenario.stamp "kept")]);
                (".hidden.txt", File Scenario.stamp "h");
                ("~lock.doc", File Scenario.stamp "t")] in
  let d := Dir [("S", n)] in
  names_valid n = true
  /\ names_distinct n = true
  /\ In ["/"; "S"; ".cache"; "a.txt"] (all_files E d ["/"; "S"])
  /\ ~ In ["/"; "S"; ".hidden.txt"] (all_files E d ["/"; "S"])
  /\ ~ In ["/"; "S"; "~lock.doc"] (all_files E d ["/"; "S"])
  /\ (forall p, In p (all_files E d ["/"; "S"]) ->
        exists t x, FS.lookup (resolve E p) d = Some (File t x)).
Proof.
  intros E n d.
  destruct (all_files_skips_hidden_names_only E d ["/"; "S"] n eq_refl eq_refl)
    as (Hfiles & Hnone & Hall).
  split; [reflexivity|]. split; [reflexivity|]. split; [|split; [|split]].
  - exact (Hall [".cache"] "a.txt" Scenario.stamp "kept" eq_refl eq_refl).
  - intros Hin. destruct (Hnone _ Hin) as [Hh _]. discriminate Hh.
  - intros Hin. destruct (Hnone _ Hin) as [Hh _]. discriminate Hh.
  - intros p Hin.
    destruct (proj2 (Hfiles eq_refl) p Hin) as (_ & rel & t & x & _ & _ & Hl).
    eauto.
Defined.

(** ** What a dry run promises *)

Lemma is_error_message (a b : string) :
  is_error (false, ("Error moving " ++ a ++ ": " ++ b)%string) = true.
Proof. unfold is_error. cbn [fst snd negb andb]. apply startswith_app. Qed.

(** X15.  A dry run of [organize_file] tells what the real call would do
    from the same state: a failure it reports (missing source, skipped
    duplicate, failed classification) is reported by the real call in
    the same words and with the same effect on the counters, and when it
    says [Would move p -> q], the real call moves the file to that very
    [q], or fails with an [Error moving] message while creating folders
    or moving. *)
Theorem organize_file_dry_run_predicts (E : env) (rules : list (string * json))
    (fuel : nat) (st st1 : state) (p : path) (destination_base : string)
    (ok : bool) (msg : string) :
  organize_file E rules fuel st p destination_base true = Some (st1, (ok, msg)) ->
  exists st2 r,
    organize_file E rules fuel st p destination_base false = Some (st2, r)
    /\ (ok = false -> st2 = st1 /\ r = (false, msg))
    /\ (ok = true ->
        st1 = st
        /\ exists q,
             msg = ("Would move " ++ Path.str p ++ " -> " ++ Path.str q)%string
             /\ (r = (true, ("Moved " ++ Path.name p ++ " -> " ++ Path.str q)%string)
                 \/ is_error r = true)).
Proof.
  unfold organize_file. intros H.
  destruct (negb (path_exists E (fs st) p) || path_is_dir E (fs st) p).
  { injection H as <- <- <-. eexists _, _. split; [reflexivity|].
    split; [auto|discriminate]. }
  destruct (generate_destination_path E rules (fs st) p destination_base) as [dd|e].
  2: { injection H as <- <- <-. eexists _, _. split; [reflexivity|].
       split; [auto|discriminate]. }
  cbv zeta in H |- *.
  match type of H with
  | match ?s with _ => _ end = _ => destruct s as [[q|]|]
  end; try discriminate.
  2: { injection H as <- <- <-. eexists _, _. split; [reflexivity|].
       split; [auto|discriminate]. }
  injection H as <- <- <-. unfold move_and_log.
  destruct (FS.mkdir_p (resolve E dd) (fs st)) as [d1|e].
  2: { eexists _, _. split; [reflexivity|]. split; [discriminate|]. intros _.
       split; [reflexivity|]. exists q. split; [reflexivity|]. right.
       apply is_error_message. }
  destruct (FS.move (resolve E p) (resolve E q) d1) as [d2|e];
    eexists _, _; (split; [reflexivity|]); (split; [discriminate|]); intros _;
    (split; [reflexivity|]); exists q; (split; [reflexivity|]);
    [now left|right; apply is_error_message].
Qed.

Lemma organize_file_dry_run_predicts_witness :
  let E := Scenario.env_with "rename" in
  let d := Dir [("S", Dir [("b.pdf", File Scenario.stamp "new")]);
                ("D", Dir [("Documents",
                            Dir [("PDFs", Dir [("b.pdf", File Scenario.stamp "old")])])])] in
  let st := Scenario.fresh d in
  let p := ["/"; "S"; "b.pdf"] in
  let msg := "Would move /S/b.pdf -> /D/Documents/PDFs/b_1.pdf" in
  organize_file E default_rules 1 st p "/D" true = Some (st, (true, msg))
  /\ exists st2 r,
       organize_file E default_rules 1 st p "/D" false = Some (st2, r)
       /\ exists q,
            msg = ("Would move " ++ Path.str p ++ " -> " ++ Path.str q)%string
            /\ (r = (true, ("Moved " ++ Path.name p ++ " -> " ++ Path.str q)%string)
                \/ is_error r = true).
Proof.
  intros E d st p msg.
  assert (Hdry : organize_file E default_rules 1 st p "/D" true
                 = Some (st, (true, msg))) by (vm_compute; reflexivity).
  split; [exact Hdry|].
  destruct (organize_file_dry_run_predicts E default_rules 1 st st p "/D" true msg
              Hdry) as (st2 & r & Hreal & _ & Hok).
  exists st2, r. split; [exact Hreal|]. exact (proj2 (Hok eq_refl)).
Defined.

(** ** The names of the saved logs *)

Lemma endswith_app (p x : string) : endswith p (x ++ p)%string = true.
Proof.
  induction x as [|c x IH].
  - destruct p as [|a p]; [reflexivity|].
    cbn [String.append endswith]. now rewrite String.eqb_refl.
  - simpl. rewrite IH. apply orb_true_r.
Qed.

Lemma compare_app (a1 a2 b1 b2 : string) :
  String.length a1 = String.length a2 ->
  String.compare (a1 ++ b1) (a2 ++ b2)
  = match String.compare a1 a2 with
    | Eq => String.compare b1 b2
    | c => c
    end.
Proof.
  revert a2. induction a1 as [|c1 a1 IH]; intros [|c2 a2] Hlen; try discriminate.
  - reflexivity.
  - simpl in Hlen. injection Hlen as Hlen. simpl.
    destruct (Ascii.compare c1 c2); [now apply IH|reflexivity|reflexivity].
Qed.

Lemma compare_same_prefix (a b1 b2 : string) :
  String.compare (a ++ b1) (a ++ b2) = String.compare b1 b2.
Proof.
  induction a as [|c a IH]; [reflexivity|]. simpl.
  assert (H : Ascii.compare c c = Eq)
    by (apply OrderedTypeEx.Ascii_as_OT.cmp_eq; reflexivity).
  now rewrite H.
Qed.

Lemma below_all (P : nat -> bool) (k : nat) :
  forallb P (seq 0 k) = true -> forall n, n < k -> P n = true.
Proof.
  intros H n Hn. rewrite forallb_forall in H. apply H. apply in_seq. lia.
Qed.

Lemma comparison_eqb_eq (a b : comparison) : comparison_eqb a b = true -> a = b.
Proof. now destruct a, b. Qed.

Lemma two_digits (n : nat) : n < 100 -> String.length (Str.of_nat2 n) = 2.
Proof.
  intros Hn. apply Nat.eqb_eq.
  apply (below_all (fun n => Nat.eqb (String.length (Str.of_nat2 n)) 2) 100);
    [vm_compute; reflexivity|exact Hn].
Qed.

Lemma two_digits_compare (n m : nat) :
  n < 100 -> m < 100 ->
  String.compare (Str.of_nat2 n) (Str.of_nat2 m) = Nat.compare n m.
Proof.
  intros Hn Hm. apply comparison_eqb_eq.
  apply (below_all
           (fun m => comparison_eqb (String.compare (Str.of_nat2 n) (Str.of_nat2 m))
                                    (Nat.compare n m)) 100); [|exact Hm].
  apply (below_all
           (fun n => forallb
                       (fun m => comparison_eqb
                                   (String.compare (Str.of_nat2 n) (Str.of_nat2 m))
                                   (Nat.compare n m)) (seq 0 100)) 100);
    [vm_compute; reflexivity|exact Hn].
Qed.

Lemma year_digits (y : nat) :
  1000 <= y -> y < 100 * 100 ->
  Str.of_nat y = (Str.of_nat2 (y / 100) ++ Str.of_nat2 (y mod 100))%string.
Proof.
  intros Hlo Hhi. apply String.eqb_eq.
  pose proof (below_all
                (fun y => (y <? 1000)%nat
                          || String.eqb (Str.of_nat y)
                               (Str.of_nat2 (y / 100) ++ Str.of_nat2 (y mod 100))%string)
                (100 * 100)) as H.
  specialize (H ltac:(vm_compute; reflexivity) y Hhi). cbv beta in H.
  apply orb_prop in H as [H|H]; [|exact H].
  apply Nat.ltb_lt in H. lia.
Qed.

Lemma string_app_assoc (a b c : string) : ((a ++ b) ++ c = a ++ (b ++ c))%string.
Proof. induction a as [|x a IH]; simpl; [reflexivity|now rewrite IH]. Qed.

Lemma string_app_nil (a : string) : (a ++ "")%string = a.
Proof. induction a as [|x a IH]; simpl; [reflexivity|now rewrite IH]. Qed.

Lemma digits2_compare (l1 : list nat) :
  forall l2 s1 s2,
    Forall (fun n => n < 100) l1 -> Forall (fun n => n < 100) l2 ->
    List.length l1 = List.length l2 ->
    String.compare (digits2 l1 ++ s1) (digits2 l2 ++ s2)
    = match lex_cmp l1 l2 with
      | Eq => String.compare s1 s2
      | c => c
      end.
Proof.
  induction l1 as [|n l1 IH]; intros [|m l2] s1 s2 H1 H2 Hlen; try discriminate.
  - reflexivity.
  - inversion H1; subst. inversion H2; subst. simpl in Hlen. injection Hlen as Hlen.
    cbn [digits2 fold_right lex_cmp]. fold (digits2 l1). fold (digits2 l2).
    rewrite !string_app_assoc, compare_app by (now rewrite !two_digits).
    rewrite two_digits_compare by assumption.
    destruct (Nat.compare n m); [now apply IH|reflexivity|reflexivity].
Qed.

(** The name, field by field. *)
Lemma undo_log_name_fields (t : datetime) :
  four_digit_year t = true ->
  undo_log_name t
  = ("undo_log_"
     ++ digits2 [year t / 100; year t mod 100; month t; day t]
     ++ "_" ++ digits2 [hour t; minute t; second t] ++ ".json")%string.
Proof.
  unfold four_digit_year. intros H. apply andb_prop in H as [H _].
  apply andb_prop in H as [Hlo Hhi]. apply Nat.leb_le in Hlo. apply Nat.ltb_lt in Hhi.
  unfold undo_log_name, digits2. cbn [fold_right].
  change (strftime t "%Y%m%d_%H%M%S")
    with (Str.of_nat (year t)
          ++ Str.of_nat2 (month t) ++ Str.of_nat2 (day t)
          ++ String "_" (Str.of_nat2 (hour t) ++ Str.of_nat2 (minute t)
                         ++ Str.of_nat2 (second t) ++ ""))%string.
  rewrite (year_digits (year t) Hlo Hhi).
  rewrite !string_app_assoc, !string_app_nil. cbn [String.append].
  now rewrite ?string_app_assoc.
Qed.

Lemma lex_lt_cmp (l1 : list nat) :
  forall l2, lex_lt l1 l2 = true -> lex_cmp l1 l2 = Lt.
Proof.
  induction l1 as [|x l1 IH]; intros [|y l2] H; try discriminate.
  simpl in H |- *. apply orb_prop in H as [H|H].
  - apply Nat.ltb_lt in H. now rewrite (proj2 (Nat.compare_lt_iff x y) H).
  - apply andb_prop in H as [Hxy H]. apply Nat.eqb_eq in Hxy. subst y.
    rewrite Nat.compare_refl. now apply IH.
Qed.

Lemma lex_cmp_app (a1 : list nat) :
  forall a2 b1 b2,
    List.length a1 = List.length a2 ->
    lex_cmp (a1 ++ b1) (a2 ++ b2)
    = match lex_cmp a1 a2 with
      | Eq => lex_cmp b1 b2
      | c => c
      end.
Proof.
  induction a1 as [|x a1 IH]; intros [|y a2] b1 b2 Hlen; try discriminate.
  - reflexivity.
  - simpl in Hlen. injection Hlen as Hlen. simpl.
    destruct (Nat.compare x y); [now apply IH|reflexivity|reflexivity].
Qed.

Lemma year_order (y1 y2 : nat) :
  ((y1 <? y2) = (y1 / 100 <? y2 / 100)
                || ((y1 / 100 =? y2 / 100) && (y1 mod 100 <? y2 mod 100)))%nat
  /\ ((y1 =? y2) = (y1 / 100 =? y2 / 100) && (y1 mod 100 =? y2 mod 100))%nat.
Proof.
  pose proof (Nat.div_mod_eq y1 100) as H1. pose proof (Nat.div_mod_eq y2 100) as H2.
  pose proof (Nat.mod_upper_bound y1 100) as B1.
  pose proof (Nat.mod_upper_bound y2 100) as B2.
  specialize (B1 ltac:(discriminate)). specialize (B2 ltac:(discriminate)).
  revert H1 H2 B1 B2.
  generalize (y1 / 100) (y1 mod 100) (y2 / 100) (y2 mod 100).
  intros a1 b1 a2 b2 H1 H2 B1 B2. split.
  - destruct (Nat.ltb_spec y1 y2), (Nat.ltb_spec a1 a2), (Nat.eqb_spec a1 a2),
      (Nat.ltb_spec b1 b2); simpl; try reflexivity; lia.
  - destruct (Nat.eqb_spec y1 y2), (Nat.eqb_spec a1 a2), (Nat.eqb_spec b1 b2);
      simpl; try reflexivity; lia.
Qed.

Lemma earlier_lex_cmp (t1 t2 : datetime) :
  earlier t1 t2 = true ->
  lex_cmp ([year t1 / 100; year t1 mod 100; month t1; day t1]
           ++ [hour t1; minute t1; second t1])
          ([year t2 / 100; year t2 mod 100; month t2; day t2]
           ++ [hour t2; minute t2; second t2]) = Lt.
Proof.
  intros H. apply lex_lt_cmp. unfold earlier, fields_of in H.
  cbn [app]. cbn [lex_lt] in H |- *.
  destruct (year_order (year t1) (year t2)) as [Hlt Heq].
  rewrite Hlt, Heq in H.
  destruct (year t1 / 100 <? year t2 / 100)%nat; [reflexivity|].
  destruct (year t1 / 100 =? year t2 / 100)%nat; [|discriminate H].
  cbn [orb andb] in H |- *.
  destruct (year t1 mod 100 <? year t2 mod 100)%nat; [reflexivity|].
  destruct (year t1 mod 100 =? year t2 mod 100)%nat; [|discriminate H].
  exact H.
Qed.

Lemma four_digit_year_fields (t : datetime) :
  four_digit_year t = true ->
  Forall (fun n => n < 100) [year t / 100; year t mod 100; month t; day t]
  /\ Forall (fun n => n < 100) [hour t; minute t; second t].
Proof.
  unfold four_digit_year. intros H. apply andb_prop in H as [H Hf].
  apply andb_prop in H as [_ Hhi]. apply Nat.ltb_lt in Hhi.
  rewrite forallb_forall in Hf.
  assert (Hb : forall n, In n [month t; day t; hour t; minute t; second t] -> n < 100)
    by (intros n Hn; apply Nat.ltb_lt; now apply Hf).
  split.
  - apply Forall_cons; [apply Nat.Div0.div_lt_upper_bound; exact Hhi|].
    apply Forall_cons; [apply Nat.mod_upper_bound; discriminate|].
    repeat (apply Forall_cons; [apply Hb; simpl; tauto|]). apply Forall_nil.
  - repeat (apply Forall_cons; [apply Hb; simpl; tauto|]). apply Forall_nil.
Qed.

Lemma undo_log_names_compare (t1 t2 : datetime) :
  four_digit_year t1 = true -> four_digit_year t2 = true ->
  earlier t1 t2 = true ->
  String.compare (undo_log_name t1) (undo_log_name t2) = Lt.
Proof.
  intros H1 H2 He.
  destruct (four_digit_year_fields t1 H1) as [Ha1 Hb1].
  destruct (four_digit_year_fields t2 H2) as [Ha2 Hb2].
  pose proof (earlier_lex_cmp t1 t2 He) as Hc.
  rewrite lex_cmp_app in Hc by reflexivity.
  rewrite (undo_log_name_fields t1 H1), (undo_log_name_fields t2 H2).
  rewrite compare_same_prefix.
  rewrite digits2_compare by (assumption || reflexivity).
  destruct (lex_cmp [year t1 / 100; year t1 mod 100; month t1; day t1]
                    [year t2 / 100; year t2 mod 100; month t2; day t2]);
    try assumption.
  rewrite compare_same_prefix.
  rewrite digits2_compare by (assumption || reflexivity).
  now rewrite Hc.
Qed.

(** X16.  The file that [save_undo_log] writes is one that
    [find_undo_logs] looks for, whatever the time, and the names sort by
    time: of two logs saved in years that have four digits, the one
    saved later has the greater name, so that the sort of
    [find_undo_logs] puts it first. *)
Theorem saved_logs_sort_most_recent_first (t1 t2 : datetime) :
  four_digit_year t1 = true -> four_digit_year t2 = true ->
  earlier t1 t2 = true ->
  UndoTool.is_undo_log (undo_log_name t1) = true
  /\ UndoTool.is_undo_log (undo_log_name t2) = true
  /\ String.compare (undo_log_name t1) (undo_log_name t2) = Lt
  /\ sorted_reverse [undo_log_name t1; undo_log_name t2]
     = [undo_log_name t2; undo_log_name t1]
  /\ sorted_reverse [undo_log_name t2; undo_log_name t1]
     = [undo_log_name t2; undo_log_name t1].
Proof.
  intros H1 H2 He.
  assert (Hfound : forall t, UndoTool.is_undo_log (undo_log_name t) = true).
  { intros t. unfold UndoTool.is_undo_log, undo_log_name.
    rewrite startswith_app. rewrite <- string_app_assoc. now rewrite endswith_app. }
  pose proof (undo_log_names_compare t1 t2 H1 H2 He) as Hlt.
  assert (Hgt : String.compare (undo_log_name t2) (undo_log_name t1) = Gt)
    by (rewrite String.compare_antisym, Hlt; reflexivity).
  repeat split; try apply Hfound; try exact Hlt.
  - cbn [sorted_reverse fold_right insert_desc]. unfold String.leb. now rewrite Hgt.
  - cbn [sorted_reverse fold_right insert_desc]. unfold String.leb. now rewrite Hlt.
Qed.

Lemma saved_logs_sort_most_recent_first_witness :
  let t1 := mkDate 2024 12 31 23 59 59 in
  let t2 := mkDate 2025 1 1 0 0 0 in
  undo_log_name t1 = "undo_log_20241231_235959.json"
  /\ undo_log_name t2 = "undo_log_20250101_000000.json"
  /\ sorted_reverse [undo_log_name t1; undo_log_name t2]
     = [undo_log_name t2; undo_log_name t1].
Proof.
  intros t1 t2. split; [vm_compute; reflexivity|]. split; [vm_compute; reflexivity|].
  assert (H1 : four_digit_year t1 = true) by (vm_compute; reflexivity).
  assert (H2 : four_digit_year t2 = true) by (vm_compute; reflexivity).
  assert (He : earlier t1 t2 = true) by (vm_compute; reflexivity).
  exact (proj1 (proj2 (proj2 (proj2
           (saved_logs_sort_most_recent_first t1 t2 H1 H2 He))))).
Defined.

(** ** Reading back what [json.dump] wrote *)

Lemma string_length_app (a b : string) :
  String.length (a ++ b) = String.length a + String.length b.
Proof. induction a as [|c a IH]; simpl; [reflexivity|now rewrite IH]. Qed.

Lemma lexes_nil : lexes "" [].
Proof. intros [|f] _; reflexivity. Qed.

Lemma lexes_ws (c : ascii) (text : string) (ts : list Json.token) :
  Json.is_ws c = true -> lexes text ts -> lexes (String c text) ts.
Proof.
  intros Hc H [|f] Hf; simpl in Hf; [lia|]. cbn [Json.lex]. rewrite Hc.
  apply H. lia.
Qed.

Lemma lexes_punct (c : ascii) (t : Json.token) (text : string)
    (ts : list Json.token) :
  In (c, t) [("{"%char, Json.TLBrace); ("}"%char, Json.TRBrace);
             ("["%char, Json.TLBracket); ("]"%char, Json.TRBracket);
             (":"%char, Json.TColon); (","%char, Json.TComma)] ->
  lexes text ts -> lexes (String c text) (t :: ts).
Proof.
  intros Hin H [|f] Hf; simpl in Hf; [lia|].
  assert (Hr : Json.lex f text = Some ts) by (apply H; lia).
  simpl in Hin.
  destruct Hin as [Hc|[Hc|[Hc|[Hc|[Hc|[Hc|[]]]]]]]; injection Hc as <- <-;
    cbn; now rewrite Hr.
Qed.

Lemma escape_lex (c : ascii) (e : string) (s b r : string) :
  Dump.escape c = Some e ->
  Json.lex_string (b ++ String Json.dquote r) = Some (s, r) ->
  Json.lex_string ((e ++ b) ++ String Json.dquote r) = Some (String c s, r).
Proof.
  unfold Dump.escape. intros He Hb.
  destruct (Ascii.eqb c Json.dquote) eqn:Hq.
  { apply Ascii.eqb_eq in Hq. subst c. injection He as <-.
    cbn in Hb |- *. now rewrite Hb. }
  destruct (Ascii.eqb c "\") eqn:Hbs.
  { apply Ascii.eqb_eq in Hbs. subst c. injection He as <-.
    cbn in Hb |- *. now rewrite Hb. }
  assert (Hnamed : forall n x,
             nat_of_ascii c = n -> n < 256 ->
             Json.unescape x = Some (ascii_of_nat n) ->
             Json.lex_string ((String "\" (String x EmptyString) ++ b)
                              ++ String Json.dquote r) = Some (String c s, r)).
  { intros n x Hn _ Hx. cbn [String.append Json.lex_string].
    replace (Ascii.eqb "\" Json.dquote) with false by reflexivity.
    rewrite Ascii.eqb_refl, Hx, Hb. rewrite <- Hn. now rewrite ascii_nat_embedding. }
  destruct (Nat.eqb_spec (nat_of_ascii c) 10) as [H10|_];
    [injection He as <-; apply (Hnamed 10 "n"%char H10); [lia|reflexivity]|].
  destruct (Nat.eqb_spec (nat_of_ascii c) 13) as [H13|_];
    [injection He as <-; apply (Hnamed 13 "r"%char H13); [lia|reflexivity]|].
  destruct (Nat.eqb_spec (nat_of_ascii c) 9) as [H9|_];
    [injection He as <-; apply (Hnamed 9 "t"%char H9); [lia|reflexivity]|].
  destruct (Nat.eqb_spec (nat_of_ascii c) 8) as [H8|_];
    [injection He as <-; apply (Hnamed 8 "b"%char H8); [lia|reflexivity]|].
  destruct (Nat.eqb_spec (nat_of_ascii c) 12) as [H12|_];
    [injection He as <-; apply (Hnamed 12 "f"%char H12); [lia|reflexivity]|].
  destruct ((32 <=? nat_of_ascii c) && (nat_of_ascii c <=? 126))%nat eqn:Hrange;
    [|discriminate].
  injection He as <-. apply andb_prop in Hrange as [Hlo _].
  apply Nat.leb_le in Hlo. cbn [String.append Json.lex_string].
  rewrite Hq, Hbs.
  replace (nat_of_ascii c <? 32)%nat with false
    by (symmetry; apply Nat.ltb_ge; exact Hlo).
  now rewrite Hb.
Qed.

Lemma body_lex (s : string) :
  forall b r,
    Dump.body s = Some b ->
    Json.lex_string (b ++ String Json.dquote r) = Some (s, r).
Proof.
  induction s as [|c s IH]; intros b r H; simpl in H.
  - injection H as <-. cbn. reflexivity.
  - destruct (Dump.escape c) as [e|] eqn:He; [|discriminate].
    destruct (Dump.body s) as [b'|] eqn:Hb; [|discriminate].
    injection H as <-. apply escape_lex; [exact He|]. now apply IH.
Qed.

Lemma lexes_string (s q text : string) (ts : list Json.token) :
  Dump.quote s = Some q -> lexes text ts ->
  lexes (q ++ text) (Json.TString s :: ts).
Proof.
  unfold Dump.quote. intros Hq H.
  destruct (Dump.body s) as [b|] eqn:Hb; [|discriminate]. injection Hq as <-.
  intros [|f] Hf; [simpl in Hf; lia|].
  cbn [String.append Json.lex]. rewrite string_app_assoc.
  cbn [String.append]. rewrite (body_lex s b text Hb).
  replace (Json.is_ws Json.dquote) with false by reflexivity.
  replace (Ascii.eqb Json.dquote "{") with false by reflexivity.
  replace (Ascii.eqb Json.dquote "}") with false by reflexivity.
  replace (Ascii.eqb Json.dquote "[") with false by reflexivity.
  replace (Ascii.eqb Json.dquote "]") with false by reflexivity.
  replace (Ascii.eqb Json.dquote ":") with false by reflexivity.
  replace (Ascii.eqb Json.dquote ",") with false by reflexivity.
  rewrite Ascii.eqb_refl.
  rewrite (H f); [reflexivity|].
  simpl in Hf. rewrite !string_length_app in Hf. simpl in Hf. lia.
Qed.

Lemma lexes_spaces (n : nat) (text : string) (ts : list Json.token) :
  lexes text ts -> lexes (Dump.spaces n ++ text) ts.
Proof.
  intros H. induction n as [|n IH]; [exact H|]. simpl.
  now apply lexes_ws.
Qed.

Lemma lexes_newline (level : nat) (text : string) (ts : list Json.token) :
  lexes text ts -> lexes (Dump.newline_indent level ++ text) ts.
Proof.
  intros H. unfold Dump.newline_indent. cbn [String.append].
  apply lexes_ws; [reflexivity|]. now apply lexes_spaces.
Qed.

Opaque Dump.newline_indent.

Ltac norm_text := do 6 (rewrite ?string_app_assoc; cbn [String.append]).

Lemma lexes_more_members (level : nat) (fields : list (string * json)) :
  forall text k tk,
    forallb plain_field fields = true ->
    Dump.more (fun kv : string * json =>
                 let (k', y) := kv in
                 Dump.member (Dump.quote k') (Dump.dumps (S level) y))
              ("," ++ Dump.newline_indent (S level)) fields = Some text ->
    lexes k tk ->
    lexes (text ++ k) (more_member_tokens fields ++ tk).
Proof.
  induction fields as [|[k0 v0] fields IH]; intros text k tk Hp Ht Hk.
  - simpl in Ht. injection Ht as <-. exact Hk.
  - cbn [forallb] in Hp. apply andb_prop in Hp as [Hf Hp].
    unfold plain_field in Hf. cbn [fst snd] in Hf. apply andb_prop in Hf as [_ Hv].
    destruct v0 as [| | |s0| |]; try discriminate.
    cbn [Dump.more Dump.dumps] in Ht. unfold Dump.member in Ht.
    destruct (Dump.quote k0) as [q|] eqn:Hq; [|discriminate].
    destruct (Dump.quote s0) as [qs|] eqn:Hqs; [|discriminate].
    destruct (Dump.more _ _ fields) as [b|] eqn:Hb; [|discriminate].
    injection Ht as <-.
    cbn [more_member_tokens flat_map fst snd value_token app].
    fold (more_member_tokens fields).
    norm_text.
    apply lexes_punct; [simpl; tauto|]. apply lexes_newline.
    apply (lexes_string k0 q); [exact Hq|].
    apply lexes_punct; [simpl; tauto|]. apply lexes_ws; [reflexivity|].
    apply (lexes_string s0 qs); [exact Hqs|]. now apply IH.
Qed.

Lemma lexes_record (level : nat) (v : json) (text k : string)
    (tk : list Json.token) :
  plain_record v = true ->
  Dump.dumps level v = Some text ->
  lexes k tk ->
  lexes (text ++ k) (record_tokens v ++ tk).
Proof.
  intros Hp Ht Hk. destruct v as [| | | | |fields]; try discriminate.
  unfold plain_record in Hp. apply andb_prop in Hp as [Hp _].
  destruct fields as [|[k0 v0] fields].
  - simpl in Ht. injection Ht as <-. cbn [String.append record_tokens app].
    apply lexes_punct; [simpl; tauto|]. now apply lexes_punct; [simpl; tauto|].
  - cbn [forallb] in Hp. apply andb_prop in Hp as [Hf Hp].
    unfold plain_field in Hf. cbn [fst snd] in Hf. apply andb_prop in Hf as [_ Hv].
    destruct v0 as [| | |s0| |]; try discriminate.
    cbn [Dump.dumps] in Ht. unfold Dump.enclose, Dump.member in Ht.
    destruct (Dump.quote k0) as [q|] eqn:Hq; [|discriminate].
    destruct (Dump.quote s0) as [qs|] eqn:Hqs; [|discriminate].
    destruct (Dump.more _ _ fields) as [b|] eqn:Hb; [|discriminate].
    injection Ht as <-.
    cbn [record_tokens value_token app]. rewrite <- app_assoc.
    norm_text.
    apply lexes_punct; [simpl; tauto|]. apply lexes_newline.
    apply (lexes_string k0 q); [exact Hq|].
    apply lexes_punct; [simpl; tauto|]. apply lexes_ws; [reflexivity|].
    apply (lexes_string s0 qs); [exact Hqs|].
    apply (lexes_more_members level fields b); [exact Hp|exact Hb|].
    apply lexes_newline. cbn [app String.append].
    now apply lexes_punct; [simpl; tauto|].
Qed.

Lemma lexes_more_items (level : nat) (items : list json) :
  forall text k tk,
    Forall (fun v => plain_record v = true) items ->
    Dump.more (Dump.dumps (S level)) ("," ++ Dump.newline_indent (S level)) items
    = Some text ->
    lexes k tk ->
    lexes (text ++ k) (more_item_tokens items ++ tk).
Proof.
  induction items as [|x items IH]; intros text k tk Hp Ht Hk.
  - simpl in Ht. injection Ht as <-. exact Hk.
  - inversion Hp as [|? ? Hx Hrest]; subst. cbn [Dump.more] in Ht.
    destruct (Dump.dumps (S level) x) as [a|] eqn:Ha; [|discriminate].
    destruct (Dump.more _ _ items) as [b|] eqn:Hb; [|discriminate].
    injection Ht as <-.
    cbn [more_item_tokens flat_map]. fold (more_item_tokens items).
    rewrite <- !app_comm_cons, <- app_assoc.
    norm_text.
    apply lexes_punct; [simpl; tauto|]. apply lexes_newline.
    apply (lexes_record (S level) x a); [exact Hx|exact Ha|]. now apply IH.
Qed.

Lemma lexes_log (log : list json) (text : string) :
  Forall (fun v => plain_record v = true) log ->
  Dump.dumps 0 (JArr log) = Some text ->
  lexes text (log_tokens log).
Proof.
  intros Hp Ht. destruct log as [|x log].
  - simpl in Ht. injection Ht as <-.
    apply lexes_punct; [simpl; tauto|]. apply lexes_punct; [simpl; tauto|].
    apply lexes_nil.
  - inversion Hp as [|? ? Hx Hrest]; subst.
    cbn [Dump.dumps] in Ht. unfold Dump.enclose in Ht.
    destruct (Dump.dumps 1 x) as [a|] eqn:Ha; [|discriminate].
    destruct (Dump.more _ _ log) as [b|] eqn:Hb; [|discriminate].
    injection Ht as <-. cbn [log_tokens].
    norm_text.
    apply lexes_punct; [simpl; tauto|]. apply lexes_newline.
    apply (lexes_record 1 x a); [exact Hx|exact Ha|].
    apply (lexes_more_items 0 log b); [exact Hrest|exact Hb|].
    apply lexes_newline. cbn [app String.append].
    apply lexes_punct; [simpl; tauto|]. apply lexes_nil.
Qed.

Transparent Dump.newline_indent.

(** *** Parsing the tokens of a log *)

Lemma set_fresh {V} (k : string) (v : V) (d : list (string * V)) :
  Dict.mem k d = false -> Dict.set k v d = d ++ [(k, v)].
Proof.
  induction d as [|[k' v'] d IH]; simpl; [reflexivity|].
  destruct (String.eqb k k'); simpl; [discriminate|]. intros H. now rewrite IH.
Qed.

Lemma mem_app {V} (k : string) (a b : list (string * V)) :
  Dict.mem k (a ++ b) = Dict.mem k a || Dict.mem k b.
Proof.
  induction a as [|[k' v'] a IH]; simpl; [reflexivity|].
  rewrite IH. now rewrite orb_assoc.
Qed.

Lemma of_pairs_from {V} (l : list (string * V)) :
  forall acc,
    distinct (map fst l) = true ->
    (forall k, In k (map fst l) -> Dict.mem k acc = false) ->
    fold_left (fun d kv => Dict.set (fst kv) (snd kv) d) l acc = acc ++ l.
Proof.
  induction l as [|[k v] l IH]; intros acc Hd Hacc; simpl.
  - now rewrite app_nil_r.
  - simpl in Hd. apply andb_prop in Hd as [Hk Hd]. apply negb_true_iff in Hk.
    rewrite (set_fresh k v acc) by (apply Hacc; now left).
    rewrite IH; [now rewrite <- app_assoc|exact Hd|].
    intros k' Hin. rewrite mem_app, (Hacc k') by (now right). simpl.
    rewrite orb_false_r. apply String.eqb_neq. intros ->.
    assert (Hex : existsb (String.eqb k) (map fst l) = true)
      by (apply existsb_exists; exists k; split; [exact Hin|apply String.eqb_refl]).
    congruence.
Qed.

Lemma of_pairs_distinct {V} (l : list (string * V)) :
  distinct (map fst l) = true -> Dict.of_pairs l = l.
Proof.
  intros Hd. unfold Dict.of_pairs. now rewrite (of_pairs_from l [] Hd).
Qed.

Lemma parse_members_more (f : nat) (k s : string) (r : list Json.token) :
  1 <= f ->
  Json.parse_members (S f)
    (Json.TString k :: Json.TColon :: Json.TString s :: Json.TComma :: r)
  = match Json.parse_members f r with
    | Some (kvs, r') => Some ((k, JStr s) :: kvs, r')
    | None => None
    end.
Proof. intros Hf. destruct f as [|f]; [lia|reflexivity]. Qed.

Lemma parse_members_last (f : nat) (k s : string) (r : list Json.token) :
  1 <= f ->
  Json.parse_members (S f)
    (Json.TString k :: Json.TColon :: Json.TString s :: Json.TRBrace :: r)
  = Some ([(k, JStr s)], r).
Proof. intros Hf. destruct f as [|f]; [lia|reflexivity]. Qed.

Lemma parse_members_ok (r : list (string * json)) :
  forall k s f rest,
    forallb plain_field r = true ->
    List.length r + 2 <= f ->
    Json.parse_members f
      (Json.TString k :: Json.TColon :: Json.TString s
       :: (more_member_tokens r ++ Json.TRBrace :: rest))
    = Some ((k, JStr s) :: r, rest).
Proof.
  induction r as [|[k1 v1] r IH]; intros k s f rest Hp Hf;
    destruct f as [|f]; try (simpl in Hf; lia).
  - apply parse_members_last. simpl in Hf. lia.
  - cbn [forallb] in Hp. apply andb_prop in Hp as [Hf1 Hp].
    unfold plain_field in Hf1. cbn [fst snd] in Hf1.
    apply andb_prop in Hf1 as [_ Hv].
    destruct v1 as [| | |s1| |]; try discriminate.
    cbn [more_member_tokens flat_map fst snd value_token app].
    fold (more_member_tokens r).
    rewrite parse_members_more by (simpl in Hf; lia).
    rewrite IH; [reflexivity|exact Hp|simpl in Hf; lia].
Qed.

Lemma more_member_tokens_length (r : list (string * json)) :
  List.length (more_member_tokens r) = 4 * List.length r.
Proof. induction r as [|kv r IH]; simpl; [reflexivity|]. rewrite IH. lia. Qed.

Lemma parse_record_ok (v : json) (f : nat) (rest : list Json.token) :
  plain_record v = true ->
  List.length (record_tokens v) <= f ->
  Json.parse_value f (record_tokens v ++ rest) = Some (v, rest).
Proof.
  intros Hp Hf. destruct v as [| | | | |fields]; try discriminate.
  unfold plain_record in Hp. apply andb_prop in Hp as [Hp Hd].
  destruct fields as [|[k v0] fields].
  - destruct f as [|f]; [simpl in Hf; lia|reflexivity].
  - cbn [forallb] in Hp. apply andb_prop in Hp as [Hf1 Hp].
    unfold plain_field in Hf1. cbn [fst snd] in Hf1.
    apply andb_prop in Hf1 as [_ Hv].
    destruct v0 as [| | |s| |]; try discriminate.
    cbn [record_tokens value_token] in Hf |- *.
    cbn [List.length] in Hf. rewrite length_app, more_member_tokens_length in Hf.
    cbn [List.length] in Hf.
    destruct f as [|f]; [lia|].
    rewrite <- !app_comm_cons, <- app_assoc. cbn [app].
    change (Json.parse_value (S f)
              (Json.TLBrace :: Json.TString k :: Json.TColon :: Json.TString s
               :: more_member_tokens fields ++ Json.TRBrace :: rest))
      with (match Json.parse_members f
                    (Json.TString k :: Json.TColon :: Json.TString s
                     :: more_member_tokens fields ++ Json.TRBrace :: rest) with
            | Some (kvs, r') => Some (JObj (Dict.of_pairs kvs), r')
            | None => None
            end).
    rewrite parse_members_ok by (assumption || lia).
    now rewrite (of_pairs_distinct _ Hd).
Qed.

Lemma parse_items_unfold (f : nat) (ts : list Json.token) :
  Json.parse_items (S f) ts
  = match Json.parse_value f ts with
    | Some (v, Json.TComma :: r) =>
        match Json.parse_items f r with
        | Some (vs, r') => Some (v :: vs, r')
        | None => None
        end
    | Some (v, Json.TRBracket :: r) => Some ([v], r)
    | _ => None
    end.
Proof. reflexivity. Qed.

Lemma parse_items_ok (r : list json) :
  forall x f rest,
    plain_record x = true ->
    Forall (fun v => plain_record v = true) r ->
    List.length (record_tokens x ++ more_item_tokens r) < f ->
    Json.parse_items f
      (record_tokens x ++ more_item_tokens r ++ Json.TRBracket :: rest)
    = Some (x :: r, rest).
Proof.
  induction r as [|y r IH]; intros x f rest Hx Hr Hf;
    (destruct f as [|f]; [lia|]); rewrite parse_items_unfold;
    rewrite length_app in Hf.
  - cbn [more_item_tokens flat_map app].
    rewrite (parse_record_ok x f _ Hx) by (simpl in Hf; lia). reflexivity.
  - inversion Hr as [|? ? Hy Hr']; subst.
    cbn [more_item_tokens flat_map] in Hf |- *. fold (more_item_tokens r) in Hf |- *.
    rewrite (parse_record_ok x f _ Hx) by lia.
    rewrite <- !app_comm_cons, <- app_assoc.
    rewrite IH; [reflexivity|exact Hy|exact Hr'|].
    cbn [List.length app] in Hf. rewrite !length_app in Hf |- *. lia.
Qed.

Lemma record_tokens_head (x : json) :
  exists ts, record_tokens x = Json.TLBrace :: ts.
Proof.
  destruct x as [| | | | |[|[k v] r]]; simpl; eauto.
Qed.

(** [json.loads] of what [json.dump] wrote for a list of records. *)
Lemma loads_dumps_log (log : list json) (text : string) :
  Forall (fun v => plain_record v = true) log ->
  Dump.dumps 0 (JArr log) = Some text ->
  Json.loads text = Ok (JArr log).
Proof.
  intros Hp Ht. unfold Json.loads.
  rewrite (lexes_log log text Hp Ht (String.length text) (le_n _)).
  destruct log as [|x r]; [reflexivity|].
  inversion Hp as [|? ? Hx Hr]; subst.
  cbn [log_tokens]. destruct (record_tokens_head x) as [ts Hts].
  assert (Hitems :
    Json.parse_items
      (List.length (Json.TLBracket
                    :: record_tokens x ++ more_item_tokens r ++ [Json.TRBracket]))
      (record_tokens x ++ more_item_tokens r ++ [Json.TRBracket])
    = Some (x :: r, [])).
  { apply parse_items_ok; [exact Hx|exact Hr|].
    cbn [List.length]. rewrite !length_app. simpl. lia. }
  revert Hitems. rewrite Hts. cbn [app]. intros Hitems.
  change (Json.parse_value (S ?n) (Json.TLBracket :: Json.TLBrace :: ?t))
    with (match Json.parse_items n (Json.TLBrace :: t) with
          | Some (vs, r') => Some (JArr vs, r')
          | None => None
          end).
  now rewrite Hitems.
Qed.

(** *** Writing never fails on plain records *)

Lemma body_plain (s : string) : plain s = true -> exists b, Dump.body s = Some b.
Proof.
  induction s as [|c s IH]; simpl; [eauto|]. intros H.
  apply andb_prop in H as [Hc Hs]. destruct (IH Hs) as [b ->].
  destruct (Dump.escape c) as [e|]; [eauto|discriminate].
Qed.

Lemma quote_plain (s : string) : plain s = true -> exists q, Dump.quote s = Some q.
Proof.
  intros H. unfold Dump.quote. destruct (body_plain s H) as [b ->]. eauto.
Qed.

Lemma more_members_plain (level : nat) (fields : list (string * json)) :
  forallb plain_field fields = true ->
  exists text,
    Dump.more (fun kv : string * json =>
                 let (k', y) := kv in
                 Dump.member (Dump.quote k') (Dump.dumps (S level) y))
              ("," ++ Dump.newline_indent (S level)) fields = Some text.
Proof.
  induction fields as [|[k v] fields IH]; intros Hp; [simpl; eauto|].
  cbn [forallb] in Hp. apply andb_prop in Hp as [Hf Hp].
  unfold plain_field in Hf. cbn [fst snd] in Hf. apply andb_prop in Hf as [Hk Hv].
  destruct v as [| | |s| |]; try discriminate.
  destruct (quote_plain k Hk) as [q Hq]. destruct (quote_plain s Hv) as [qs Hqs].
  destruct (IH Hp) as [b Hb].
  cbn [Dump.more Dump.dumps]. rewrite Hq, Hqs, Hb. simpl. eauto.
Qed.

Lemma dumps_plain_record (level : nat) (v : json) :
  plain_record v = true -> exists text, Dump.dumps level v = Some text.
Proof.
  intros Hp. destruct v as [| | | | |fields]; try discriminate.
  unfold plain_record in Hp. apply andb_prop in Hp as [Hp _].
  destruct fields as [|[k v] fields]; [simpl; eauto|].
  cbn [forallb] in Hp. apply andb_prop in Hp as [Hf Hp].
  unfold plain_field in Hf. cbn [fst snd] in Hf. apply andb_prop in Hf as [Hk Hv].
  destruct v as [| | |s| |]; try discriminate.
  destruct (quote_plain k Hk) as [q Hq]. destruct (quote_plain s Hv) as [qs Hqs].
  destruct (more_members_plain level fields Hp) as [b Hb].
  cbn [Dump.dumps]. rewrite Hq, Hqs, Hb. simpl. eauto.
Qed.

Lemma more_items_plain (level : nat) (items : list json) :
  Forall (fun v => plain_record v = true) items ->
  exists text,
    Dump.more (Dump.dumps (S level)) ("," ++ Dump.newline_indent (S level)) items
    = Some text.
Proof.
  induction 1 as [|x items Hx _ [b Hb]]; [simpl; eauto|].
  destruct (dumps_plain_record (S level) x Hx) as [a Ha].
  cbn [Dump.more]. rewrite Ha, Hb. eauto.
Qed.

Lemma dumps_plain_log (log : list json) :
  Forall (fun v => plain_record v = true) log ->
  exists text, Dump.dumps 0 (JArr log) = Some text.
Proof.
  intros Hp. destruct log as [|x log]; [simpl; eauto|].
  inversion Hp as [|? ? Hx Hr]; subst.
  destruct (dumps_plain_record 1 x Hx) as [a Ha].
  destruct (more_items_plain 0 log Hr) as [b Hb].
  cbn [Dump.dumps]. rewrite Ha, Hb. simpl. eauto.
Qed.

(** *** The entries that [organize_file] logs *)

Lemma plain_app (a b : string) : plain (a ++ b) = plain a && plain b.
Proof.
  induction a as [|c a IH]; simpl; [reflexivity|]. rewrite IH. apply andb_assoc.
Qed.

Lemma digit_plain (c : ascii) :
  Json.is_digit c = true ->
  match Dump.escape c with Some _ => true | None => false end = true.
Proof. destruct c as [[] [] [] [] [] [] [] []]; vm_compute; auto. Qed.

Lemma digits_plain (s : string) : Spec.all_digits s = true -> plain s = true.
Proof.
  induction s as [|c s IH]; [reflexivity|]. cbn [Spec.all_digits plain].
  intros H. apply andb_prop in H as [Hc Hs]. now rewrite (digit_plain c Hc), IH.
Qed.

Lemma of_nat_plain (n : nat) : plain (Str.of_nat n) = true.
Proof. apply digits_plain, string_of_uint_digits. Qed.

Lemma of_nat2_plain (n : nat) : plain (Str.of_nat2 n) = true.
Proof.
  unfold Str.of_nat2. destruct (n <? 10)%nat; [|apply of_nat_plain].
  change ("0" ++ Str.of_nat n)%string with (String "0" (Str.of_nat n)).
  cbn [plain]. now rewrite of_nat_plain.
Qed.

Lemma isoformat_plain (t : datetime) : plain (isoformat t) = true.
Proof.
  unfold isoformat.
  change (strftime t "%Y-%m-%dT%H:%M:%S")
    with (Str.of_nat (year t)
          ++ String "-" (Str.of_nat2 (month t)
          ++ String "-" (Str.of_nat2 (day t)
          ++ String "T" (Str.of_nat2 (hour t)
          ++ String ":" (Str.of_nat2 (minute t)
          ++ String ":" (Str.of_nat2 (second t) ++ ""))))))%string.
  repeat (rewrite plain_app || rewrite of_nat_plain || rewrite of_nat2_plain
          || cbn [plain andb]).
  reflexivity.
Qed.

Lemma log_entry_plain (E : env) (p q : path) :
  plain (Path.str p) = true -> plain (Path.str q) = true ->
  plain_record (log_entry E p q) = true.
Proof.
  intros Hp Hq. unfold log_entry, plain_record, plain_field.
  cbn [forallb fst snd map]. rewrite Hp, Hq, isoformat_plain. reflexivity.
Qed.

(** *** Saving, finding and loading *)

Lemma lookup_put_parent (l : FS.loc) (name : string) (x : node) :
  forall F es,
    FS.lookup l F = Some (Dir es) ->
    FS.lookup l (FS.put (l ++ [name]) x F) = Some (Dir (Dict.set name x es)).
Proof.
  induction l as [|c l IH]; intros F es H.
  - simpl in H. injection H as ->. reflexivity.
  - destruct F as [t y|fs]; [discriminate|]. simpl in H.
    destruct (Dict.get c fs) as [ch|] eqn:Hget; [|discriminate].
    change ((c :: l) ++ [name]) with (c :: (l ++ [name])).
    destruct (l ++ [name]) as [|c2 r] eqn:Hl; [now destruct l|].
    rewrite put_cons2, Hget. cbn [FS.lookup]. rewrite get_set_same.
    now apply IH.
Qed.

(** X17.  A saved undo log can be found and read back.  When the log is
    not empty and its entries are records of strings that [json.dump]
    writes without a [\uXXXX] escape (as are the entries that
    [organize_file] logs for paths made of printable ASCII characters),
    and the working directory can take the file, [save_undo_log] writes
    a file that [find_undo_logs] lists and whose text [json.loads] turns
    back into the very list of entries that was saved. *)
Theorem saved_log_is_found_and_read_back (E : env) (st : state) :
  undo_log st <> [] ->
  Forall (fun v => plain_record v = true) (undo_log st) ->
  FS.is_dir (cwd E) (fs st) = true ->
  FS.is_dir (cwd E ++ [undo_log_name (clock E)]) (fs st) = false ->
  (exists st' text logs,
      save_undo_log E st = Some (st', Saved (undo_log_name (clock E)))
      /\ undo_log st' = undo_log st
      /\ FS.lookup (cwd E ++ [undo_log_name (clock E)]) (fs st')
         = Some (File (clock E) text)
      /\ UndoTool.find_undo_logs E (fs st') = Ok logs
      /\ In (undo_log_name (clock E)) logs
      /\ Json.loads text = Ok (JArr (undo_log st)))
  /\ (forall p q,
        plain (Path.str p) = true -> plain (Path.str q) = true ->
        plain_record (log_entry E p q) = true).
Proof.
  intros Hne Hp Hcwd Hfree. split; [|intros p q; apply log_entry_plain].
  destruct (dumps_plain_log _ Hp) as [text Ht].
  set (name := undo_log_name (clock E)) in *.
  set (target := cwd E ++ [name]) in *.
  set (d' := FS.put target (File (clock E) text) (fs st)).
  unfold FS.is_dir in Hcwd.
  destruct (FS.lookup (cwd E) (fs st)) as [[|es]|] eqn:Hl; try discriminate.
  pose proof (lookup_put_parent (cwd E) name (File (clock E) text) (fs st) es Hl)
    as Hl'. fold target in Hl'. fold d' in Hl'.
  exists (with_fs st d'), text.
  exists (sorted_reverse
            (filter UndoTool.is_undo_log
               (map fst (Dict.set name (File (clock E) text) es)))).
  split; [|split; [|split; [|split; [|split]]]].
  - unfold save_undo_log. destruct (undo_log st) as [|e log]; [contradiction|].
    fold name. fold target. unfold FS.is_dir at 1. rewrite Hl, Hfree. cbn [negb andb].
    now rewrite Ht.
  - reflexivity.
  - cbn [fs with_fs]. unfold d'. apply lookup_put_same.
    + unfold target. intros Hnil. apply app_eq_nil in Hnil as [_ Hnil]. discriminate.
    + unfold target. rewrite removelast_last. unfold FS.is_dir. now rewrite Hl.
  - unfold UndoTool.find_undo_logs. cbn [fs with_fs]. now rewrite Hl'.
  - apply (Permutation_in _ (Permutation_sym (sorted_reverse_perm _))).
    apply filter_In. split.
    + apply (dict_get_in name (File (clock E) text)). apply get_set_same.
    + unfold UndoTool.is_undo_log, name, undo_log_name.
      rewrite startswith_app. rewrite <- string_app_assoc. now rewrite endswith_app.
  - now apply loads_dumps_log.
Qed.

Lemma saved_log_is_found_and_read_back_witness :
  let E := Scenario.env_with "rename" in
  let d := Dir [("home", Dir [("user", Dir [])])] in
  let log := [log_entry E ["/"; "S"; "my file.txt"]
                          ["/"; "D"; "Documents"; "Text Files"; "my file.txt"]] in
  let st := mkState d 1 0 log in
  Forall (fun v => plain_record v = true) log
  /\ exists st' text logs,
       save_undo_log E st = Some (st', Saved "undo_log_20240101_120000.json")
       /\ UndoTool.find_undo_logs E (fs st') = Ok logs
       /\ In "undo_log_20240101_120000.json" logs
       /\ FS.lookup ["home"; "user"; "undo_log_20240101_120000.json"] (fs st')
          = Some (File (clock E) text)
       /\ Json.loads text = Ok (JArr log).
Proof.
  intros E d log st.
  assert (Hp : Forall (fun v => plain_record v = true) log)
    by (repeat constructor).
  split; [exact Hp|].
  destruct (saved_log_is_found_and_read_back E st) as [(st' & text & logs & H) _];
    [discriminate|exact Hp|reflexivity|reflexivity|].
  destruct H as (Hsave & _ & Hfile & Hfind & Hin & Hload).
  exists st', text, logs. repeat split; assumption.
Defined.

(** ** What a dry run reports *)

Lemma probe_first (E : env) (d : node) (destination q : path) (fuel : nat) :
  Path.wf destination ->
  path_exists E d destination = true ->
  probe E fuel d (Path.parent destination) (Path.stem destination)
        (Path.suffix destination) destination 1 = Some q ->
  exists k,
    1 <= k
    /\ (forall j, 1 <= j < k ->
          path_exists E d (Spec.candidate destination j) = true)
    /\ path_exists E d (Spec.candidate destination k) = false
    /\ q = Spec.candidate destination k.
Proof.
  intros Hwf Hex Hq.
  destruct (probe_first_missing E d destination Hwf Hex)
    as (k & Hk & Hbelow & Hmiss & Hprobe).
  exists k. repeat (split; [assumption|]).
  pose proof (probe_mono E d _ _ _ fuel (Nat.max fuel k) destination 1 q Hq
                (Nat.le_max_l _ _)) as H1.
  rewrite (Hprobe (Nat.max fuel k) (Nat.le_max_r _ _)) in H1. now injection H1.
Qed.

(** One dry-run call on a file reports what the specification expects,
    and leaves the disk alone. *)
Lemma organize_file_would_be (E : env) (rules : list (string * json))
    (fuel : nat) (st st' : state) (p : path) (destination_folder : string)
    (outcome : bool * string) (t : datetime) (x : string) :
  FS.lookup (resolve E p) (fs st) = Some (File t x) ->
  organize_file E rules fuel st p destination_folder true = Some (st', outcome) ->
  would_be E rules (fs st) destination_folder p outcome.
Proof.
  intros Hfile H. unfold organize_file in H. unfold would_be.
  unfold path_exists at 1, path_is_dir, FS.exists_, FS.is_dir in H.
  rewrite Hfile in H. cbn [negb orb] in H.
  destruct (generate_destination_path E rules (fs st) p destination_folder)
    as [dest_dir|e] eqn:Hgen.
  2: { injection H as <- <-. eexists. reflexivity. }
  cbv zeta in H |- *.
  destruct (path_exists E (fs st) (Path.join dest_dir (Path.name p))) eqn:Hex;
    cbn [negb].
  2: { now injection H as <- <-. }
  unfold handle_duplicate in H.
  destruct (setting_is E "handle_duplicates" "rename" "skip").
  { now injection H as <- <-. }
  destruct (setting_is E "handle_duplicates" "rename" "overwrite").
  { now injection H as <- <-. }
  destruct (probe E fuel (fs st) _ _ _ _ 1) as [q|] eqn:Hq; [|discriminate].
  cbn [option_map] in H. injection H as <- <-.
  destruct (probe_first E (fs st) (Path.join dest_dir (Path.name p)) q fuel)
    as (k & Hk & Hbelow & Hmiss & ->);
    [|exact Hex|exact Hq|].
  { apply join_wf. eapply generate_destination_path_wf; eauto. }
  exists k. now repeat split.
Qed.

Lemma organize_each_would_be (E : env) (rules : list (string * json))
    (fuel : nat) (destination_folder : string) (d : node) (files : list path) :
  (forall j, running E j = true) ->
  Forall (fun p => exists t x, FS.lookup (resolve E p) d = Some (File t x)) files ->
  forall i st st' results,
    fs st = d ->
    organize_each E rules fuel i st files destination_folder true = Some (st', results) ->
    Forall2 (would_be E rules d destination_folder) files results.
Proof.
  intros Hrun Hfiles.
  induction Hfiles as [|p files (t & x & Hp) _ IH]; intros i st st' results Hfs H;
    simpl in H.
  { injection H as <- <-. constructor. }
  rewrite Hrun in H. simpl in H.
  destruct (organize_file E rules fuel st p destination_folder true)
    as [[st1 outcome]|] eqn:Hf; [|discriminate].
  destruct (organize_each E rules fuel (S i) st1 files destination_folder true)
    as [[st2 rest]|] eqn:He; [|discriminate].
  injection H as <- <-.
  destruct (organize_file_dry_run E rules fuel st st1 p destination_folder outcome Hf)
    as (Hfs1 & _).
  constructor.
  - rewrite <- Hfs. apply (organize_file_would_be E rules fuel st st1 p _ outcome t x);
      [now rewrite Hfs|exact Hf].
  - apply (IH (S i) st1 st2 rest); [congruence|exact He].
Qed.

(** C6.  A dry-run pass leaves the disk and the undo log exactly as
    they were (it creates no directory, moves no file, logs nothing).
    As long as it is not cancelled it still reports on every file it has
    to visit, each once and none besides: the files below the source
    folder whose name is not hidden.  Each report is the outcome that
    the resolution steps give on the disk as it is: the place a move
    would take the file to, which under the rename policy is the first
    free [name_k.ext], or the notice that the file would be skipped, or
    the error that stops the resolution.  For the two photos of the
    scenario both reports name [photo.jpg], since nothing has moved. *)
Theorem organize_folder_dry_run_changes_nothing
    (E : env) (rules : list (string * json)) (st : state)
    (source_folder destination_folder : string) :
  (forall fuel st' ret,
      organize_folder E rules fuel st source_folder destination_folder true
        = Some (st', ret) ->
      fs st' = fs st /\ undo_log st' = undo_log st /\ moved st' = moved st)
  /\ (forall n,
        FS.lookup (resolve E (Path.of_string source_folder)) (fs st) = Some n ->
        names_valid n = true -> names_distinct n = true ->
        (forall j, running E j = true) ->
        exists files N,
          (forall p, In p files <-> eligible n (Path.of_string source_folder) p)
          /\ NoDup files
          /\ forall fuel, N <= fuel ->
               exists st' results,
                 organize_folder E rules fuel st source_folder destination_folder true
                 = Some (st', FolderDone results)
                 /\ Forall2 (would_be E rules (fs st) destination_folder) files results)
  /\ organize_folder (Scenario.env_with "rename") default_rules 0
        (Scenario.fresh Scenario.two_photos) "/S" "/D" true
      = Some (Scenario.fresh Scenario.two_photos,
              FolderDone
                [(true, "Would move /S/a/photo.jpg -> /D/Images/2023/05/photo.jpg");
                 (true, "Would move /S/b/photo.jpg -> /D/Images/2023/05/photo.jpg")]).
Proof.
  split; [|split].
  - intros fuel st' ret H. unfold organize_folder in H.
    destruct (negb (path_exists E (fs st) (Path.of_string source_folder))).
    { injection H as <- <-. now repeat split. }
    destruct (organize_each E rules fuel 0 st _ destination_folder true)
      as [[st1 results]|] eqn:He; [|discriminate].
    injection H as <- <-.
    exact (organize_each_dry_run E rules fuel destination_folder _ 0 st st1 results He).
  - intros n Hn Hv Hd Hrun.
    set (src := Path.of_string source_folder) in *.
    assert (Hall : all_files E (fs st) src = walk_files src n)
      by (unfold all_files; now rewrite Hn).
    destruct (organize_each_terminates E rules destination_folder true
                (all_files E (fs st) src) 0 st) as (N & [st' results] & HN).
    exists (all_files E (fs st) src), N. split; [|split].
    + intros p. rewrite Hall. split.
      * intros Hin.
        destruct (walk_files_sound n src p Hv Hd Hin)
          as (rel & nm & t & x & -> & Hl & _ & Hh).
        now exists rel, nm, t, x.
      * intros (rel & nm & t & x & -> & Hl & Hh).
        now apply (walk_files_complete rel src n nm t x).
    + rewrite Hall. now apply walk_files_NoDup.
    + intros fuel Hfuel. exists st', results.
      unfold organize_folder. fold src.
      assert (Hsrc : path_exists E (fs st) src = true)
        by (unfold path_exists, FS.exists_; now rewrite Hn).
      rewrite Hsrc. cbn [negb]. rewrite (HN fuel Hfuel). split; [reflexivity|].
      apply (organize_each_would_be E rules fuel destination_folder (fs st) _ Hrun)
        with (i := 0) (st := st) (st' := st'); [|reflexivity|exact (HN fuel Hfuel)].
      apply Forall_forall. intros p Hin. rewrite Hall in Hin.
      pose proof (walk_files_below n src p Hv Hin) as (rel0 & _ & Hrel0 & Hp0).
      destruct (walk_files_sound n src p Hv Hd Hin)
        as (rel & nm & t & x & -> & Hl & _ & _).
      exists t, x. apply app_inv_head in Hp0. rewrite <- Hp0 in Hrel0.
      rewrite (resolve_app E src _ Hrel0). now rewrite (lookup_app _ _ (fs st) n Hn).
  - vm_compute. reflexivity.
Qed.

(** ** Round trip: what a step leaves alone *)

Lemma not_dir_not_above_dir (F : node) (a l : FS.loc) :
  FS.is_dir a F = false -> FS.is_dir l F = true -> FS.is_prefix a l = false.
Proof.
  intros Ha Hl. destruct (FS.is_prefix a l) eqn:Hp; [|reflexivity].
  unfold FS.is_dir in *.
  destruct (FS.lookup a F) as [[t x|es]|] eqn:Hla; try discriminate.
  - destruct (lookup_file_below a l F t x Hla Hp) as [->|Hn].
    + rewrite Hla in Hl. discriminate.
    + rewrite Hn in Hl. discriminate.
  - rewrite (lookup_absent_below a l F Hla Hp) in Hl. discriminate.
Qed.

(** Below a file, and below a place where nothing is, there is nothing
    to remove and no directory to put anything into. *)
Lemma remove_below (l : FS.loc) :
  forall r F,
    r <> [] ->
    FS.lookup l F = None \/ (exists t x, FS.lookup l F = Some (File t x)) ->
    FS.remove (l ++ r) F = F.
Proof.
  induction l as [|c l IH]; intros r F Hr Hl.
  - simpl in Hl. destruct Hl as [Hl|(t & x & Hl)]; [discriminate|].
    injection Hl as ->. destruct r as [|c [|c2 r]]; [contradiction|reflexivity..].
  - cbn [app]. destruct (l ++ r) as [|c2 rest] eqn:Hlr.
    { apply app_eq_nil in Hlr as [_ ->]. contradiction. }
    destruct F as [t x|es]; [reflexivity|].
    rewrite remove_cons2. simpl in Hl.
    destruct (Dict.get c es) as [ch|] eqn:Hget; [|reflexivity].
    rewrite <- Hlr, (IH r ch Hr Hl). now rewrite (set_same c ch es Hget).
Qed.

Lemma put_below (l : FS.loc) (x : node) :
  forall r F,
    r <> [] ->
    FS.lookup l F = None \/ (exists t y, FS.lookup l F = Some (File t y)) ->
    FS.put (l ++ r) x F = F.
Proof.
  induction l as [|c l IH]; intros r F Hr Hl.
  - simpl in Hl. destruct Hl as [Hl|(t & y & Hl)]; [discriminate|].
    injection Hl as ->. destruct r as [|c [|c2 r]]; [contradiction|reflexivity..].
  - cbn [app]. destruct (l ++ r) as [|c2 rest] eqn:Hlr.
    { apply app_eq_nil in Hlr as [_ ->]. contradiction. }
    destruct F as [t y|es]; [reflexivity|].
    rewrite put_cons2. simpl in Hl.
    destruct (Dict.get c es) as [ch|] eqn:Hget; [|reflexivity].
    rewrite <- Hlr, (IH r ch Hr Hl). now rewrite (set_same c ch es Hget).
Qed.

Lemma strict_prefix (s l : FS.loc) :
  FS.is_prefix l s = true -> FS.is_prefix s l = false ->
  exists r, r <> [] /\ s = l ++ r.
Proof.
  intros Hls Hsl. apply is_prefix_spec in Hls as [r ->].
  exists r. split; [|reflexivity]. intros ->.
  rewrite app_nil_r, is_prefix_refl in Hsl. discriminate.
Qed.

Lemma lookup_remove_keeps_file (s l : FS.loc) (F : node) (t : datetime) (x : string) :
  FS.lookup l F = Some (File t x) ->
  FS.is_prefix s l = false ->
  FS.lookup l (FS.remove s F) = Some (File t x).
Proof.
  intros Hl Hsl. destruct (FS.is_prefix l s) eqn:Hls.
  - destruct (strict_prefix s l Hls Hsl) as (r & Hr & ->).
    rewrite (remove_below l r F Hr); [exact Hl|]. right. eauto.
  - now rewrite (lookup_remove_unrelated s l F Hsl Hls).
Qed.

Lemma lookup_put_keeps_file (s l : FS.loc) (n F : node) (t : datetime) (x : string) :
  FS.lookup l F = Some (File t x) ->
  FS.is_prefix s l = false ->
  FS.lookup l (FS.put s n F) = Some (File t x).
Proof.
  intros Hl Hsl. destruct (FS.is_prefix l s) eqn:Hls.
  - destruct (strict_prefix s l Hls Hsl) as (r & Hr & ->).
    rewrite (put_below l n r F Hr); [exact Hl|]. right. eauto.
  - now rewrite (lookup_put_unrelated s n l F Hsl Hls).
Qed.

Lemma lookup_put_keeps_absent (s l : FS.loc) (n F : node) :
  FS.lookup l F = None ->
  FS.is_prefix s l = false ->
  FS.lookup l (FS.put s n F) = None.
Proof.
  intros Hl Hsl. destruct (FS.is_prefix l s) eqn:Hls.
  - destruct (strict_prefix s l Hls Hsl) as (r & Hr & ->).
    rewrite (put_below l n r F Hr); [exact Hl|]. now left.
  - now rewrite (lookup_put_unrelated s n l F Hsl Hls).
Qed.

Lemma is_prefix_app_false (a l : FS.loc) (r : list string) :
  FS.is_prefix a l = false -> FS.is_prefix (a ++ r) l = false.
Proof.
  intros H. destruct (FS.is_prefix (a ++ r) l) eqn:Hp; [|reflexivity].
  rewrite (is_prefix_trans a (a ++ r) l (is_prefix_app a r) Hp) in H. discriminate.
Qed.

Lemma is_prefix_removelast_false (l p : FS.loc) :
  FS.is_prefix l p = false -> FS.is_prefix l (removelast p) = false.
Proof.
  intros H. destruct (FS.is_prefix l (removelast p)) eqn:Hp; [|reflexivity].
  rewrite (is_prefix_trans l (removelast p) p Hp (removelast_is_prefix p)) in H.
  discriminate.
Qed.

(** What [shutil.move] does when it returns: the entry is taken to the
    destination, or into it; nothing happens only when the destination
    lies at or above the source. *)
Lemma move_shape (src dst : FS.loc) (F F' : node) :
  FS.move src dst F = Ok F' ->
  (F' = F /\ FS.is_prefix dst src = true)
  \/ exists x real,
       FS.lookup src F = Some x
       /\ real = (if FS.is_dir dst F then dst ++ [last src EmptyString] else dst)
       /\ FS.is_dir real F = false
       /\ FS.is_dir (removelast real) F = true
       /\ F' = FS.put real x (FS.remove src F).
Proof.
  unfold FS.move. intros H.
  destruct (FS.is_dir dst F && FS.loc_eqb src dst) eqn:Hsame.
  { injection H as <-. left. split; [reflexivity|].
    apply andb_prop in Hsame as [_ Heq]. apply loc_eqb_eq in Heq as ->.
    apply is_prefix_refl. }
  set (real := if FS.is_dir dst F then dst ++ [last src EmptyString] else dst) in *.
  assert (Hreal : FS.is_dir dst F && FS.exists_ real F = false -> FS.is_dir real F = false).
  { unfold real. destruct (FS.is_dir dst F) eqn:Hd; [|auto].
    cbn [andb]. unfold FS.exists_, FS.is_dir.
    now destruct (FS.lookup (dst ++ [last src EmptyString]) F). }
  destruct (FS.is_dir dst F && FS.exists_ real F); [discriminate|].
  specialize (Hreal eq_refl).
  destruct (FS.lookup src F) as [x|] eqn:Hsrc; [|discriminate].
  destruct (FS.loc_eqb src real) eqn:Heq.
  { injection H as <-. left. split; [reflexivity|].
    apply loc_eqb_eq in Heq. rewrite Heq. unfold real.
    destruct (FS.is_dir dst F); [apply is_prefix_app|apply is_prefix_refl]. }
  destruct (FS.is_prefix src real); [discriminate|].
  assert (Hput : (if FS.is_dir (removelast real) F
                  then Ok (FS.put real x (FS.remove src F))
                  else Raise (FileNotFoundError (FS.loc_str real))) = Ok F' ->
                 FS.is_dir (removelast real) F = true
                 /\ F' = FS.put real x (FS.remove src F)).
  { destruct (FS.is_dir (removelast real) F); [|discriminate].
    intros [= <-]. now split. }
  right. exists x, real.
  destruct x as [t y|es]; [|destruct (FS.lookup real F) as [[|]|]; try discriminate];
    destruct (Hput H) as [Hpar ->]; now repeat split.
Qed.

(** A move after [mkdir] is a step. *)
Lemma moved_by_move (prepared src dst : FS.loc) (G G1 G2 : node) :
  FS.mkdir_p prepared G = Ok G1 ->
  FS.move src dst G1 = Ok G2 ->
  moved_by prepared src dst G G2.
Proof.
  intros Hmk Hmv. right. exists G1. split; [exact Hmk|].
  destruct (move_shape _ _ _ _ Hmv) as [[-> _]|(n & real & Hn & Hreal & Hnd1 & Hpar & ->)];
    [now left|].
  right. exists n, real. split; [exact Hn|]. split; [|now repeat split].
  rewrite Hreal. destruct (FS.is_dir dst G1); eauto.
Qed.

(** *** The three things a step keeps *)

Lemma moved_by_keeps_file (prepared src dst : FS.loc) (G G' : node)
    (l : FS.loc) (t : datetime) (x : string) :
  moved_by prepared src dst G G' ->
  FS.lookup l G = Some (File t x) ->
  FS.is_prefix src l = false -> FS.is_prefix dst l = false ->
  FS.lookup l G' = Some (File t x).
Proof.
  intros [->|(G1 & Hmk & Hmv)] Hl Hsrc Hdst; [exact Hl|].
  pose proof (lookup_mkdir_p_file prepared G G1 l t x Hmk Hl) as Hl1.
  destruct Hmv as [->|(n & real & Hn & Hreal & _ & _ & ->)]; [exact Hl1|].
  apply lookup_put_keeps_file; [now apply lookup_remove_keeps_file|].
  destruct Hreal as [->|[nm ->]]; [exact Hdst|now apply is_prefix_app_false].
Qed.

Lemma moved_by_keeps_absent (prepared src dst : FS.loc) (G G' : node) (l : FS.loc) :
  moved_by prepared src dst G G' ->
  FS.lookup l G = None ->
  FS.is_prefix l prepared = false -> FS.is_prefix dst l = false ->
  FS.lookup l G' = None.
Proof.
  intros [->|(G1 & Hmk & Hmv)] Hl Hpre Hdst; [exact Hl|].
  assert (Hl1 : FS.lookup l G1 = None)
    by (now rewrite (lookup_mkdir_p prepared G G1 l Hmk Hpre)).
  destruct Hmv as [->|(n & real & Hn & Hreal & _ & _ & ->)]; [exact Hl1|].
  apply lookup_put_keeps_absent; [now apply lookup_remove_none|].
  destruct Hreal as [->|[nm ->]]; [exact Hdst|now apply is_prefix_app_false].
Qed.

Lemma moved_by_keeps_dir (prepared src dst : FS.loc) (G G' : node) (l : FS.loc) :
  moved_by prepared src dst G G' ->
  FS.is_dir l G = true ->
  FS.is_prefix src l = false ->
  FS.is_dir l G' = true.
Proof.
  intros [->|(G1 & Hmk & Hmv)] Hl Hsrc; [exact Hl|].
  pose proof (is_dir_mkdir_p prepared G G1 l Hmk Hl) as Hl1.
  destruct Hmv as [->|(n & real & Hn & _ & Hnd & _ & ->)]; [exact Hl1|].
  rewrite is_dir_put by (now apply (not_dir_not_above_dir G1)).
  now rewrite is_dir_remove.
Qed.

(** ** Round trip: the pass *)

(** Where a move is to go once the collision has been settled, under
    any policy. *)
Lemma settled_shape (E : env) (fuel : nat) (d : node)
    (source_path dest_dir q : path) :
  Path.wf source_path -> Path.components source_path <> [] ->
  Path.wf dest_dir ->
  (if path_exists E d (Path.join dest_dir (Path.name source_path))
   then handle_duplicate E fuel d source_path
          (Path.join dest_dir (Path.name source_path))
   else Some (Some (Path.join dest_dir (Path.name source_path))))
  = Some (Some q) ->
  (exists nm, Path.valid_name nm = true /\ q = dest_dir ++ [nm])
  /\ (setting_is E "handle_duplicates" "rename" "overwrite" = false ->
      path_exists E d q = false).
Proof.
  intros Hwf Hne Hdd Hset.
  destruct (setting_is E "handle_duplicates" "rename" "overwrite") eqn:Hover.
  - split; [|discriminate].
    pose proof (name_valid source_path Hwf Hne) as Hnm.
    rewrite (join_single dest_dir _ Hnm) in Hset.
    exists (Path.name source_path). split; [exact Hnm|].
    destruct (path_exists E d (dest_dir ++ [Path.name source_path]));
      [|now injection Hset].
    unfold handle_duplicate in Hset. rewrite Hover in Hset.
    destruct (setting_is E "handle_duplicates" "rename" "skip");
      [discriminate|now injection Hset].
  - destruct (settled_destination E fuel d source_path dest_dir q Hover Hwf Hne Hdd Hset)
      as (Hfree & nm & Hnm & ->).
    split; [eauto|auto].
Qed.

(** One call of [organize_file] in a real pass: it leaves the disk as it
    is and logs nothing; or it gets as far as the destination, creates
    its folders, and then either fails at the move or moves the file and
    logs that. *)
Lemma organize_file_trace (E : env) (rules : list (string * json)) (fuel : nat)
    (st st1 : state) (p : path) (destination_base : string)
    (ok : bool) (msg : string) :
  setting_is E "create_undo_log" "True" "True" = true ->
  Path.wf p -> Path.components p <> [] ->
  organize_file E rules fuel st p destination_base false = Some (st1, (ok, msg)) ->
  (ok = false /\ fs st1 = fs st /\ undo_log st1 = undo_log st)
  \/ exists dd nm d1 t x,
       generate_destination_path E rules (fs st) p destination_base = Ok dd
       /\ Path.valid_name nm = true
       /\ (setting_is E "handle_duplicates" "rename" "overwrite" = false ->
           path_exists E (fs st) (dd ++ [nm]) = false)
       /\ FS.lookup (resolve E p) (fs st) = Some (File t x)
       /\ FS.mkdir_p (resolve E dd) (fs st) = Ok d1
       /\ ((ok = false /\ fs st1 = d1 /\ undo_log st1 = undo_log st)
           \/ (ok = true
               /\ FS.move (resolve E p) (resolve E (dd ++ [nm])) d1 = Ok (fs st1)
               /\ undo_log st1 = undo_log st ++ [log_entry E p (dd ++ [nm])]
               /\ msg = ("Moved " ++ Path.name p ++ " -> "
                         ++ Path.str (dd ++ [nm])%list)%string)).
Proof.
  intros Hlog Hpwf Hpne H. unfold organize_file in H.
  destruct (negb (path_exists E (fs st) p) || path_is_dir E (fs st) p) eqn:Hearly.
  { injection H as <- <- <-. now left. }
  apply orb_false_iff in Hearly as [Hex Hdir]. apply negb_false_iff in Hex.
  unfold path_exists, path_is_dir, FS.exists_, FS.is_dir in Hex, Hdir.
  destruct (FS.lookup (resolve E p) (fs st)) as [[t x|es]|] eqn:Hp; try discriminate.
  clear Hex Hdir.
  destruct (generate_destination_path E rules (fs st) p destination_base)
    as [dd|e] eqn:Hgen.
  2: { injection H as <- <- <-. now left. }
  pose proof (generate_destination_path_wf E rules (fs st) p destination_base dd Hgen)
    as Hdd.
  cbv zeta in H.
  match type of H with
  | match ?s with _ => _ end = _ => destruct s as [[q|]|] eqn:Hset
  end; try discriminate.
  2: { injection H as <- <- <-. now left. }
  destruct (settled_shape E fuel (fs st) p dd q Hpwf Hpne Hdd Hset)
    as ((nm & Hnm & ->) & Hfree).
  unfold move_and_log in H.
  destruct (FS.mkdir_p (resolve E dd) (fs st)) as [d1|e] eqn:Hmk.
  2: { injection H as <- <- <-. now left. }
  right. exists dd, nm, d1, t, x.
  repeat (split; [assumption || reflexivity|]).
  destruct (FS.move (resolve E p) (resolve E (dd ++ [nm])) d1) as [d2|e] eqn:Hmv.
  - rewrite Hlog in H. injection H as <- <- <-. right. now repeat split.
  - injection H as <- <- <-. left. now repeat split.
Qed.

Lemma organize_each_app (E : env) (rules : list (string * json)) (fuel : nat)
    (destination_folder : string) (dry_run : bool) :
  (forall i, running E i = true) ->
  forall l1 l2 i st st' results,
    organize_each E rules fuel i st (l1 ++ l2) destination_folder dry_run
      = Some (st', results) ->
    exists st1 r1 r2,
      organize_each E rules fuel i st l1 destination_folder dry_run = Some (st1, r1)
      /\ organize_each E rules fuel (i + List.length l1) st1 l2 destination_folder dry_run
         = Some (st', r2)
      /\ results = r1 ++ r2 /\ List.length r1 = List.length l1.
Proof.
  intros Hrun. induction l1 as [|p l1 IH]; intros l2 i st st' results H.
  { exists st, [], results. rewrite Nat.add_0_r. now repeat split. }
  cbn [app organize_each] in H |- *. rewrite Hrun in H |- *. cbn [negb] in H |- *.
  destruct (organize_file E rules fuel st p destination_folder dry_run)
    as [[st0 outcome]|]; [|discriminate].
  destruct (organize_each E rules fuel (S i) st0 (l1 ++ l2) destination_folder dry_run)
    as [[st2 rest]|] eqn:He; [|discriminate].
  injection H as <- <-.
  destruct (IH l2 (S i) st0 st2 rest He) as (st1 & r1 & r2 & H1 & H2 & -> & Hlen).
  exists st1, (outcome :: r1), r2. rewrite H1.
  replace (i + List.length (p :: l1)) with (S i + List.length l1) by (simpl; lia).
  split; [reflexivity|]. split; [exact H2|]. split; [reflexivity|]. simpl. now rewrite Hlen.
Qed.

Lemma listed_destination (E : env) (rules : list (string * json)) (F0 : node)
    (S : FS.loc) (destination_base : string) (d : node) (p dd : path) (nm : string) :
  listed E rules F0 S destination_base p ->
  FS.lookup (resolve E p) d = FS.lookup (resolve E p) F0 ->
  generate_destination_path E rules d p destination_base = Ok dd ->
  Path.valid_name nm = true ->
  logged E F0 S (p, dd ++ [nm])
  /\ apart S (resolve E dd)
  /\ resolve E (dd ++ [nm]) = resolve E dd ++ [nm].
Proof.
  intros (Hwf & Hne & Hun & Hfile & Hsep) Hsame Hgen Hnm.
  rewrite (generate_destination_path_ext E rules d F0 p destination_base Hsame) in Hgen.
  pose proof (Hsep dd Hgen) as Hap.
  assert (Hrq : resolve E (dd ++ [nm]) = resolve E dd ++ [nm])
    by (apply resolve_snoc; now apply valid_name_not_anchor).
  split; [|now split].
  repeat split; auto.
  - apply snoc_wf; [|exact Hnm].
    eapply generate_destination_path_wf; eauto.
  - exists (resolve E dd), nm. now split.
Qed.

Lemma under_prefix (S l : FS.loc) : under S l -> FS.is_prefix S l = true.
Proof. intros (rel & _ & ->). apply is_prefix_app. Qed.

(** No logged destination, and nothing below it, lies above or below a
    place of the source tree. *)
Lemma logged_outside (E : env) (F0 : node) (S : FS.loc) (m : path * path)
    (l : FS.loc) (r : list string) :
  logged E F0 S m -> FS.is_prefix S l = true ->
  FS.is_prefix (resolve E (snd m) ++ r) l = false
  /\ FS.is_prefix l (resolve E (snd m) ++ r) = false.
Proof.
  intros (_ & _ & _ & _ & _ & dd & nm & Hap & ->) Hl.
  apply is_prefix_spec in Hl as [rel ->].
  rewrite <- app_assoc. destruct (apart_ext S dd rel ([nm] ++ r) Hap) as [H1 H2].
  now split.
Qed.

Lemma logged_outside_0 (E : env) (F0 : node) (S : FS.loc) (m : path * path)
    (l : FS.loc) :
  logged E F0 S m -> FS.is_prefix S l = true ->
  FS.is_prefix (resolve E (snd m)) l = false
  /\ FS.is_prefix l (resolve E (snd m)) = false.
Proof.
  intros Hm Hl. rewrite <- (app_nil_r (resolve E (snd m))).
  now apply (logged_outside E F0 S m l []).
Qed.

Lemma listed_files_apart (E : env) (rules : list (string * json)) (F0 : node)
    (S : FS.loc) (destination_base : string) (p p' : path) :
  listed E rules F0 S destination_base p ->
  listed E rules F0 S destination_base p' ->
  resolve E p <> resolve E p' ->
  apart (resolve E p) (resolve E p').
Proof.
  intros (_ & _ & _ & (t & x & Hp) & _) (_ & _ & _ & (t' & x' & Hp') & _) Hne.
  exact (files_apart F0 _ _ t t' x x' Hp Hp' Hne).
Qed.

(** A stretch of a pass: what it logs, and what it leaves alone. *)
Lemma organize_each_trace (E : env) (rules : list (string * json)) (F0 : node)
    (S : FS.loc) (destination_base : string) (fuel : nat) :
  setting_is E "create_undo_log" "True" "True" = true ->
  (forall i, running E i = true) ->
  forall files i st st' results,
    Forall (listed E rules F0 S destination_base) files ->
    NoDup (map (resolve E) files) ->
    (forall p, In p files ->
               FS.lookup (resolve E p) (fs st) = FS.lookup (resolve E p) F0) ->
    organize_each E rules fuel i st files destination_base false = Some (st', results) ->
    exists added,
      undo_log st' = undo_log st ++ map (entry_of E) added
      /\ Forall (logged E F0 S) added
      /\ Forall (fun m => In (fst m) files) added
      /\ (forall l t x,
            FS.lookup l (fs st) = Some (File t x) ->
            (forall p, In p files -> FS.is_prefix (resolve E p) l = false) ->
            setting_is E "handle_duplicates" "rename" "overwrite" = false
            \/ Forall (fun m => FS.is_prefix (resolve E (snd m)) l = false) added ->
            FS.lookup l (fs st') = Some (File t x)
            /\ Forall (fun m => FS.is_prefix (resolve E (snd m)) l = false) added)
      /\ (forall l, under S l -> FS.lookup l (fs st) = None ->
                    FS.lookup l (fs st') = None)
      /\ (forall l, FS.is_dir l (fs st) = true -> FS.is_dir l (fs st') = true).
Proof.
  intros Hlog Hrun.
  induction files as [|p files IH]; intros i st st' results Hlisted Hnd Hsame H.
  { injection H as <- <-. exists []. rewrite app_nil_r.
    split; [reflexivity|]. split; [constructor|]. split; [constructor|].
    split; [intros l t x Hl0 _ _; split; [exact Hl0|constructor]|]. split; auto. }
  cbn [organize_each] in H. rewrite Hrun in H. cbn [negb] in H.
  destruct (organize_file E rules fuel st p destination_base false)
    as [[st1 [ok msg]]|] eqn:Hf; [|discriminate].
  destruct (organize_each E rules fuel (Datatypes.S i) st1 files destination_base false)
    as [[st2 rest]|] eqn:He; [|discriminate].
  injection H as <- <-.
  inversion Hlisted as [|? ? Hp Hrest]; subst.
  inversion Hnd as [|? ? Hfresh Hnd']; subst.
  pose proof Hp as (Hpwf & Hpne & Hpun & (t0 & x0 & Hp0) & Hpsep).
  (* what the step on [p] does to the disk, whatever its outcome *)
  assert (Hstep :
    exists added1,
      undo_log st1 = undo_log st ++ map (entry_of E) added1
      /\ Forall (logged E F0 S) added1
      /\ Forall (fun m => fst m = p) added1
      /\ (forall l t x,
            FS.lookup l (fs st) = Some (File t x) ->
            FS.is_prefix (resolve E p) l = false ->
            setting_is E "handle_duplicates" "rename" "overwrite" = false
            \/ Forall (fun m => FS.is_prefix (resolve E (snd m)) l = false) added1 ->
            FS.lookup l (fs st1) = Some (File t x)
            /\ Forall (fun m => FS.is_prefix (resolve E (snd m)) l = false) added1)
      /\ (forall l, under S l -> FS.lookup l (fs st) = None ->
                    FS.lookup l (fs st1) = None)
      /\ (forall l, FS.is_dir l (fs st) = true -> FS.is_dir l (fs st1) = true)).
  { destruct (organize_file_trace E rules fuel st st1 p destination_base ok msg
                Hlog Hpwf Hpne Hf)
      as [(_ & Hfs & Hl)|(dd & nm & d1 & t & x & Hgen & Hnm & Hfree & Hpst & Hmk & Hout)].
    { exists []. rewrite app_nil_r, Hfs.
      split; [exact Hl|]. split; [constructor|]. split; [constructor|].
      split; [intros l t x Hl0 _ _; split; [exact Hl0|constructor]|]. split; auto. }
    destruct (listed_destination E rules F0 S destination_base (fs st) p dd nm Hp
                (Hsame p (or_introl eq_refl)) Hgen Hnm) as (Hlg & Hap & Hrq).
    assert (Hprep : forall l, under S l -> FS.is_prefix l (resolve E dd) = false).
    { intros l (rel & _ & ->). rewrite <- (app_nil_r (resolve E dd)).
      exact (proj1 (apart_ext S (resolve E dd) rel [] Hap)). }
    destruct Hout as [(_ & Hfs & Hl)|(_ & Hmv & Hl & _)].
    - exists []. rewrite app_nil_r, Hfs.
      split; [exact Hl|]. split; [constructor|]. split; [constructor|].
      split; [|split].
      + intros l t' x' Hl0 _ _. split; [|constructor].
        eapply lookup_mkdir_p_file; eauto.
      + intros l Hun Hl0.
        rewrite (lookup_mkdir_p _ _ d1 _ Hmk); [exact Hl0|now apply Hprep].
      + intros l Hl0. eapply is_dir_mkdir_p; eauto.
    - assert (Hmb : moved_by (resolve E dd) (resolve E p) (resolve E (dd ++ [nm]))
                             (fs st) (fs st1))
        by exact (moved_by_move _ _ _ _ _ _ Hmk Hmv).
      exists [(p, dd ++ [nm])].
      split; [exact Hl|]. split; [constructor; [exact Hlg|constructor]|].
      split; [constructor; [reflexivity|constructor]|]. split; [|split].
      + intros l t' x' Hl0 Hpl Hq.
        assert (Hql : FS.is_prefix (resolve E (dd ++ [nm])) l = false).
        { destruct Hq as [Hover|Hq]; [|now inversion Hq].
          specialize (Hfree Hover). unfold path_exists, FS.exists_ in Hfree.
          apply (absent_not_above (fs st) _ l (File t' x')); [|exact Hl0].
          now destruct (FS.lookup (resolve E (dd ++ [nm])) (fs st)). }
        split; [|now repeat constructor].
        exact (moved_by_keeps_file _ _ _ _ _ l t' x' Hmb Hl0 Hpl Hql).
      + intros l Hun Hl0.
        apply (moved_by_keeps_absent _ _ _ _ _ l Hmb Hl0); [now apply Hprep|].
        exact (proj1 (logged_outside_0 E F0 S (p, dd ++ [nm]) l Hlg
                        (under_prefix S l Hun))).
      + intros l Hl0. apply (moved_by_keeps_dir _ _ _ _ _ l Hmb Hl0).
        apply (file_not_above_dir (fs st) _ l t x Hpst Hl0). }
  destruct Hstep as (added1 & Hl1 & Hlg1 & Hsrc1 & Hfile1 & Habs1 & Hdir1).
  (* the files still to come are as they were *)
  assert (Hsame1 : forall p', In p' files ->
            FS.lookup (resolve E p') (fs st1) = FS.lookup (resolve E p') F0).
  { intros p' Hin. rewrite Forall_forall in Hrest.
    pose proof (Hrest p' Hin) as Hp'.
    pose proof Hp' as (_ & _ & Hun' & (t' & x' & Hp0') & _).
    rewrite Hp0'.
    assert (Hne : resolve E p <> resolve E p').
    { intros Heq. apply Hfresh. rewrite Heq. now apply in_map. }
    destruct (Hfile1 (resolve E p') t' x') as [Hkept _].
    - rewrite (Hsame p' (or_intror Hin)). exact Hp0'.
    - exact (proj1 (listed_files_apart E rules F0 S destination_base p p' Hp Hp' Hne)).
    - right. rewrite Forall_forall in Hlg1 |- *. intros m Hm.
      exact (proj1 (logged_outside_0 E F0 S m _ (Hlg1 m Hm) (under_prefix S _ Hun'))).
    - exact Hkept. }
  destruct (IH (Datatypes.S i) st1 st2 rest Hrest Hnd' Hsame1 He)
    as (added2 & Hl2 & Hlg2 & Hsrc2 & Hfile2 & Habs2 & Hdir2).
  exists (added1 ++ added2).
  split; [now rewrite Hl2, Hl1, map_app, app_assoc|].
  split; [apply Forall_app; now split|].
  split; [|split; [|split]].
  - apply Forall_app. split.
    + eapply Forall_impl; [|exact Hsrc1]. intros m ->. now left.
    + eapply Forall_impl; [|exact Hsrc2]. intros m Hm. now right.
  - intros l t x Hl0 Hfiles Hq.
    destruct (Hfile1 l t x Hl0 (Hfiles p (or_introl eq_refl))) as [Hk1 Hf1].
    { destruct Hq as [Hover|Hq]; [now left|right].
      now apply Forall_app in Hq as [Hq _]. }
    destruct (Hfile2 l t x Hk1) as [Hk2 Hf2].
    { intros p' Hin. apply Hfiles. now right. }
    { destruct Hq as [Hover|Hq]; [now left|right].
      now apply Forall_app in Hq as [_ Hq]. }
    split; [exact Hk2|]. apply Forall_app. now split.
  - intros l Hun Hl0. apply Habs2; [exact Hun|]. now apply Habs1.
  - intros l Hl0. apply Hdir2. now apply Hdir1.
Qed.

(** ** Round trip: the undo *)

(** One undo step on an entry of the log, whatever it finds on disk:
    it returns a result, and it is a step from the logged destination
    back to the source. *)
Lemma undo_step_trace (E : env) (G : node) (p q : path) :
  Path.wf p -> Path.components p <> [] -> Path.wf q ->
  exists G' r,
    undo_step E G (log_entry E p q) = (G', Ok r)
    /\ moved_by (removelast (resolve E p)) (resolve E q) (resolve E p) G G'.
Proof.
  intros Hp Hpne Hq. unfold undo_step, undo_attempt, log_entry.
  cbn [Py.contains Dict.mem String.eqb Ascii.eqb Bool.eqb orb andb
       Py.getitem Dict.get bind Py.as_str Py.get].
  rewrite (of_string_str p Hp), (of_string_str q Hq).
  destruct (path_exists E G q); cbn [negb].
  2: { do 2 eexists. split; [reflexivity|now left]. }
  rewrite (components_nonempty_parent E p Hpne).
  destruct (FS.mkdir_p (removelast (resolve E p)) G) as [G1|e] eqn:Hmk.
  2: { do 2 eexists. split; [reflexivity|now left]. }
  destruct (FS.move (resolve E q) (resolve E p) G1) as [G2|e] eqn:Hmv.
  - do 2 eexists. split; [reflexivity|]. exact (moved_by_move _ _ _ _ _ _ Hmk Hmv).
  - do 2 eexists. split; [reflexivity|]. right. exists G1. split; [exact Hmk|now left].
Qed.

Lemma undo_each_app (E : env) :
  (forall i, running E i = true) ->
  forall A B i G tl G1 tl1,
    undo_each E i G tl A = (G1, Ok tl1) ->
    undo_each E i G tl (A ++ B) = undo_each E (i + List.length A) G1 tl1 B.
Proof.
  intros Hrun. induction A as [|op A IH]; intros B i G tl G1 tl1 H.
  { simpl in H. injection H as <- <-. now rewrite Nat.add_0_r. }
  cbn [app undo_each] in H |- *. rewrite Hrun in H |- *. cbn [negb] in H |- *.
  destruct (undo_step E G op) as [G' [r|e]]; [|discriminate].
  rewrite (IH B (S i) G' (record_result tl r) G1 tl1 H).
  f_equal. simpl. lia.
Qed.

(** The undo of a stretch of the log: it goes through, and leaves alone
    what none of its entries names. *)
Lemma undo_each_trace (E : env) (F0 : node) (S : FS.loc) :
  (forall i, running E i = true) ->
  forall L i G tl,
    Forall (logged E F0 S) L ->
    exists G' tl',
      undo_each E i G tl (map (entry_of E) L) = (G', Ok tl')
      /\ (forall l t x,
            FS.lookup l G = Some (File t x) ->
            Forall (fun m => FS.is_prefix (resolve E (snd m)) l = false
                             /\ FS.is_prefix (resolve E (fst m)) l = false) L ->
            FS.lookup l G' = Some (File t x))
      /\ (forall l,
            FS.lookup l G = None ->
            Forall (fun m => FS.is_prefix l (resolve E (fst m)) = false
                             /\ FS.is_prefix (resolve E (fst m)) l = false) L ->
            FS.lookup l G' = None)
      /\ (forall l,
            FS.is_dir l G = true ->
            Forall (fun m => FS.is_prefix (resolve E (snd m)) l = false) L ->
            FS.is_dir l G' = true).
Proof.
  intros Hrun. induction L as [|[p q] L IH]; intros i G tl HL.
  { exists G, tl. split; [reflexivity|]. split; [|split]; auto. }
  inversion HL as [|? ? Hm HL']; subst.
  pose proof Hm as (Hpw & Hpc & Hqw & _). cbn [fst snd] in Hpw, Hpc, Hqw.
  destruct (undo_step_trace E G p q Hpw Hpc Hqw) as (G1 & r & Hstep & Hmb).
  destruct (IH (Datatypes.S i) G1 (record_result tl r) HL')
    as (G' & tl' & Heach & Hfile & Habs & Hdir).
  exists G', tl'. split; [|split; [|split]].
  - cbn [map undo_each]. rewrite Hrun. cbn [negb].
    change (entry_of E (p, q)) with (log_entry E p q). now rewrite Hstep.
  - intros l t x Hl Hall. inversion Hall as [|? ? [Hq Hp] Hall']; subst.
    apply Hfile; [|exact Hall'].
    exact (moved_by_keeps_file _ _ _ _ _ l t x Hmb Hl Hq Hp).
  - intros l Hl Hall. inversion Hall as [|? ? [Hlp Hpl] Hall']; subst.
    apply Habs; [|exact Hall'].
    apply (moved_by_keeps_absent _ _ _ _ _ l Hmb Hl); [|exact Hpl].
    now apply is_prefix_removelast_false.
  - intros l Hl Hall. inversion Hall as [|? ? Hq Hall']; subst.
    apply Hdir; [|exact Hall'].
    exact (moved_by_keeps_dir _ _ _ _ _ l Hmb Hl Hq).
Qed.

(** *** From [separated] to the files of the pass *)

Lemma no_dotdot_irrelevant (b : bool) (P : Prop) : (b && true = true -> P) -> (b = true -> P).
Proof. intros H Hb. apply H. now rewrite Hb. Qed.

Lemma separated_listed (E : env) (rules : list (string * json)) (d : node)
    (source_folder destination_folder : string) :
  separated E rules d source_folder destination_folder = true ->
  Forall (listed E rules d (resolve E (Path.of_string source_folder)) destination_folder)
         (all_files E d (Path.of_string source_folder))
  /\ NoDup (map (resolve E) (all_files E d (Path.of_string source_folder))).
Proof.
  unfold separated. intros H.
  apply andb_prop in H as [H Hsep]. apply andb_prop in H as [_ Hnames].
  set (src := Path.of_string source_folder) in *.
  unfold all_files in *.
  destruct (FS.lookup (resolve E src) d) as [n|] eqn:Hn; [|split; constructor].
  apply andb_prop in Hnames as [Hv Hd].
  rewrite forallb_forall in Hsep.
  assert (Hshape : forall p, In p (walk_files src n) ->
            exists rel t x,
              rel <> [] /\ Forall (fun c => Path.valid_name c = true) rel
              /\ p = src ++ rel
              /\ resolve E p = resolve E src ++ rel
              /\ FS.lookup (resolve E p) d = Some (File t x)).
  { intros p Hin.
    destruct (walk_files_below n src p Hv Hin) as (rel0 & Hne & Hrel0 & Hp0).
    destruct (walk_files_sound n src p Hv Hd Hin)
      as (rel & nm & t & x & Hp & Hl & _ & _).
    exists rel0, t, x. split; [exact Hne|]. split; [exact Hrel0|]. split; [exact Hp0|].
    rewrite Hp0, (resolve_app E src rel0 Hrel0). split; [reflexivity|].
    rewrite Hp in Hp0. apply app_inv_head in Hp0. rewrite <- Hp0.
    now rewrite (lookup_app _ _ d n Hn). }
  split.
  - apply Forall_forall. intros p Hin.
    destruct (Hshape p Hin) as (rel & t & x & Hne & Hrel & -> & Hres & Hfile).
    split; [|split; [|split; [|split]]].
    + apply app_wf; [apply of_string_wf|exact Hrel].
    + now apply app_components.
    + exists rel. now split.
    + eauto.
    + intros dd Hgen. specialize (Hsep _ Hin). rewrite Hgen in Hsep.
      apply andb_prop in Hsep as [_ Hsep]. apply andb_prop in Hsep as [_ Hsep].
      now apply apartb_apart.
  - apply NoDup_map_NoDup_ForallPairs; [|now apply walk_files_NoDup].
    intros p p' Hin Hin' Heq.
    destruct (Hshape p Hin) as (rel & _ & _ & _ & _ & -> & Hres & _).
    destruct (Hshape p' Hin') as (rel' & _ & _ & _ & _ & -> & Hres' & _).
    rewrite Hres, Hres' in Heq. apply app_inv_head in Heq. now subst.
Qed.

Lemma NoDup_map_middle {A B} (f : A -> B) (pre post : list A) (a : A) :
  NoDup (map f (pre ++ a :: post)) ->
  NoDup (map f pre) /\ NoDup (map f post)
  /\ (forall b, In b pre -> f b <> f a) /\ (forall b, In b post -> f b <> f a).
Proof.
  rewrite map_app. cbn [map]. intros H.
  pose proof (NoDup_remove_2 _ _ _ H) as Hnot.
  pose proof (NoDup_remove_1 _ _ _ H) as Hrest.
  split; [exact (NoDup_app_remove_r _ _ Hrest)|].
  split; [exact (NoDup_app_remove_l _ _ Hrest)|].
  split; intros b Hb Heq; apply Hnot; apply in_or_app; [left|right];
    rewrite <- Heq; now apply in_map.
Qed.

Lemma NoDup_app_apart {A} (l1 l2 : list A) :
  NoDup (l1 ++ l2) -> forall a b, In a l1 -> In b l2 -> a <> b.
Proof.
  induction l1 as [|c l1 IH]; intros H a b Ha Hb; [contradiction|].
  inversion H as [|? ? Hnot Hrest]; subst. destruct Ha as [->|Ha].
  - intros ->. apply Hnot. apply in_or_app. now right.
  - now apply IH.
Qed.

Lemma under_nonempty (S l : FS.loc) : under S l -> l <> [].
Proof.
  intros (rel & Hrel & ->) Hnil. apply app_eq_nil in Hnil as [_ Hnil]. contradiction.
Qed.

(** ** Round trip: one file through the pass *)

(** The file that a pass reports as moved: where it was, what the log
    holds about it, and where it is when the pass has ended. *)
Lemma organize_each_moved (E : env) (rules : list (string * json)) (S : FS.loc)
    (destination_base : string) (fuel : nat) (st st' : state)
    (pre post : list path) (p : path) (results : list (bool * string))
    (message : string) :
  setting_is E "create_undo_log" "True" "True" = true ->
  (forall i, running E i = true) ->
  Forall (listed E rules (fs st) S destination_base) (pre ++ p :: post) ->
  NoDup (map (resolve E) (pre ++ p :: post)) ->
  organize_each E rules fuel 0 st (pre ++ p :: post) destination_base false
    = Some (st', results) ->
  nth_error results (List.length pre) = Some (true, message) ->
  exists t x q before after,
    FS.lookup (resolve E p) (fs st) = Some (File t x)
    /\ FS.lookup (resolve E p) (fs st') = None
    /\ message = ("Moved " ++ Path.name p ++ " -> " ++ Path.str q)%string
    /\ undo_log st' = undo_log st ++ map (entry_of E) (before ++ (p, q) :: after)
    /\ Forall (logged E (fs st) S) (before ++ (p, q) :: after)
    /\ Forall (fun m => In (fst m) pre) before
    /\ Forall (fun m => In (fst m) post) after
    /\ FS.is_dir (removelast (resolve E p)) (fs st') = true
    /\ (setting_is E "handle_duplicates" "rename" "overwrite" = false
        \/ (FS.is_dir (resolve E q) (fs st') = false
            /\ Forall (fun m => FS.is_prefix (resolve E (snd m)) (resolve E q) = false)
                      after) ->
        FS.lookup (resolve E q) (fs st') = Some (File t x)
        /\ Forall (fun m => FS.is_prefix (resolve E (snd m)) (resolve E q) = false)
                  after).
Proof.
  intros Hlog Hrun Hlisted Hnd H Hres.
  destruct (organize_each_app E rules fuel destination_base false Hrun
              pre (p :: post) 0 st st' results H)
    as (st0 & r1 & r2 & Hpre & Hrest & -> & Hlen).
  rewrite nth_error_app2 in Hres by lia.
  replace (List.length pre - List.length r1) with 0 in Hres by lia.
  cbn [Nat.add organize_each] in Hrest. rewrite Hrun in Hrest. cbn [negb] in Hrest.
  destruct (organize_file E rules fuel st0 p destination_base false)
    as [[st1 [ok msg]]|] eqn:Hf; [|discriminate].
  destruct (organize_each E rules fuel (Datatypes.S (List.length pre)) st1 post
              destination_base false) as [[st2 rest]|] eqn:Hpost; [|discriminate].
  injection Hrest as <- <-. cbn [nth_error] in Hres. injection Hres as -> ->.
  (* the files of the pass *)
  apply Forall_app in Hlisted as [Hlpre Hlrest].
  pose proof Hlrest as Hlrest'. rewrite Forall_forall in Hlrest'.
  inversion Hlrest as [|? ? Hp Hlpost]; subst.
  pose proof Hlpost as Hlpost'. rewrite Forall_forall in Hlpost'.
  pose proof Hlpre as Hlpre'. rewrite Forall_forall in Hlpre'.
  destruct (NoDup_map_middle (resolve E) pre post p Hnd)
    as (Hndpre & Hndpost & Hpre_ne & Hpost_ne).
  rewrite map_app in Hnd.
  pose proof (NoDup_app_apart _ _ Hnd) as Hacross.
  pose proof Hp as (Hpwf & Hpne & Hpun & _ & _).
  (* before the file *)
  destruct (organize_each_trace E rules (fs st) S destination_base fuel Hlog Hrun
              pre 0 st st0 r1 Hlpre Hndpre (fun _ _ => eq_refl) Hpre)
    as (added_pre & Hl_pre & Hlg_pre & Hsrc_pre & Hfile_pre & Habs_pre & Hdir_pre).
  pose proof Hlg_pre as Hlg_pre'. rewrite Forall_forall in Hlg_pre'.
  assert (Hkeep : forall p', In p' (p :: post) ->
            FS.lookup (resolve E p') (fs st0) = FS.lookup (resolve E p') (fs st)).
  { intros p' Hin. pose proof (Hlrest' p' Hin) as Hp'.
    pose proof Hp' as (_ & _ & Hun' & (t' & x' & Hp0') & _).
    destruct (Hfile_pre (resolve E p') t' x' Hp0') as [Hk _].
    - intros p'' Hin''.
      apply (listed_files_apart E rules (fs st) S destination_base p'' p'
               (Hlpre' p'' Hin'') Hp').
      apply Hacross; now apply in_map.
    - right. apply Forall_forall. intros m Hm.
      exact (proj1 (logged_outside_0 E (fs st) S m _ (Hlg_pre' m Hm)
                      (under_prefix S _ Hun'))).
    - now rewrite Hp0'. }
  (* the file *)
  destruct (organize_file_trace E rules fuel st0 st1 p destination_base true message
              Hlog Hpwf Hpne Hf)
    as [(Hno & _)|(dd & nm & d1 & t & x & Hgen & Hnm & Hfree & Hpst & Hmk & Hout)];
    [discriminate|].
  destruct Hout as [(Hno & _)|(_ & Hmv & Hl & Hmsg)]; [discriminate|].
  destruct (listed_destination E rules (fs st) S destination_base (fs st0) p dd nm Hp
              (Hkeep p (or_introl eq_refl)) Hgen Hnm) as (Hlg & Hap & Hrq).
  set (q := (dd ++ [nm])%list) in *.
  pose proof (logged_outside E (fs st) S (p, q) (resolve E p)) as Hout_p.
  cbn [snd] in Hout_p.
  pose proof (under_prefix S _ Hpun) as HSp.
  assert (Hmb : moved_by (resolve E dd) (resolve E p) (resolve E q) (fs st0) (fs st1))
    by exact (moved_by_move _ _ _ _ _ _ Hmk Hmv).
  pose proof (lookup_mkdir_p_file _ _ _ _ _ _ Hmk Hpst) as Hp1.
  destruct (move_shape _ _ _ _ Hmv)
    as [[_ Habove]|(n & real & Hn & Hreal & Hnd1 & Hpar & Hfs1)].
  { pose proof (proj1 (logged_outside_0 E (fs st) S (p, q) _ Hlg HSp)) as Hnot.
    cbn [snd] in Hnot. rewrite Hnot in Habove. discriminate. }
  rewrite Hp1 in Hn. injection Hn as <-.
  (* after the file *)
  assert (Hsame1 : forall p', In p' post ->
            FS.lookup (resolve E p') (fs st1) = FS.lookup (resolve E p') (fs st)).
  { intros p' Hin. pose proof (Hlpost' p' Hin) as Hp'.
    pose proof Hp' as (_ & _ & Hun' & (t' & x' & Hp0') & _).
    rewrite Hp0'.
    apply (moved_by_keeps_file _ _ _ _ _ _ t' x' Hmb).
    - rewrite (Hkeep p' (or_intror Hin)). exact Hp0'.
    - apply (listed_files_apart E rules (fs st) S destination_base p p' Hp Hp').
      intros Heq. apply (Hpost_ne p' Hin). now symmetry.
    - exact (proj1 (logged_outside_0 E (fs st) S (p, q) _ Hlg (under_prefix S _ Hun'))). }
  destruct (organize_each_trace E rules (fs st) S destination_base fuel Hlog Hrun
              post _ st1 st2 rest Hlpost Hndpost Hsame1 Hpost)
    as (added_post & Hl_post & Hlg_post & Hsrc_post & Hfile_post & Habs_post & Hdir_post).
  exists t, x, q, added_pre, added_post.
  split; [now rewrite <- (Hkeep p (or_introl eq_refl))|].
  split.
  { apply (Habs_post _ Hpun). rewrite Hfs1.
    apply lookup_put_keeps_absent.
    - apply lookup_remove_same. exact (under_nonempty S _ Hpun).
    - rewrite Hreal. destruct (FS.is_dir (resolve E q) d1).
      + exact (proj1 (Hout_p _ Hlg HSp)).
      + exact (proj1 (logged_outside_0 E (fs st) S (p, q) _ Hlg HSp)). }
  split; [exact Hmsg|].
  split.
  { rewrite Hl_post, Hl, Hl_pre, map_app. cbn [map]. rewrite <- !app_assoc. reflexivity. }
  split; [apply Forall_app; split; [exact Hlg_pre|constructor; [exact Hlg|exact Hlg_post]]|].
  split; [exact Hsrc_pre|]. split; [exact Hsrc_post|].
  split.
  { apply Hdir_post.
    assert (Hd0 : FS.is_dir (removelast (resolve E p)) (fs st0) = true)
      by exact (lookup_parent_is_dir _ _ _ (under_nonempty S _ Hpun) Hpst).
    apply (moved_by_keeps_dir _ _ _ _ _ _ Hmb Hd0).
    exact (file_not_above_dir _ _ _ _ _ Hpst Hd0). }
  intros Hc.
  assert (HQ : FS.is_dir (resolve E q) d1 = false).
  { destruct Hc as [Hover|[Hnd' _]].
    - specialize (Hfree Hover). unfold path_exists, FS.exists_ in Hfree.
      unfold FS.is_dir. rewrite (lookup_mkdir_p _ _ _ (resolve E q) Hmk).
      + fold q in Hfree. now destruct (FS.lookup (resolve E q) (fs st0)).
      + rewrite Hrq. apply is_prefix_longer.
    - destruct (FS.is_dir (resolve E q) d1) eqn:Hd; [|reflexivity].
      rewrite <- Hnd'. symmetry. apply Hdir_post. rewrite Hfs1, Hreal.
      rewrite is_dir_put by apply is_prefix_longer.
      rewrite is_dir_remove; [exact Hd|].
      exact (proj2 (logged_outside_0 E (fs st) S (p, q) _ Hlg HSp)). }
  rewrite HQ in Hreal. subst real.
  assert (HQ1 : FS.lookup (resolve E q) (fs st1) = Some (File t x)).
  { rewrite Hfs1. apply lookup_put_same.
    - rewrite Hrq. intros Hnil. apply app_eq_nil in Hnil as [_ Hnil]. discriminate.
    - rewrite is_dir_remove; [exact Hpar|].
      apply is_prefix_removelast_false.
      exact (proj2 (logged_outside_0 E (fs st) S (p, q) _ Hlg HSp)). }
  apply (Hfile_post _ t x HQ1).
  - intros p' Hin. pose proof (Hlpost' p' Hin) as (_ & _ & Hun' & _).
    exact (proj2 (logged_outside_0 E (fs st) S (p, q) _ Hlg (under_prefix S _ Hun'))).
  - destruct Hc as [Hover|[_ Hall]]; [now left|now right].
Qed.

Lemma is_prefix_removelast_under (S l : FS.loc) :
  under S l -> FS.is_prefix S (removelast l) = true.
Proof.
  intros (rel & Hrel & ->). rewrite removelast_app by exact Hrel. apply is_prefix_app.
Qed.

(** ** Round trip: one file through the undo *)

(** The undo of a log brings one of its files back when the file is at
    its logged destination, its place in the source tree is free, and no
    entry that is undone before it has a destination at or above the
    destination of the file. *)
Lemma undo_each_restores_one (E : env) (F0 : node) (S : FS.loc)
    (before after : list (path * path)) (p q : path)
    (t : datetime) (x : string) (G : node) :
  (forall i, running E i = true) ->
  Forall (logged E F0 S) (before ++ (p, q) :: after) ->
  (forall m, In m (before ++ after) -> resolve E (fst m) <> resolve E p) ->
  FS.lookup (resolve E q) G = Some (File t x) ->
  FS.lookup (resolve E p) G = None ->
  FS.is_dir (removelast (resolve E p)) G = true ->
  Forall (fun m => FS.is_prefix (resolve E (snd m)) (resolve E q) = false) after ->
  exists G' tl',
    undo_each E 0 G (mkTally [] 0 0)
      (rev (map (entry_of E) (before ++ (p, q) :: after))) = (G', Ok tl')
    /\ FS.lookup (resolve E p) G' = Some (File t x).
Proof.
  intros Hrun HL Hne HQ HP Hpar Hafter.
  apply Forall_app in HL as [Hb HL]. inversion HL as [|? ? Hm Ha]; subst.
  pose proof Hm as (Hpwf & Hpc & Hqw & Hpun & (t0 & x0 & Hp0) & _).
  cbn [fst snd] in Hpwf, Hpc, Hqw, Hpun, Hp0.
  pose proof (under_prefix S _ Hpun) as HSp.
  pose proof (logged_outside_0 E F0 S (p, q) _ Hm HSp) as [HQP HPQ]. cbn [snd] in HQP, HPQ.
  assert (Hapart : forall m, In m (before ++ after) ->
            logged E F0 S m -> apart (resolve E (fst m)) (resolve E p)).
  { intros m Hin (_ & _ & _ & _ & (t' & x' & Hm0) & _).
    exact (files_apart F0 _ _ t' t0 x' x0 Hm0 Hp0 (Hne m Hin)). }
  rewrite Forall_forall in Ha, Hb, Hafter.
  assert (Ha' : Forall (logged E F0 S) (rev after))
    by (apply Forall_forall; intros m Hm'; apply in_rev in Hm'; auto).
  assert (Hb' : Forall (logged E F0 S) (rev before))
    by (apply Forall_forall; intros m Hm'; apply in_rev in Hm'; auto).
  rewrite <- map_rev, rev_app_distr. cbn [rev]. rewrite <- app_assoc. cbn [app].
  rewrite map_app. cbn [map].
  destruct (undo_each_trace E F0 S Hrun (rev after) 0 G (mkTally [] 0 0) Ha')
    as (Ga & tla & Hea & Hfa & Haa & Hda).
  rewrite (undo_each_app E Hrun _ _ 0 G _ Ga tla Hea).
  cbn [undo_each]. rewrite Hrun. cbn [negb].
  assert (HQa : FS.lookup (resolve E q) Ga = Some (File t x)).
  { apply Hfa; [exact HQ|]. apply Forall_forall. intros m Hm'. apply in_rev in Hm'.
    split; [now apply Hafter|].
    pose proof (Ha m Hm') as (_ & _ & _ & Hun' & _).
    exact (proj2 (logged_outside_0 E F0 S (p, q) _ Hm (under_prefix S _ Hun'))). }
  assert (HPa : FS.lookup (resolve E p) Ga = None).
  { apply Haa; [exact HP|]. apply Forall_forall. intros m Hm'. apply in_rev in Hm'.
    destruct (Hapart m (in_or_app _ _ _ (or_intror Hm')) (Ha m Hm')) as [H1 H2].
    now split. }
  assert (Hpara : FS.is_dir (removelast (resolve E p)) Ga = true).
  { apply Hda; [exact Hpar|]. apply Forall_forall. intros m Hm'. apply in_rev in Hm'.
    apply (proj1 (logged_outside_0 E F0 S m _ (Ha m Hm')
                    (is_prefix_removelast_under S _ Hpun))). }
  destruct (undo_step_entry E Ga p q t x Hpwf Hpc Hqw HQa HPa Hpara) as [msg Hstep].
  change (entry_of E (p, q)) with (log_entry E p q). rewrite Hstep.
  destruct (undo_each_trace E F0 S Hrun (rev before) (Datatypes.S (0 + List.length (map (entry_of E) (rev after))))
              (after_move Ga (resolve E q) (resolve E p) t x)
              (record_result tla (true, msg)) Hb')
    as (Gb & tlb & Heb & Hfb & _ & _).
  exists Gb, tlb. split; [exact Heb|].
  apply Hfb; [now apply after_move_dst|].
  apply Forall_forall. intros m Hm'. apply in_rev in Hm'.
  split.
  - exact (proj1 (logged_outside_0 E F0 S m _ (Hb m Hm') HSp)).
  - exact (proj1 (Hapart m (in_or_app _ _ _ (or_introl Hm')) (Hb m Hm'))).
Qed.

(** ** Round trip *)

(** C1, as the claim states it, fails in three ways.  Under the overwrite
    policy two files of one pass are both reported as moved, the second
    replaces the first at [/D/Audio/x.mp3], and the undo brings only the
    second back: [/S/a/x.mp3] stays missing.  Under the overwrite policy
    again, a file whose destination is an existing directory is moved
    into it, and the undo puts that directory where the file was.  And
    under the rename policy, in a folder that is organized into itself,
    the file [/S/Audio] is moved to [/S/Other/Audio], a later move
    creates the folder [/S/Audio], and the undo, reported as a success,
    leaves the file inside that folder, at [/S/Audio/Audio]. *)
Lemma pass_is_not_always_undone :
  (exists back,
     Scenario.pass_then_undo "overwrite" Scenario.two_songs
     = Some ([(true, "Moved x.mp3 -> /D/Audio/x.mp3");
              (true, "Moved x.mp3 -> /D/Audio/x.mp3")],
             back,
             Ok (UndoDone [(true, "Restored x.mp3 -> /S/b/x.mp3");
                           (false, "File not found in organized location: x.mp3")]
                          "Undo completed: 1 restored, 1 failed"))
     /\ separated (Scenario.env_with "overwrite") default_rules Scenario.two_songs
          "/S" "/D" = true
     /\ FS.lookup ["S"; "a"; "x.mp3"] Scenario.two_songs
        = Some (File Scenario.stamp "first")
     /\ FS.lookup ["S"; "a"; "x.mp3"] back = None
     /\ FS.lookup ["S"; "b"; "x.mp3"] back = Some (File Scenario.stamp "second"))
  /\ (exists back,
        Scenario.pass_then_undo "overwrite" Scenario.song_and_folder
        = Some ([(true, "Moved x.mp3 -> /D/Audio/x.mp3")],
                back,
                Ok (UndoDone [(true, "Restored x.mp3 -> /S/x.mp3")]
                             "Undo completed: 1 restored, 0 failed"))
        /\ separated (Scenario.env_with "overwrite") default_rules
             Scenario.song_and_folder "/S" "/D" = true
        /\ FS.lookup ["S"; "x.mp3"] Scenario.song_and_folder
           = Some (File Scenario.stamp "song")
        /\ FS.lookup ["S"; "x.mp3"] back
           = Some (Dir [("x.mp3", File Scenario.stamp "song")]))
  /\ (exists back,
        Scenario.pass_then_undo_into "/S" "rename" Scenario.notes_and_song
        = Some ([(true, "Moved Audio -> /S/Other/Audio");
                 (true, "Moved x.mp3 -> /S/Audio/x.mp3")],
                back,
                Ok (UndoDone [(true, "Restored x.mp3 -> /S/x.mp3");
                              (true, "Restored Audio -> /S/Audio")]
                             "Undo completed: 2 restored, 0 failed"))
        /\ separated (Scenario.env_with "rename") default_rules
             Scenario.notes_and_song "/S" "/S" = false
        /\ FS.lookup ["S"; "Audio"] Scenario.notes_and_song
           = Some (File Scenario.stamp "notes")
        /\ FS.lookup ["S"; "Audio"] back
           = Some (Dir [("Audio", File Scenario.stamp "notes")])
        /\ FS.lookup ["S"; "x.mp3"] back = Some (File Scenario.stamp "song")).
Proof.
  split; [|split]; eexists; (split; [vm_compute; reflexivity|]); repeat split.
Qed.

(** C1, amended.  Take a pass that is not a dry run, with the undo log
    enabled and empty at the start and never cancelled, from a source
    tree whose names are distinct and whose paths and destinations are
    free of [..], every destination directory lying apart from the
    source tree.  Every file that the pass reports as moved was a file
    at its path, has left it, is named in the report with the
    destination that the log records for it, and undoing the log of the
    pass puts that very file back at its original path: under the
    policies rename and skip always; under overwrite when, after the
    pass, the logged destination of the file is not a directory and no
    move logged after it went to that destination or above it. *)
Theorem organize_then_undo_round_trip
    (E : env) (rules : list (string * json)) (fuel : nat) (st st' : state)
    (source_folder destination_folder : string) (results : list (bool * string)) :
  setting_is E "create_undo_log" "True" "True" = true ->
  (forall i, running E i = true) ->
  undo_log st = [] ->
  separated E rules (fs st) source_folder destination_folder = true ->
  organize_folder E rules fuel st source_folder destination_folder false
    = Some (st', FolderDone results) ->
  forall k p message,
    nth_error (all_files E (fs st) (Path.of_string source_folder)) k = Some p ->
    nth_error results k = Some (true, message) ->
    exists t x q before after,
      FS.lookup (resolve E p) (fs st) = Some (File t x)
      /\ FS.lookup (resolve E p) (fs st') = None
      /\ Path.wf q
      /\ message = ("Moved " ++ Path.name p ++ " -> " ++ Path.str q)%string
      /\ undo_log st' = map (entry_of E) (before ++ (p, q) :: after)
      /\ Forall (fun m => In (fst m)
                   (firstn k (all_files E (fs st) (Path.of_string source_folder))))
                before
      /\ Forall (fun m => In (fst m)
                   (skipn (Datatypes.S k)
                      (all_files E (fs st) (Path.of_string source_folder))))
                after
      /\ (setting_is E "handle_duplicates" "rename" "overwrite" = false
          \/ (FS.is_dir (resolve E q) (fs st') = false
              /\ Forall (fun m => FS.is_prefix (resolve E (snd m)) (resolve E q) = false)
                        after) ->
          FS.lookup (resolve E p)
            (fst (undo_organization E (fs st') (Ok (JArr (undo_log st')))))
          = Some (File t x)).
Proof.
  intros Hlog Hrun Hempty Hsep H k p message Hk Hres.
  unfold organize_folder in H.
  destruct (negb (path_exists E (fs st) (Path.of_string source_folder)));
    [discriminate|].
  destruct (organize_each E rules fuel 0 st _ destination_folder false)
    as [[st1 results1]|] eqn:Hpass; [|discriminate].
  injection H as <- <-.
  destruct (separated_listed E rules (fs st) source_folder destination_folder Hsep)
    as [Hlisted Hnd].
  destruct (nth_error_split _ _ Hk) as (pre & post & Hfiles & Hlen).
  rewrite Hfiles in Hlisted, Hnd, Hpass |- *. subst k.
  destruct (organize_each_moved E rules _ destination_folder fuel st st1 pre post p
              results1 message Hlog Hrun Hlisted Hnd Hpass Hres)
    as (t & x & q & before & after & Hp0 & Hgone & Hmsg & Hl & Hlg & Hb & Ha & Hpar & Hq).
  rewrite Hempty in Hl. cbn [app] in Hl.
  exists t, x, q, before, after.
  split; [exact Hp0|]. split; [exact Hgone|].
  split.
  { apply Forall_app in Hlg as [_ Hlg]. inversion Hlg as [|? ? (_ & _ & Hqw & _) _].
    exact Hqw. }
  split; [exact Hmsg|]. split; [exact Hl|].
  split.
  { rewrite firstn_app, firstn_all, Nat.sub_diag. cbn [firstn]. now rewrite app_nil_r. }
  split.
  { rewrite skipn_app, skipn_all2 by lia.
    replace (Datatypes.S (List.length pre) - List.length pre) with 1 by lia. exact Ha. }
  intros Hc. destruct (Hq Hc) as [HQ Hafter].
  destruct (NoDup_map_middle (resolve E) pre post p Hnd) as (_ & _ & Hpre_ne & Hpost_ne).
  rewrite Forall_forall in Hb, Ha.
  destruct (undo_each_restores_one E (fs st) _ before after p q t x (fs st1)
              Hrun Hlg) as (G' & tl' & Heach & Hback); auto.
  { intros m Hin. apply in_app_or in Hin as [Hin|Hin].
    - exact (Hpre_ne _ (Hb m Hin)).
    - exact (Hpost_ne _ (Ha m Hin)). }
  assert (Htruthy : Py.truthy (JArr (undo_log st1)) = true).
  { rewrite Hl. now destruct before. }
  unfold undo_organization. rewrite Htruthy. cbn [negb].
  rewrite Hl, Heach. cbn [fst].
  now apply cleanup_empty_dirs_keeps_files.
Qed.

Lemma organize_then_undo_round_trip_witness :
  let E := Scenario.env_with "overwrite" in
  separated E default_rules Scenario.song_and_older_song "/S" "/D" = true
  /\ exists st' results,
       organize_folder E default_rules 1 (Scenario.fresh Scenario.song_and_older_song)
         "/S" "/D" false = Some (st', FolderDone results)
       /\ FS.lookup ["D"; "Audio"; "x.mp3"] (fs st') = Some (File Scenario.stamp "new")
       /\ FS.lookup ["S"; "a"; "x.mp3"] (fs st') = None
       /\ FS.lookup ["S"; "a"; "x.mp3"]
            (fst (undo_organization E (fs st') (Ok (JArr (undo_log st')))))
          = Some (File Scenario.stamp "new").
Proof.
  intros E.
  assert (Hsep : separated E default_rules Scenario.song_and_older_song "/S" "/D" = true)
    by (vm_compute; reflexivity).
  split; [exact Hsep|].
  assert (Hlog : setting_is E "create_undo_log" "True" "True" = true)
    by (vm_compute; reflexivity).
  assert (Hpass : exists st' results,
             organize_folder E default_rules 1 (Scenario.fresh Scenario.song_and_older_song)
               "/S" "/D" false = Some (st', FolderDone results)
             /\ nth_error results 0 = Some (true, "Moved x.mp3 -> /D/Audio/x.mp3")
             /\ undo_log st'
                = [log_entry E ["/"; "S"; "a"; "x.mp3"] ["/"; "D"; "Audio"; "x.mp3"]]
             /\ FS.lookup ["D"; "Audio"; "x.mp3"] (fs st')
                = Some (File Scenario.stamp "new"))
    by (do 2 eexists; split; [vm_compute; reflexivity|repeat split]).
  destruct Hpass as (st' & results & Hpass & Hres & Hentries & Hthere).
  exists st', results. split; [exact Hpass|]. split; [exact Hthere|].
  destruct (organize_then_undo_round_trip E default_rules 1
              (Scenario.fresh Scenario.song_and_older_song) st' "/S" "/D" results
              Hlog (fun _ => eq_refl) eq_refl Hsep Hpass
              0 ["/"; "S"; "a"; "x.mp3"] "Moved x.mp3 -> /D/Audio/x.mp3")
    as (t & x & q & before & after & H0 & Hgone & Hqw & _ & Hl & _ & _ & Hback).
  - vm_compute. reflexivity.
  - exact Hres.
  - split; [exact Hgone|].
    assert (Htx : FS.lookup ["S"; "a"; "x.mp3"] Scenario.song_and_older_song
                  = Some (File Scenario.stamp "new")) by reflexivity.
    change (resolve E ["/"; "S"; "a"; "x.mp3"]) with ["S"; "a"; "x.mp3"] in *.
    change (fs (Scenario.fresh Scenario.song_and_older_song))
      with Scenario.song_and_older_song in H0.
    rewrite Htx in H0. injection H0 as <- <-.
    rewrite Hentries in Hl.
    destruct before as [|b [|b' before]]; [|destruct after; discriminate|discriminate].
    destruct after; [|discriminate].
    cbv [app map entry_of log_entry fst snd] in Hl. injection Hl as Hq.
    rewrite <- (of_string_str q Hqw), <- Hq in Hback.
    apply Hback. right. split; [|constructor].
    change (resolve E (Path.of_string "/D/Audio/x.mp3")) with ["D"; "Audio"; "x.mp3"].
    unfold FS.is_dir. now rewrite Hthere.
Defined.
